(** * sitemap-scout: a shallow embedding of the discovery, enumeration and
      frontier-building tools, of the configuration, the command line and the
      tool call handler, and the properties of its specification.

    Conventions of the embedding.
    - A JavaScript string is modelled by a Rocq [string]: the sequence of
      bytes of its UTF-8 encoding.  [Buffer.from(s)] and
      [buf.toString('utf-8')] are then the identity; case folding, white
      space and line terminators are those of ASCII.  A property that rests
      on one of them is stated for ASCII text ([asciiText]), on which they
      are those of JavaScript.
    - A JavaScript number is modelled by an integer of [Z] (a rational of [Q]
      inside JSON values); NaN, infinities and rounding are not modelled.  A
      property that rests on the numeral of a number, read or written, is
      stated for the integers that a double holds exactly ([safeInteger]) or
      that are written with all their digits ([printedInFull]).
    - A cursor whose offset is not an integer (a fraction, a string, null)
      takes [listSitemapUrls] outside the model; properties of its pages are
      stated for the other cursors ([cursorAt], [integerOffset]).
    - The network, gzip inflation, the XML parser and the WHATWG URL parser
      are collaborators of the program: they are the fields of a [World].
    - Asynchronous functions are sequential here (the program awaits every
      promise at once), and they run in a state monad that carries the
      [visited] set in use and the log of the URLs handed to [fetch].
      Recursive functions take fuel; running out of fuel is the [None] of
      the monad and stands for a call that does not return.
    - [retrieved_at], the wall-clock stamp of an envelope, is left out. *)

From Stdlib Require Import ZArith QArith String Ascii List Bool Lia.
From stdpp Require Import base tactics gmap strings.
Import ListNotations.

Local Open Scope string_scope.
Local Open Scope Z_scope.
Local Open Scope list_scope.

#[local] Arguments String.append !_ _ : simpl nomatch.

(* ===================================================================== *)
(** * JavaScript string primitives *)
(* ===================================================================== *)

Module Js.

(** [s.startsWith(p)] *)
Fixpoint startsWith (s p : string) {struct p} : bool :=
  match p with
  | EmptyString => true
  | String c p' =>
      match s with
      | EmptyString => false
      | String d s' => Ascii.eqb c d && startsWith s' p'
      end
  end.

(** [s.includes(sub)] *)
Fixpoint includes (s sub : string) : bool :=
  startsWith s sub ||
  match s with
  | EmptyString => false
  | String _ s' => includes s' sub
  end.

(** [s.endsWith(suf)] *)
Fixpoint endsWith (s suf : string) : bool :=
  String.eqb s suf ||
  match s with
  | EmptyString => false
  | String _ s' => endsWith s' suf
  end.

(** White space of [\s] and of [trim], within ASCII: TAB, LF, VT, FF, CR and
    the space. *)
Definition isWhiteSpace (c : ascii) : bool :=
  let n := N_of_ascii c in
  ((9 <=? n)%N && (n <=? 13)%N) || (n =? 32)%N.

(** Line terminators within ASCII: LF and CR.  The dot of a regular
    expression matches every character but these. *)
Definition isLineTerminator (c : ascii) : bool :=
  let n := N_of_ascii c in (n =? 10)%N || (n =? 13)%N.

Fixpoint trimStart (s : string) : string :=
  match s with
  | String c s' => if isWhiteSpace c then trimStart s' else s
  | EmptyString => EmptyString
  end.

Fixpoint trimEnd (s : string) : string :=
  match s with
  | EmptyString => EmptyString
  | String c s' =>
      match trimEnd s' with
      | EmptyString => if isWhiteSpace c then EmptyString else String c EmptyString
      | t => String c t
      end
  end.

(** [s.trim()] *)
Definition trim (s : string) : string := trimEnd (trimStart s).

(** Case folding of the [i] flag, on ASCII letters. *)
Definition toLower (c : ascii) : ascii :=
  let n := N_of_ascii c in
  if (65 <=? n)%N && (n <=? 90)%N then ascii_of_N (n + 32) else c.

Definition eqbIgnoreCase (c d : ascii) : bool := Ascii.eqb (toLower c) (toLower d).

(** [s.toLowerCase().startsWith(p)] for a lower-case [p]: the prefix test of
    a regular expression with the [i] flag. *)
Fixpoint startsWithIgnoreCase (s p : string) {struct p} : bool :=
  match p with
  | EmptyString => true
  | String c p' =>
      match s with
      | EmptyString => false
      | String d s' => eqbIgnoreCase c d && startsWithIgnoreCase s' p'
      end
  end.

Fixpoint drop (n : nat) (s : string) : string :=
  match n, s with
  | S n', String _ s' => drop n' s'
  | _, _ => s
  end.

(** [s.split(sep)] for a one-character separator. *)
Fixpoint splitOn (sep : ascii) (s : string) : list string :=
  match s with
  | EmptyString => [EmptyString]
  | String c s' =>
      if Ascii.eqb c sep then EmptyString :: splitOn sep s'
      else match splitOn sep s' with
           | [] => [String c EmptyString]
           | l :: ls => String c l :: ls
           end
  end.

Fixpoint existsb_str (f : ascii -> bool) (s : string) : bool :=
  match s with
  | EmptyString => false
  | String c s' => f c || existsb_str f s'
  end.

(** The decimal numeral of an integer, as [String(n)], [JSON.stringify] and
    template strings print it when the integer is below 10^21 in absolute
    value; from there on they print an exponent. *)
Definition digitChar (d : Z) : ascii := ascii_of_N (Z.to_N (48 + d)).

Fixpoint digitsAcc (fuel : nat) (n : Z) (acc : string) : string :=
  let acc' := String (digitChar (n mod 10)) acc in
  match fuel with
  | O => acc'
  | S f => if n <? 10 then acc' else digitsAcc f (n / 10) acc'
  end.

Definition natToString (n : Z) : string :=
  digitsAcc (Z.to_nat (Z.log2 n)) n EmptyString.

Definition numberToString (n : Z) : string :=
  if n <? 0 then String "-" (natToString (- n)) else natToString n.

(** [a ?? b] *)
Definition nullish {A} (a : option A) (b : A) : A :=
  match a with Some x => x | None => b end.

End Js.

(* ===================================================================== *)
(** * Buffer: the base64url codec of Node *)
(* ===================================================================== *)

Module Base64url.

Definition alphabet : string :=
  "ABCDEFGHIJKLMNOPQRSTUVWXYZabcdefghijklmnopqrstuvwxyz0123456789-_".

Definition encodeSextet (n : N) : ascii :=
  match String.get (N.to_nat n) alphabet with
  | Some c => c
  | None => "A"%char
  end.

(** The value of a character of either base64 alphabet; Node reads both
    whatever the encoding asked for. *)
Definition unbase64 (c : ascii) : option N :=
  let n := N_of_ascii c in
  if (65 <=? n)%N && (n <=? 90)%N then Some (n - 65)%N
  else if (97 <=? n)%N && (n <=? 122)%N then Some (n - 71)%N
  else if (48 <=? n)%N && (n <=? 57)%N then Some (n + 4)%N
  else if (n =? 43)%N || (n =? 45)%N then Some 62%N
  else if (n =? 47)%N || (n =? 95)%N then Some 63%N
  else None.

(** Three bytes make four sextets; a last group of one or two bytes makes two
    or three, and base64url writes no padding. *)
Fixpoint sextetsOfBytes (s : string) : list N :=
  match s with
  | String a (String b (String c r)) =>
      let '(a, b, c) := (N_of_ascii a, N_of_ascii b, N_of_ascii c) in
      [a / 4; (a mod 4) * 16 + b / 16; (b mod 16) * 4 + c / 64; c mod 64]%N
        ++ sextetsOfBytes r
  | String a (String b EmptyString) =>
      let '(a, b) := (N_of_ascii a, N_of_ascii b) in
      [a / 4; (a mod 4) * 16 + b / 16; (b mod 16) * 4]%N
  | String a EmptyString =>
      let a := N_of_ascii a in
      [a / 4; (a mod 4) * 16]%N
  | EmptyString => []
  end.

(** [Buffer.from(s).toString('base64url')] *)
Definition encode (s : string) : string :=
  string_of_list_ascii (map encodeSextet (sextetsOfBytes s)).

(** The decoder skips every character outside the alphabets and stops at the
    first [=]. *)
Fixpoint sextetsOfText (s : string) : list N :=
  match s with
  | EmptyString => []
  | String c r =>
      if Ascii.eqb c "="%char then []
      else match unbase64 c with
           | Some n => n :: sextetsOfText r
           | None => sextetsOfText r
           end
  end.

Fixpoint bytesOfSextets (l : list N) : string :=
  match l with
  | a :: b :: c :: d :: r =>
      String (ascii_of_N (a * 4 + b / 16))
        (String (ascii_of_N ((b mod 16) * 16 + c / 4))
           (String (ascii_of_N ((c mod 4) * 64 + d)) (bytesOfSextets r)))
  | [a; b; c] =>
      String (ascii_of_N (a * 4 + b / 16))
        (String (ascii_of_N ((b mod 16) * 16 + c / 4)) EmptyString)
  | [a; b] => String (ascii_of_N (a * 4 + b / 16)) EmptyString
  | _ => EmptyString
  end.

(** [Buffer.from(s, 'base64url')], as the string of its bytes. *)
Definition decode (s : string) : string := bytesOfSextets (sextetsOfText s).

End Base64url.


(* ===================================================================== *)
(** * JSON.stringify and JSON.parse *)
(* ===================================================================== *)

Module Json.

#[local] Set Warnings "-register-all".

Inductive value :=
| JNull
| JBool (b : bool)
| JNum (q : Q)
| JStr (s : string)
| JArr (items : list value)
| JObj (members : list (string * value)).

(** The double quote and the backslash. *)
Definition DQ : ascii := "034"%char.
Definition BS : ascii := "092"%char.

Definition hexChar (n : N) : ascii :=
  if (n <? 10)%N then ascii_of_N (48 + n) else ascii_of_N (87 + n).

(** QuoteJSONString, one character at a time: the quote, the backslash and
    the control characters are escaped, every other byte is copied. *)
Definition escapeChar (c : ascii) : string :=
  let n := N_of_ascii c in
  if Ascii.eqb c DQ then String BS (String DQ EmptyString)
  else if Ascii.eqb c BS then String BS (String BS EmptyString)
  else if (n =? 8)%N then String BS "b"
  else if (n =? 12)%N then String BS "f"
  else if (n =? 10)%N then String BS "n"
  else if (n =? 13)%N then String BS "r"
  else if (n =? 9)%N then String BS "t"
  else if (n <? 32)%N then
    String BS (String "u" (String "0" (String "0"
      (String (hexChar (n / 16)) (String (hexChar (n mod 16)) EmptyString)))))
  else String c EmptyString.

Fixpoint escape (s : string) : string :=
  match s with
  | EmptyString => EmptyString
  | String c r => escapeChar c +:+ escape r
  end.

(** [JSON.stringify(s)] for a string [s]. *)
Definition quote (s : string) : string := String DQ (escape s +:+ String DQ EmptyString).

(** ** The parser *)

Definition isJsonSpace (c : ascii) : bool :=
  let n := N_of_ascii c in
  (n =? 32)%N || (n =? 9)%N || (n =? 10)%N || (n =? 13)%N.

Fixpoint skipWs (s : string) : string :=
  match s with
  | String c r => if isJsonSpace c then skipWs r else s
  | EmptyString => EmptyString
  end.

Definition digitValue (c : ascii) : option Z :=
  let n := N_of_ascii c in
  if (48 <=? n)%N && (n <=? 57)%N then Some (Z.of_N n - 48) else None.

Definition hexValue (c : ascii) : option N :=
  let n := N_of_ascii c in
  if (48 <=? n)%N && (n <=? 57)%N then Some (n - 48)%N
  else if (97 <=? n)%N && (n <=? 102)%N then Some (n - 87)%N
  else if (65 <=? n)%N && (n <=? 70)%N then Some (n - 55)%N
  else None.

(** Four hexadecimal digits. *)
Definition hex4 (s : string) : option (N * string) :=
  match s with
  | String a (String b (String c (String d r))) =>
      match hexValue a, hexValue b, hexValue c, hexValue d with
      | Some a, Some b, Some c, Some d => Some (((a * 16 + b) * 16 + c) * 16 + d, r)%N
      | _, _, _, _ => None
      end
  | _ => None
  end.

(** The UTF-8 bytes of a code point (of a lone surrogate too). *)
Definition utf8 (cp : N) : string :=
  let byte n := ascii_of_N n in
  (if cp <? 128 then String (byte cp) EmptyString
   else if cp <? 2048 then
     String (byte (192 + cp / 64)) (String (byte (128 + cp mod 64)) EmptyString)
   else if cp <? 65536 then
     String (byte (224 + cp / 4096))
       (String (byte (128 + (cp / 64) mod 64)) (String (byte (128 + cp mod 64)) EmptyString))
   else
     String (byte (240 + cp / 262144))
       (String (byte (128 + (cp / 4096) mod 64))
          (String (byte (128 + (cp / 64) mod 64))
             (String (byte (128 + cp mod 64)) EmptyString))))%N.

(** A [\uXXXX] escape, with the low surrogate that may follow a high one. *)
Definition unicodeEscape (s : string) : option (string * string) :=
  match hex4 s with
  | None => None
  | Some (u, r) =>
      let lone := Some (utf8 u, r) in
      if ((55296 <=? u) && (u <? 56320))%N then
        match r with
        | String b (String x r') =>
            if Ascii.eqb b BS && Ascii.eqb x "u" then
              match hex4 r' with
              | Some (l, r'') =>
                  if ((56320 <=? l) && (l <? 57344))%N
                  then Some (utf8 (65536 + (u - 55296) * 1024 + (l - 56320))%N, r'')
                  else lone
              | None => lone
              end
            else lone
        | _ => lone
        end
      else lone
  end.

(** The characters of a string literal after its opening quote, up to the
    closing quote: the content and what follows the literal.  One unit of
    fuel is used for each character of the content. *)
Fixpoint parseChars (fuel : nat) (s : string) : option (string * string) :=
  match fuel with
  | O => None
  | S fuel' =>
      match s with
      | EmptyString => None
      | String c r =>
          if Ascii.eqb c DQ then Some (EmptyString, r)
          else if Ascii.eqb c BS then
            match r with
            | EmptyString => None
            | String e r' =>
                let continue (decoded : string) (rest : string) :=
                  match parseChars fuel' rest with
                  | Some (content, after) => Some (decoded +:+ content, after)
                  | None => None
                  end in
                if Ascii.eqb e DQ then continue (String DQ EmptyString) r'
                else if Ascii.eqb e BS then continue (String BS EmptyString) r'
                else if Ascii.eqb e "/" then continue "/" r'
                else if Ascii.eqb e "b" then continue (String "008"%char EmptyString) r'
                else if Ascii.eqb e "f" then continue (String "012"%char EmptyString) r'
                else if Ascii.eqb e "n" then continue (String "010"%char EmptyString) r'
                else if Ascii.eqb e "r" then continue (String "013"%char EmptyString) r'
                else if Ascii.eqb e "t" then continue (String "009"%char EmptyString) r'
                else if Ascii.eqb e "u" then
                  match unicodeEscape r' with
                  | Some (decoded, rest) => continue decoded rest
                  | None => None
                  end
                else None
            end
          else if (N_of_ascii c <? 32)%N then None
          else match parseChars fuel' r with
               | Some (content, after) => Some (String c content, after)
               | None => None
               end
      end
  end.

(** A run of decimal digits: its value after [acc], its length, the rest. *)
Fixpoint scanDigits (s : string) (acc : Z) (count : nat) : Z * nat * string :=
  match s with
  | EmptyString => (acc, count, s)
  | String c r =>
      match digitValue c with
      | Some d => scanDigits r (acc * 10 + d) (S count)
      | None => (acc, count, s)
      end
  end.

(** The value [sign * (int * 10^k + frac) * 10^e / 10^k] in lowest terms. *)
Definition decimal (negative : bool) (int frac : Z) (k : nat) (e : Z) : Q :=
  let mantissa := int * 10 ^ Z.of_nat k + frac in
  let mantissa := if negative then - mantissa else mantissa in
  Qred (Qmake (mantissa * 10 ^ Z.max e 0) (Z.to_pos (10 ^ Z.of_nat k * 10 ^ Z.max (- e) 0))).

(** A JSON number: an optional minus sign, an integer part without a leading
    zero, an optional fraction and an optional exponent. *)
Definition takeSign (s : string) : bool * string :=
  match s with
  | String c r => if Ascii.eqb c "-" then (true, r) else (false, s)
  | EmptyString => (false, s)
  end.

Definition parseInt (s : string) : option (Z * string) :=
  match s with
  | String c r =>
      if Ascii.eqb c "0" then Some (0, r)
      else match digitValue c with
           | Some _ => let '(n, _, r') := scanDigits s 0 O in Some (n, r')
           | None => None
           end
  | EmptyString => None
  end.

Definition parseFrac (s : string) : option (Z * nat * string) :=
  match s with
  | String c r =>
      if Ascii.eqb c "." then
        let '(f, k, r') := scanDigits r 0 O in
        match k with O => None | _ => Some (f, k, r') end
      else Some (0, O, s)
  | EmptyString => Some (0, O, s)
  end.

Definition parseExp (s : string) : option (Z * string) :=
  match s with
  | String c r =>
      if Ascii.eqb c "e" || Ascii.eqb c "E" then
        let '(minus, r) :=
          match r with
          | String g r' =>
              if Ascii.eqb g "-" then (true, r')
              else if Ascii.eqb g "+" then (false, r')
              else (false, r)
          | EmptyString => (false, r)
          end in
        let '(e, n, r') := scanDigits r 0 O in
        match n with
        | O => None
        | _ => Some (if minus then - e else e, r')
        end
      else Some (0, s)
  | EmptyString => Some (0, s)
  end.

Definition parseNumber (s : string) : option (Q * string) :=
  let '(negative, s) := takeSign s in
  match parseInt s with
  | None => None
  | Some (int, s) =>
      match parseFrac s with
      | None => None
      | Some (frac, k, s) =>
          match parseExp s with
          | None => None
          | Some (e, s) => Some (decimal negative int frac k e, s)
          end
      end
  end.

Definition literal (word : string) (v : value) (s : string) : option (value * string) :=
  if String.prefix word s
  then Some (v, String.substring (String.length word) (String.length s - String.length word) s)
  else None.

(** The members of an object after its opening brace, when the object is not
    empty; [parseValue] parses a member's value. *)
Fixpoint parseMembers (n : nat) (parseValue : string -> option (value * string))
    (s : string) (acc : list (string * value)) : option (value * string) :=
  match n with
  | O => None
  | S n' =>
      match skipWs s with
      | String c r =>
          if Ascii.eqb c DQ then
            match parseChars (String.length r) r with
            | Some (key, r) =>
                match skipWs r with
                | String c r =>
                    if Ascii.eqb c ":" then
                      match parseValue r with
                      | Some (v, r) =>
                          match skipWs r with
                          | String c r =>
                              if Ascii.eqb c "," then parseMembers n' parseValue r (acc ++ [(key, v)])
                              else if Ascii.eqb c "}" then Some (JObj (acc ++ [(key, v)]), r)
                              else None
                          | EmptyString => None
                          end
                      | None => None
                      end
                    else None
                | EmptyString => None
                end
            | None => None
            end
          else None
      | EmptyString => None
      end
  end.

(** The elements of an array after its opening bracket, when the array is
    not empty. *)
Fixpoint parseElements (n : nat) (parseValue : string -> option (value * string))
    (s : string) (acc : list value) : option (value * string) :=
  match n with
  | O => None
  | S n' =>
      match parseValue s with
      | Some (v, r) =>
          match skipWs r with
          | String c r =>
              if Ascii.eqb c "," then parseElements n' parseValue r (acc ++ [v])
              else if Ascii.eqb c "]" then Some (JArr (acc ++ [v]), r)
              else None
          | EmptyString => None
          end
      | None => None
      end
  end.

Fixpoint parseValue (fuel : nat) (s : string) : option (value * string) :=
  match fuel with
  | O => None
  | S fuel' =>
      match skipWs s with
      | EmptyString => None
      | String c r as s' =>
          if Ascii.eqb c "{" then
            match skipWs r with
            | String c' r' =>
                if Ascii.eqb c' "}" then Some (JObj [], r')
                else parseMembers fuel' (parseValue fuel') r []
            | EmptyString => None
            end
          else if Ascii.eqb c "[" then
            match skipWs r with
            | String c' r' =>
                if Ascii.eqb c' "]" then Some (JArr [], r')
                else parseElements fuel' (parseValue fuel') r []
            | EmptyString => None
            end
          else if Ascii.eqb c DQ then
            match parseChars (String.length r) r with
            | Some (content, r') => Some (JStr content, r')
            | None => None
            end
          else if Ascii.eqb c "t" then literal "true" (JBool true) s'
          else if Ascii.eqb c "f" then literal "false" (JBool false) s'
          else if Ascii.eqb c "n" then literal "null" JNull s'
          else match parseNumber s' with
               | Some (q, r') => Some (JNum q, r')
               | None => None
               end
      end
  end.

(** [JSON.parse(text)]; [None] when it throws a SyntaxError. *)
Definition parse (text : string) : option value :=
  match parseValue (S (String.length text)) text with
  | Some (v, r) =>
      match skipWs r with
      | EmptyString => Some v
      | _ => None
      end
  | None => None
  end.

(** [obj[key]]: the last member of that name in an object, [None]
    ([undefined]) otherwise. *)
Fixpoint lookup (key : string) (members : list (string * value)) : option value :=
  match members with
  | [] => None
  | (k, v) :: rest =>
      match lookup key rest with
      | Some v' => Some v'
      | None => if String.eqb k key then Some v else None
      end
  end.

Definition property (key : string) (v : value) : option value :=
  match v with
  | JObj members => lookup key members
  | _ => None
  end.

(** Truthiness of a parsed value. *)
Definition truthy (v : value) : bool :=
  match v with
  | JNull => false
  | JBool b => b
  | JNum q => negb (Qeq_bool q 0)
  | JStr s => negb (String.eqb s EmptyString)
  | JArr _ | JObj _ => true
  end.

End Json.


(* ===================================================================== *)
(** * Pagination cursors (tools/utils.ts) *)
(* ===================================================================== *)

Record CursorData := { offset : Z; sitemap_url : option string }.

(** [JSON.stringify(data)] for the object [{ offset, sitemap_url? }]: an
    absent [sitemap_url] is left out. *)
Definition stringifyCursor (data : CursorData) : string :=
  "{" +:+ Json.quote "offset" +:+ ":" +:+ Js.numberToString (offset data) +:+
  match sitemap_url data with
  | Some u => "," +:+ Json.quote "sitemap_url" +:+ ":" +:+ Json.quote u +:+ "}"
  | None => "}"
  end.

Definition encodeCursor (data : CursorData) : string :=
  Base64url.encode (stringifyCursor data).

(** [decodeCursor] returns whatever [JSON.parse] returns, and [null] when it
    throws. *)
Definition decodeCursor (cursor : string) : Json.value :=
  match Json.parse (Base64url.decode cursor) with
  | Some v => v
  | None => Json.JNull
  end.

(** The object that a cursor payload is. *)
Definition cursorValue (data : CursorData) : Json.value :=
  Json.JObj (("offset", Json.JNum (inject_Z (offset data))) ::
             match sitemap_url data with
             | Some u => [("sitemap_url", Json.JStr u)]
             | None => []
             end).


(** A parsed value read as a payload: its [offset] when it is an integer, and
    its [sitemap_url] when it is a string. *)
Definition payloadOf (v : Json.value) : option CursorData :=
  match Json.property "offset" v with
  | Some (Json.JNum q) =>
      if (Qden q =? 1)%positive then
        Some {| offset := Qnum q;
                sitemap_url := match Json.property "sitemap_url" v with
                               | Some (Json.JStr s) => Some s
                               | _ => None
                               end |}
      else None
  | _ => None
  end.

(* ===================================================================== *)
(** * RegExp: the sources that matchesPattern can build *)
(* ===================================================================== *)

(** [matchesPattern] builds the source of its regular expression from the
    pattern: between [^] and [$] stand escaped characters, the pair [.*],
    question marks and ordinary characters.  The model of [new RegExp(src,
    'i')] reads the grammar of such sources: the two anchors, the dot,
    identity escapes, ordinary characters, and the quantifiers [*] and [?]
    with their lazy forms.  Any other construct is [Unsupported]; the
    sources of [matchesPattern] have none. *)
Module RegExp.

Inductive token :=
| TChar (c : ascii)      (* an ordinary or an escaped character *)
| TDot
| TStar
| TQuestion
| TCaret
| TDollar
| TOther (c : ascii)     (* syntax outside the model *)
| TBackslashEnd.         (* a backslash that ends the source *)

Definition isAlphaNum (c : ascii) : bool :=
  let n := N_of_ascii c in
  ((48 <=? n) && (n <=? 57) || (65 <=? n) && (n <=? 90) || (97 <=? n) && (n <=? 122))%N.

Definition isSyntaxOutsideModel (c : ascii) : bool :=
  Js.existsb_str (Ascii.eqb c) "+()[]{}|".

Fixpoint tokenize (src : string) : list token :=
  match src with
  | EmptyString => []
  | String c r =>
      if Ascii.eqb c "\" then
        match r with
        | EmptyString => [TBackslashEnd]
        | String e r' => (if isAlphaNum e then TOther e else TChar e) :: tokenize r'
        end
      else if Ascii.eqb c "." then TDot :: tokenize r
      else if Ascii.eqb c "*" then TStar :: tokenize r
      else if Ascii.eqb c "?" then TQuestion :: tokenize r
      else if Ascii.eqb c "^" then TCaret :: tokenize r
      else if Ascii.eqb c "$" then TDollar :: tokenize r
      else if isSyntaxOutsideModel c then TOther c :: tokenize r
      else TChar c :: tokenize r
  end.

Inductive atom := AnyChar | Char (c : ascii).
Inductive quantifier := One | Optional | Star.
Inductive item := AssertStart | AssertEnd | Term (a : atom) (q : quantifier).

Inductive compiled :=
| Compiled (items : list item)
| SyntaxError
| Unsupported.

Definition consItem (i : item) (r : compiled) : compiled :=
  match r with
  | Compiled items => Compiled (i :: items)
  | other => other
  end.

(** A term is an atom with an optional quantifier, and a quantifier may be
    followed by a question mark that makes it lazy; laziness does not change
    which strings match.  A quantifier with nothing to repeat, after an
    assertion or after a complete quantifier, is a SyntaxError. *)
Fixpoint parseTokens (ts : list token) : compiled :=
  let term (a : atom) (r : list token) : compiled :=
    match r with
    | TStar :: r1 =>
        match r1 with
        | TQuestion :: r2 => consItem (Term a Star) (parseTokens r2)
        | _ => consItem (Term a Star) (parseTokens r1)
        end
    | TQuestion :: r1 =>
        match r1 with
        | TQuestion :: r2 => consItem (Term a Optional) (parseTokens r2)
        | _ => consItem (Term a Optional) (parseTokens r1)
        end
    | _ => consItem (Term a One) (parseTokens r)
    end in
  match ts with
  | [] => Compiled []
  | TChar c :: r => term (Char c) r
  | TDot :: r => term AnyChar r
  | TCaret :: r => consItem AssertStart (parseTokens r)
  | TDollar :: r => consItem AssertEnd (parseTokens r)
  | TStar :: _ | TQuestion :: _ => SyntaxError
  | TBackslashEnd :: _ => SyntaxError
  | TOther _ :: _ => Unsupported
  end.

(** [new RegExp(src, 'i')] *)
Definition compile (src : string) : compiled := parseTokens (tokenize src).

(** With the [i] flag and without the [s] flag. *)
Definition atomMatches (a : atom) (c : ascii) : bool :=
  match a with
  | AnyChar => negb (Js.isLineTerminator c)
  | Char d => Js.eqbIgnoreCase d c
  end.

(** The items match a prefix of [s]; [atStart] tells whether [s] is the whole
    input. *)
Fixpoint matchHere (items : list item) : bool -> string -> bool :=
  match items with
  | [] => fun _ _ => true
  | AssertStart :: r => fun atStart s => atStart && matchHere r atStart s
  | AssertEnd :: r =>
      fun atStart s =>
        match s with
        | EmptyString => matchHere r atStart s
        | String _ _ => false
        end
  | Term a One :: r =>
      fun _ s =>
        match s with
        | String c s' => atomMatches a c && matchHere r false s'
        | EmptyString => false
        end
  | Term a Optional :: r =>
      fun atStart s =>
        match s with
        | String c s' => atomMatches a c && matchHere r false s'
        | EmptyString => false
        end || matchHere r atStart s
  | Term a Star :: r =>
      fix star (atStart : bool) (s : string) : bool :=
        matchHere r atStart s ||
        match s with
        | String c s' => atomMatches a c && star false s'
        | EmptyString => false
        end
  end.

(** [regex.test(s)] for a regular expression without the [g] and [y] flags:
    a match may start at any position. *)
Fixpoint search (items : list item) (atStart : bool) (s : string) : bool :=
  matchHere items atStart s ||
  match s with
  | String _ s' => search items false s'
  | EmptyString => false
  end.

Definition test (items : list item) (s : string) : bool := search items true s.

End RegExp.

(* ===================================================================== *)
(** * matchesPattern (tools/utils.ts) *)
(* ===================================================================== *)

(** The class [.+^${}()|[\]\\] of the first [replace]. *)
Definition isEscapedByPattern (c : ascii) : bool :=
  Js.existsb_str (Ascii.eqb c) ".+^${}()|[]\".

(** [pattern.replace(/[.+^${}()|[\]\\]/g, '\\$&')] *)
Fixpoint escapeSpecials (pattern : string) : string :=
  match pattern with
  | EmptyString => EmptyString
  | String c r =>
      if isEscapedByPattern c then String "\" (String c (escapeSpecials r))
      else String c (escapeSpecials r)
  end.

(** [s.replace(/\*/g, '.*')] *)
Fixpoint starsToDotStar (s : string) : string :=
  match s with
  | EmptyString => EmptyString
  | String c r =>
      if Ascii.eqb c "*" then String "." (String "*" (starsToDotStar r))
      else String c (starsToDotStar r)
  end.

(** [pattern.replace(/\*/g, '')] *)
Fixpoint removeStars (pattern : string) : string :=
  match pattern with
  | EmptyString => EmptyString
  | String c r => if Ascii.eqb c "*" then removeStars r else String c (removeStars r)
  end.

Definition regexSource (pattern : string) : string :=
  "^" +:+ starsToDotStar (escapeSpecials pattern) +:+ "$".

Definition matchesPattern (u pattern : string) : bool :=
  match RegExp.compile (regexSource pattern) with
  | RegExp.Compiled regex => RegExp.test regex u
  | RegExp.SyntaxError => Js.includes u (removeStars pattern)
  | RegExp.Unsupported => false
  end.

(** The glob of the specification: [*] matches any run of characters, every
    other character matches itself, whatever its case. *)
Inductive Glob : string -> string -> Prop :=
| Glob_nil : Glob EmptyString EmptyString
| Glob_star (p run u : string) : Glob p u -> Glob (String "*" p) (run +:+ u)
| Glob_char (c d : ascii) (p u : string) :
    c <> "*"%char -> Js.eqbIgnoreCase c d = true -> Glob p u ->
    Glob (String c p) (String d u).

(** A decision procedure for [Glob]. *)
Fixpoint globMatch (pattern : string) : string -> bool :=
  match pattern with
  | EmptyString => fun u => match u with EmptyString => true | _ => false end
  | String c p =>
      if Ascii.eqb c "*" then
        fix run (u : string) : bool :=
          globMatch p u ||
          match u with
          | String _ u' => run u'
          | EmptyString => false
          end
      else
        fun u =>
          match u with
          | String d u' => Js.eqbIgnoreCase c d && globMatch p u'
          | EmptyString => false
          end
  end.

(* ===================================================================== *)
(** * Envelopes and records (types.ts) *)
(* ===================================================================== *)

Inductive ErrorCode :=
| INVALID_INPUT | UPSTREAM_ERROR | RATE_LIMITED | TIMEOUT | PARSE_ERROR | INTERNAL_ERROR.

Record PaginationMeta := { next_cursor : option string }.

(** [ResponseMeta] without [retrieved_at].  [None] is an absent (or
    [undefined]) property. *)
Record ResponseMeta := {
  source : option string;
  pagination : option PaginationMeta;
  warnings : option (list string)
}.

(** The [Partial<ResponseMeta>] argument of [createSuccessResponse].  A key
    that is present overrides the default even when its value is
    [undefined]: [arg_warnings = Some None] is the literal
    [{ warnings: undefined }]. *)
Record MetaArg := {
  arg_source : option string;
  arg_pagination : option PaginationMeta;
  arg_warnings : option (option (list string))
}.

Inductive Response (T : Type) :=
| Success (data : T) (meta : ResponseMeta)
| Failure (code : ErrorCode) (message : string).
Arguments Success {T} data meta.
Arguments Failure {T} code message.

Definition createSuccessResponse {T} (data : T) (meta : MetaArg) : Response T :=
  Success data
    {| source := arg_source meta;
       pagination := arg_pagination meta;
       warnings := match arg_warnings meta with
                   | None => Some []
                   | Some w => w
                   end |}.

Definition createErrorResponse {T} (code : ErrorCode) (message : string) : Response T :=
  Failure code message.

Definition is_ok {T} (r : Response T) : bool :=
  match r with Success _ _ => true | Failure _ _ => false end.

Record SitemapEntry := {
  loc : string;
  lastmod : option string;
  changefreq : option string;
  priority : option string
}.

Inductive SitemapType := sitemap | sitemap_index.
Inductive DiscoveredFrom := robots_txt | standard_location | from_sitemap_index.

Record DiscoveredSitemap := {
  ds_url : string;
  ds_type : SitemapType;
  discovered_from : DiscoveredFrom
}.

Record DiscoverSitemapsData := {
  domain : string;
  sitemaps : list DiscoveredSitemap;
  robots_txt_found : bool
}.

Record ListSitemapUrlsData := {
  lsu_sitemap_url : string;
  lsu_urls : list SitemapEntry;
  total_in_page : Z;
  is_index : bool
}.

Record CrawlFrontierRules := {
  include : option (list string);
  exclude : option (list string);
  max_urls : option Z
}.

Record FrontierUrl := {
  url : string;
  source_sitemap : string;
  last_modified : option string;
  fu_priority : option string
}.

Record BuildCrawlFrontierData := {
  seed_url : string;
  frontier : list FrontierUrl;
  total_urls : Z;
  sitemaps_processed : Z;
  rules_applied : CrawlFrontierRules
}.

Definition SitemapType_eqb (a b : SitemapType) : bool :=
  match a, b with
  | sitemap, sitemap | sitemap_index, sitemap_index => true
  | _, _ => false
  end.

(* ===================================================================== *)
(** * The collaborators *)
(* ===================================================================== *)

(** What a [catch] clause can receive: an [Error] object with its [name] and
    [message], or a value that is not an [Error]. *)
Inductive Thrown :=
| ErrorObj (name message : string)
| NonError.

(** The outcome of an expression that may throw. *)
Inductive Try (A : Type) :=
| Ret (a : A)
| Throw (e : Thrown).
Arguments Ret {A} a.
Arguments Throw {A} e.

(** The rejection of a [fetch] aborted by the timeout of [fetchWithTimeout]. *)
Definition AbortError : Thrown := ErrorObj "AbortError" "This operation was aborted".

Record HttpResponse := {
  resp_ok : bool;
  resp_status : Z;
  resp_statusText : string;
  resp_contentType : option string;
  resp_body : string
}.

(** What the program reads of a parsed URL. *)
Record URLRecord := { protocol : string; origin : string }.

(** What the program reads of the tree that the XML parser returns.  An entry
    is a [sitemap] or [url] element with its children of interest; a list is
    [None] when the property is absent or falsy, and a single child is
    already wrapped in a list, as [Array.isArray(x) ? x : [x]] does. *)
Record XmlEntry := {
  x_loc : option string;
  x_lastmod : option string;
  x_changefreq : option string;
  x_priority : option string
}.

Record XmlDoc := {
  sitemapindex_sitemap : option (list XmlEntry);
  urlset_url : option (list XmlEntry)
}.

Record World := {
  fetch : string -> Try HttpResponse;   (* fetchWithTimeout, headers and timeout fixed *)
  gunzip : string -> Try string;        (* decompressGzip *)
  xmlParse : string -> Try XmlDoc;      (* xmlParser.parse *)
  parseURL : string -> option URLRecord (* new URL(s); None when it throws *)
}.

(* ===================================================================== *)
(** * The monad of the tools *)
(* ===================================================================== *)

(** [visited] is the [Set<string>] that the running call shares with its
    recursive calls; [fetched] lists the URLs given to [fetch], oldest
    first. *)
Record St := { visited : gset string; fetched : list string }.

Definition M (A : Type) : Type := St -> option (A * St).

Definition ret {A} (a : A) : M A := fun st => Some (a, st).

Definition bind {A B} (m : M A) (k : A -> M B) : M B :=
  fun st => match m st with
            | Some (a, st') => k a st'
            | None => None
            end.

(** A call that never returns. *)
Definition diverge {A} : M A := fun _ => None.

Notation "'let!' x ':=' m 'in' k" := (bind m (fun x => k))
  (at level 10, x pattern, m at level 200, k at level 200, only parsing).

(** [visited.has(u)] *)
Definition visited_has (u : string) : M bool :=
  fun st => Some (bool_decide (u ∈ visited st), st).

(** [visited.add(u)] *)
Definition visited_add (u : string) : M unit :=
  fun st => Some (tt, {| visited := {[u]} ∪ visited st; fetched := fetched st |}).

(** [new Set<string>()], bound to [visited]. *)
Definition visited_new : M unit :=
  fun st => Some (tt, {| visited := ∅; fetched := fetched st |}).

(** [await fetchWithTimeout(u, ...)] *)
Definition fetchM (w : World) (u : string) : M (Try HttpResponse) :=
  fun st => Some (fetch w u, {| visited := visited st; fetched := fetched st ++ [u] |}).

Definition initial : St := {| visited := ∅; fetched := [] |}.


(** What [fetchSitemap] returns. *)
Record ParsedSitemap := {
  urls : list SitemapEntry;
  isIndex : bool;
  indexUrls : list string
}.

(** [cursorData.offset], as far as the arithmetic that follows is modelled:
    an integer, [undefined], or another value. *)
Inductive OffsetValue :=
| OffsetInt (z : Z)
| OffsetUndefined
| OffsetOther.

(** What a call returns: an envelope, or [OutsideModel] when its arithmetic
    leaves the integers. *)
Inductive Outcome (T : Type) :=
| Returned (r : Response T)
| OutsideModel.
Arguments Returned {T} r.
Arguments OutsideModel {T}.

(* ===================================================================== *)
(** * Limits *)
(* ===================================================================== *)

(** The constants of tools/list.ts. *)
Module ListLimits.
Definition DEFAULT_LIMIT : Z := 100.
Definition MAX_LIMIT : Z := 1000.
End ListLimits.

(** The constants of tools/frontier.ts. *)
Module FrontierLimits.
Definition DEFAULT_LIMIT : Z := 1000.
Definition MAX_LIMIT : Z := 10000.
Definition DEFAULT_MAX_URLS : Z := 5000.
End FrontierLimits.

(* ===================================================================== *)
(** * URL utilities (tools/utils.ts) *)
(* ===================================================================== *)

Section Tools.

Variable w : World.

Definition isValidUrl (u : string) : bool :=
  match parseURL w u with
  | Some parsed => String.eqb (protocol parsed) "http:" || String.eqb (protocol parsed) "https:"
  | None => false
  end.

(** The test of [/^https?:\/\//i]. *)
Definition hasHttpScheme (s : string) : bool :=
  Js.startsWithIgnoreCase s "http://" || Js.startsWithIgnoreCase s "https://".

Definition normalizeUrl (u : string) : option string :=
  let normalizedUrl := Js.trim u in
  let normalizedUrl :=
    if negb (hasHttpScheme normalizedUrl) then "https://" +:+ normalizedUrl else normalizedUrl in
  if negb (isValidUrl normalizedUrl) then None else Some normalizedUrl.

(** The body of a response as text, inflated first when the URL ends in
    [.gz] or the content type mentions gzip. *)
Definition readContent (u : string) (r : HttpResponse) : Try string :=
  let contentType := Js.nullish (resp_contentType r) EmptyString in
  if Js.endsWith u ".gz" || Js.includes contentType "gzip"
  then gunzip w (resp_body r)
  else Ret (resp_body r).

(* ===================================================================== *)
(** * discover_sitemaps (tools/discover.ts) *)
(* ===================================================================== *)

(** The part of [checkSitemap] that follows the fetch. *)
Definition classifyProbe (u : string) (discoveredFrom : DiscoveredFrom)
    (outcome : Try HttpResponse) : option DiscoveredSitemap :=
  match outcome with
  | Throw _ => None
  | Ret response =>
      if negb (resp_ok response) then None
      else match readContent u response with
           | Throw _ => None
           | Ret content =>
               let isSitemapIndex :=
                 Js.includes content "<sitemapindex" || Js.includes content "<sitemapindex>" in
               Some {| ds_url := u;
                       ds_type := if isSitemapIndex then sitemap_index else sitemap;
                       discovered_from := discoveredFrom |}
           end
  end.

Definition checkSitemap (u : string) (discoveredFrom : DiscoveredFrom)
    : M (option DiscoveredSitemap) :=
  let! outcome := fetchM w u in
  ret (classifyProbe u discoveredFrom outcome).

(** One line of robots.txt against [/^\s*sitemap:\s*(.+)\s*$/i], followed by
    [match[1].trim()].  After the prefix, the greedy groups leave in
    [match[1]] the rest of the line up to its trailing white space, and the
    line matches when that rest holds no line terminator; a rest of white
    space only matches (with an empty trimmed capture) when one of its
    characters is not a line terminator. *)
Definition sitemapDirective (line : string) : option string :=
  let l := Js.trimStart line in
  if Js.startsWithIgnoreCase l "sitemap:" then
    let r := Js.drop 8 l in
    let t := Js.trim r in
    match t with
    | EmptyString =>
        if Js.existsb_str (fun c => negb (Js.isLineTerminator c)) r
        then Some EmptyString else None
    | _ => if Js.existsb_str Js.isLineTerminator t then None else Some t
    end
  else None.

Fixpoint robotsSitemaps (lines : list string) : list string :=
  match lines with
  | [] => []
  | line :: rest =>
      match sitemapDirective line with
      | Some sitemapUrl =>
          if isValidUrl sitemapUrl then sitemapUrl :: robotsSitemaps rest
          else robotsSitemaps rest
      | None => robotsSitemaps rest
      end
  end.

Definition LF : ascii := "010"%char.

Definition parseSitemapsFromRobotsTxt (robotsTxtUrl : string) : M (list string * bool) :=
  let! outcome := fetchM w robotsTxtUrl in
  match outcome with
  | Throw _ => ret ([], false)
  | Ret response =>
      if negb (resp_ok response) then ret ([], false)
      else ret (robotsSitemaps (Js.splitOn LF (resp_body response)), true)
  end.

(** [entry.loc] when it is truthy. *)
Definition truthy (o : option string) : option string :=
  match o with
  | Some EmptyString => None
  | other => other
  end.

(** The loop over the entries of an index in [discoverFromSitemapIndex];
    [self] is the recursive call. *)
Fixpoint expandEntries (self : string -> M (list DiscoveredSitemap))
    (entries : list XmlEntry) (acc : list DiscoveredSitemap) : M (list DiscoveredSitemap) :=
  match entries with
  | [] => ret acc
  | entry :: rest =>
      match truthy (x_loc entry) with
      | None => expandEntries self rest acc
      | Some l =>
          let! seen := visited_has l in
          if isValidUrl l && negb seen then
            let! found := checkSitemap l from_sitemap_index in
            match found with
            | None => expandEntries self rest acc
            | Some sm =>
                if SitemapType_eqb (ds_type sm) sitemap_index then
                  let! nestedSitemaps := self l in
                  expandEntries self rest ((acc ++ [sm]) ++ nestedSitemaps)
                else expandEntries self rest (acc ++ [sm])
            end
          else expandEntries self rest acc
      end
  end.

Fixpoint discoverFromSitemapIndex (fuel : nat) (indexUrl : string)
    : M (list DiscoveredSitemap) :=
  match fuel with
  | O => diverge
  | S fuel' =>
      let! seen := visited_has indexUrl in
      if seen then ret []
      else
        let! _ := visited_add indexUrl in
        let! outcome := fetchM w indexUrl in
        match outcome with
        | Throw _ => ret []
        | Ret response =>
            if negb (resp_ok response) then ret []
            else match readContent indexUrl response with
                 | Throw _ => ret []
                 | Ret content =>
                     match xmlParse w content with
                     | Throw _ => ret []
                     | Ret parsed =>
                         match sitemapindex_sitemap parsed with
                         | None => ret []
                         | Some entries =>
                             expandEntries (discoverFromSitemapIndex fuel') entries []
                         end
                     end
                 end
        end
  end.

(** The block shared by the three probing steps of [discoverSitemaps]: probe
    the candidate, record it, mark it visited, and expand it when it is an
    index. *)
Definition probeCandidate (fuel : nat) (candidate : string) (discoveredFrom : DiscoveredFrom)
    (acc : list DiscoveredSitemap) : M (list DiscoveredSitemap) :=
  let! found := checkSitemap candidate discoveredFrom in
  match found with
  | None => ret acc
  | Some sm =>
      let! _ := visited_add candidate in
      if SitemapType_eqb (ds_type sm) sitemap_index then
        let! childSitemaps := discoverFromSitemapIndex fuel candidate in
        ret ((acc ++ [sm]) ++ childSitemaps)
      else ret (acc ++ [sm])
  end.

(** The loops over the robots.txt directives and over the alternative
    locations. *)
Fixpoint probeUnvisited (fuel : nat) (candidates : list string)
    (discoveredFrom : DiscoveredFrom) (acc : list DiscoveredSitemap)
    : M (list DiscoveredSitemap) :=
  match candidates with
  | [] => ret acc
  | candidate :: rest =>
      let! seen := visited_has candidate in
      if negb seen then
        let! acc' := probeCandidate fuel candidate discoveredFrom acc in
        probeUnvisited fuel rest discoveredFrom acc'
      else probeUnvisited fuel rest discoveredFrom acc
  end.

Definition discoverSitemaps (fuel : nat) (u : string) : M (Response DiscoverSitemapsData) :=
  if String.eqb u EmptyString then
    ret (createErrorResponse INVALID_INPUT "URL is required and must be a string")
  else
    match normalizeUrl u with
    | None =>
        ret (createErrorResponse INVALID_INPUT
               "Invalid URL format. Please provide a valid HTTP or HTTPS URL.")
    | Some normalizedUrl =>
        match parseURL w normalizedUrl with
        | None => ret (createErrorResponse UPSTREAM_ERROR "Invalid URL")
        | Some urlObj =>
            let domain := origin urlObj in
            let! _ := visited_new in
            (* 1. the standard location *)
            let! sitemaps := probeCandidate fuel (domain +:+ "/sitemap.xml") standard_location [] in
            (* 2. robots.txt *)
            let! (robotsSitemaps, robotsTxtFound) :=
                parseSitemapsFromRobotsTxt (domain +:+ "/robots.txt") in
            let! sitemaps := probeUnvisited fuel robotsSitemaps robots_txt sitemaps in
            (* 3. the alternative locations *)
            let alternativeLocations :=
              [domain +:+ "/sitemap_index.xml";
               domain +:+ "/sitemap.xml.gz";
               domain +:+ "/sitemaps/sitemap.xml"] in
            let! sitemaps := probeUnvisited fuel alternativeLocations standard_location sitemaps in
            let warnings :=
              if (length sitemaps =? 0)%nat then ["No sitemaps found for this domain"] else [] in
            ret (createSuccessResponse
                   {| domain := domain; sitemaps := sitemaps;
                      robots_txt_found := robotsTxtFound |}
                   {| arg_source := Some normalizedUrl;
                      arg_pagination := None;
                      arg_warnings := Some (Some warnings) |})
        end
    end.

(* ===================================================================== *)
(** * list_sitemap_urls (tools/list.ts) *)
(* ===================================================================== *)

(** The two loops of [parseSitemapContent]; an entry without a truthy [loc]
    is skipped. *)
Fixpoint indexEntries (entries : list XmlEntry) : list SitemapEntry :=
  match entries with
  | [] => []
  | entry :: rest =>
      match truthy (x_loc entry) with
      | Some l =>
          {| loc := l; lastmod := x_lastmod entry; changefreq := None; priority := None |}
            :: indexEntries rest
      | None => indexEntries rest
      end
  end.

Fixpoint urlEntries (entries : list XmlEntry) : list SitemapEntry :=
  match entries with
  | [] => []
  | entry :: rest =>
      match truthy (x_loc entry) with
      | Some l =>
          {| loc := l; lastmod := x_lastmod entry; changefreq := x_changefreq entry;
             priority := x_priority entry |} :: urlEntries rest
      | None => urlEntries rest
      end
  end.

Definition parseSitemapContent (content : string) : Try ParsedSitemap :=
  match xmlParse w content with
  | Throw e => Throw e
  | Ret parsed =>
      match sitemapindex_sitemap parsed with
      | Some sitemapEntries =>
          Ret {| urls := indexEntries sitemapEntries;
                 isIndex := true;
                 indexUrls := map loc (indexEntries sitemapEntries) |}
      | None =>
          match urlset_url parsed with
          | Some entries => Ret {| urls := urlEntries entries; isIndex := false; indexUrls := [] |}
          | None => Ret {| urls := []; isIndex := false; indexUrls := [] |}
          end
      end
  end.

(** The part of [fetchSitemap] that follows the fetch. *)
Definition readSitemap (u : string) (outcome : Try HttpResponse) : Try ParsedSitemap :=
  match outcome with
  | Throw e => Throw e
  | Ret response =>
      if negb (resp_ok response) then
        Throw (ErrorObj "Error"
                 ("HTTP " +:+ Js.numberToString (resp_status response) +:+ ": "
                  +:+ resp_statusText response))
      else match readContent u response with
           | Throw e => Throw e
           | Ret content => parseSitemapContent content
           end
  end.

Definition fetchSitemap (u : string) : M (Try ParsedSitemap) :=
  let! outcome := fetchM w u in
  ret (readSitemap u outcome).

(** [arr.slice(start, end)] on integers. *)
Definition slice {A} (l : list A) (start end_ : Z) : list A :=
  let len := Z.of_nat (length l) in
  let k := if start <? 0 then Z.max (len + start) 0 else Z.min start len in
  let final := if end_ <? 0 then Z.max (len + end_) 0 else Z.min end_ len in
  firstn (Z.to_nat (final - k)) (skipn (Z.to_nat k) l).

Definition offsetOf (cursorData : Json.value) : OffsetValue :=
  match Json.property "offset" cursorData with
  | None => OffsetUndefined
  | Some (Json.JNum q) =>
      if (Qden q =? 1)%positive then OffsetInt (Qnum q) else OffsetOther
  | Some _ => OffsetOther
  end.

Definition pageLimit (limit : option Z) : Z :=
  Z.min (Z.max 1 (Js.nullish limit ListLimits.DEFAULT_LIMIT)) ListLimits.MAX_LIMIT.

(** The [catch] clause of [listSitemapUrls]. *)
Definition listFailure (sitemapUrl : string) (error : Thrown) : Response ListSitemapUrlsData :=
  match error with
  | ErrorObj name message =>
      if String.eqb name "AbortError" || Js.includes message "timeout" then
        createErrorResponse TIMEOUT
          ("Request timed out while fetching sitemap: " +:+ sitemapUrl)
      else if Js.includes message "HTTP" then createErrorResponse UPSTREAM_ERROR message
      else if Js.includes message "parse" || Js.includes message "XML"
              || Js.includes message "Unexpected" then
        createErrorResponse PARSE_ERROR ("Failed to parse sitemap XML: " +:+ message)
      else createErrorResponse UPSTREAM_ERROR message
  | NonError =>
      createErrorResponse INTERNAL_ERROR
        "An unexpected error occurred while listing sitemap URLs"
  end.

(** The page of [listSitemapUrls] once the document is there.  With an
    [undefined] offset, [offset + pageLimit] is NaN: the slice is empty and
    nothing is greater than NaN.  With an offset that is no integer (a
    fraction, a string, null, ...) the program goes on with the coercions of
    [+], [slice] and [<]; these are not modelled, and the outcome is
    [OutsideModel]. *)
Definition listPage (sitemapUrl : string) (pageLimit : Z) (offset : OffsetValue)
    (parsed : ParsedSitemap) : Outcome ListSitemapUrlsData :=
  let respond (paginatedUrls : list SitemapEntry) (nextCursor : option string) :=
    Returned
      (createSuccessResponse
         {| lsu_sitemap_url := sitemapUrl;
            lsu_urls := paginatedUrls;
            total_in_page := Z.of_nat (length paginatedUrls);
            is_index := isIndex parsed |}
         {| arg_source := Some sitemapUrl;
            arg_pagination := Some {| next_cursor := nextCursor |};
            arg_warnings := None |}) in
  match offset with
  | OffsetInt offset =>
      let paginatedUrls := slice (urls parsed) offset (offset + pageLimit) in
      let hasMore := offset + pageLimit <? Z.of_nat (length (urls parsed)) in
      let nextCursor :=
        if hasMore
        then Some (encodeCursor {| offset := offset + pageLimit; sitemap_url := None |})
        else None in
      respond paginatedUrls nextCursor
  | OffsetUndefined => respond [] None
  | OffsetOther => OutsideModel
  end.

Definition listSitemapUrls (sitemapUrl : string) (limit : option Z) (cursor : option string)
    : M (Outcome ListSitemapUrlsData) :=
  if String.eqb sitemapUrl EmptyString then
    ret (Returned (createErrorResponse INVALID_INPUT
                     "sitemap_url is required and must be a string"))
  else if negb (isValidUrl sitemapUrl) then
    ret (Returned (createErrorResponse INVALID_INPUT
                     "Invalid sitemap URL format. Please provide a valid HTTP or HTTPS URL."))
  else
    let pageLimit := pageLimit limit in
    (* [if (cursor)]: null, undefined and the empty string leave the offset at 0 *)
    let decoded : option Json.value :=
      match cursor with
      | None | Some EmptyString => None
      | Some c => Some (decodeCursor c)
      end in
    let proceed (offset : OffsetValue) : M (Outcome ListSitemapUrlsData) :=
      let! fetched := fetchSitemap sitemapUrl in
      match fetched with
      | Throw error => ret (Returned (listFailure sitemapUrl error))
      | Ret parsed => ret (listPage sitemapUrl pageLimit offset parsed)
      end in
    match decoded with
    | None => proceed (OffsetInt 0)
    | Some cursorData =>
        if negb (Json.truthy cursorData) then
          ret (Returned (createErrorResponse INVALID_INPUT "Invalid cursor format"))
        else proceed (offsetOf cursorData)
    end.

(* ===================================================================== *)
(** * build_crawl_frontier (tools/frontier.ts) *)
(* ===================================================================== *)

Definition passesFilters (u : string) (rules : CrawlFrontierRules) : bool :=
  let includeOk :=
    match include rules with
    | Some ((_ :: _) as patterns) => existsb (matchesPattern u) patterns
    | _ => true
    end in
  let excludeOk :=
    match exclude rules with
    | Some ((_ :: _) as patterns) => negb (existsb (matchesPattern u) patterns)
    | _ => true
    end in
  includeOk && excludeOk.

(** The loop over the entries of a sitemap that is not an index. *)
Fixpoint collectEntries (sitemapUrl : string) (rules : CrawlFrontierRules) (maxUrls : Z)
    (entries : list SitemapEntry) (acc : list FrontierUrl) : list FrontierUrl :=
  match entries with
  | [] => acc
  | entry :: rest =>
      if Z.of_nat (length acc) >=? maxUrls then acc
      else if passesFilters (loc entry) rules then
        collectEntries sitemapUrl rules maxUrls rest
          (acc ++ [{| url := loc entry;
                      source_sitemap := sitemapUrl;
                      last_modified := lastmod entry;
                      fu_priority := priority entry |}])
      else collectEntries sitemapUrl rules maxUrls rest acc
  end.

(** The loop over the children of an index; [self] is the recursive call. *)
Fixpoint collectChildren (self : string -> Z -> M (list FrontierUrl * Z)) (maxUrls : Z)
    (children : list string) (acc : list FrontierUrl) (sitemapsProcessed : Z)
    : M (list FrontierUrl * Z) :=
  match children with
  | [] => ret (acc, sitemapsProcessed)
  | childSitemapUrl :: rest =>
      if Z.of_nat (length acc) >=? maxUrls then ret (acc, sitemapsProcessed)
      else
        let! (childUrls, childProcessed) :=
          self childSitemapUrl (maxUrls - Z.of_nat (length acc)) in
        collectChildren self maxUrls rest (acc ++ childUrls)
          (sitemapsProcessed + childProcessed)
  end.

Fixpoint collectUrlsFromSitemap (fuel : nat) (rules : CrawlFrontierRules)
    (sitemapUrl : string) (maxUrls : Z) : M (list FrontierUrl * Z) :=
  match fuel with
  | O => diverge
  | S fuel' =>
      let! seen := visited_has sitemapUrl in
      if seen then ret ([], 0)
      else
        let! _ := visited_add sitemapUrl in
        let! fetched := fetchSitemap sitemapUrl in
        match fetched with
        | Throw _ => ret ([], 0)
        | Ret parsed =>
            if isIndex parsed then
              collectChildren (collectUrlsFromSitemap fuel' rules) maxUrls
                (indexUrls parsed) [] 1
            else ret (collectEntries sitemapUrl rules maxUrls (urls parsed) [], 1)
        end
  end.

(** The loop of [buildCrawlFrontier] over the discovered sitemaps; its two
    branches, for a sitemap and for an index, are the same call. *)
Fixpoint collectAll (fuel : nat) (rules : CrawlFrontierRules) (effectiveLimit : Z)
    (discovered : list DiscoveredSitemap) (allUrls : list FrontierUrl)
    (totalSitemapsProcessed : Z) : M (list FrontierUrl * Z) :=
  match discovered with
  | [] => ret (allUrls, totalSitemapsProcessed)
  | sm :: rest =>
      if Z.of_nat (length allUrls) >=? effectiveLimit
      then ret (allUrls, totalSitemapsProcessed)
      else
        let! (found, sitemapsProcessed) :=
          collectUrlsFromSitemap fuel rules (ds_url sm)
            (effectiveLimit - Z.of_nat (length allUrls)) in
        collectAll fuel rules effectiveLimit rest (allUrls ++ found)
          (totalSitemapsProcessed + sitemapsProcessed)
  end.

(** The deduplication loop, with its [seenUrls] set. *)
Fixpoint dedupe (entries : list FrontierUrl) (seenUrls : gset string)
    (dedupedUrls : list FrontierUrl) : list FrontierUrl :=
  match entries with
  | [] => dedupedUrls
  | entry :: rest =>
      if bool_decide (url entry ∈ seenUrls) then dedupe rest seenUrls dedupedUrls
      else dedupe rest ({[url entry]} ∪ seenUrls) (dedupedUrls ++ [entry])
  end.

Definition normalizeRules (rules : option CrawlFrontierRules) : CrawlFrontierRules :=
  {| include := Some (Js.nullish (r ← rules; include r) []);
     exclude := Some (Js.nullish (r ← rules; exclude r) []);
     max_urls := Some (Z.min (Js.nullish (r ← rules; max_urls r)
                                FrontierLimits.DEFAULT_MAX_URLS)
                         FrontierLimits.MAX_LIMIT) |}.

(** [pattern.length === 0] for some pattern of the list. *)
Definition hasEmptyPattern (patterns : option (list string)) : bool :=
  match patterns with
  | Some l => existsb (fun pattern => (String.length pattern =? 0)%nat) l
  | None => false
  end.

Definition effectiveLimitOf (normalizedRules : CrawlFrontierRules) (limit : option Z) : Z :=
  Z.min
    (Js.nullish limit (Js.nullish (max_urls normalizedRules) FrontierLimits.DEFAULT_LIMIT))
    (Js.nullish (max_urls normalizedRules) FrontierLimits.MAX_LIMIT).

Definition truncationWarning (effectiveLimit : Z) (total : nat) : string :=
  "Result truncated to " +:+ Js.numberToString effectiveLimit +:+ " URLs. Total available: "
  +:+ Js.numberToString (Z.of_nat total).

(** What follows the traversal: deduplication, the final limit, the warning
    and the envelope. *)
Definition finishFrontier (normalizedSeedUrl : string) (normalizedRules : CrawlFrontierRules)
    (effectiveLimit : Z) (warnings : list string) (allUrls : list FrontierUrl)
    (totalSitemapsProcessed : Z) : Response BuildCrawlFrontierData :=
  let dedupedUrls := dedupe allUrls ∅ [] in
  let finalUrls := slice dedupedUrls 0 effectiveLimit in
  let warnings :=
    if Z.of_nat (length dedupedUrls) >? effectiveLimit
    then warnings ++ [truncationWarning effectiveLimit (length dedupedUrls)]
    else warnings in
  createSuccessResponse
    {| seed_url := normalizedSeedUrl;
       frontier := finalUrls;
       total_urls := Z.of_nat (length finalUrls);
       sitemaps_processed := totalSitemapsProcessed;
       rules_applied := normalizedRules |}
    {| arg_source := Some normalizedSeedUrl;
       arg_pagination := None;
       arg_warnings := Some (match warnings with [] => None | _ => Some warnings end) |}.

Definition buildCrawlFrontier (fuel : nat) (seedUrl : string)
    (rules : option CrawlFrontierRules) (limit : option Z)
    : M (Response BuildCrawlFrontierData) :=
  if String.eqb seedUrl EmptyString then
    ret (createErrorResponse INVALID_INPUT "seed_url is required and must be a string")
  else
    match normalizeUrl seedUrl with
    | None =>
        ret (createErrorResponse INVALID_INPUT
               "Invalid seed URL format. Please provide a valid HTTP or HTTPS URL.")
    | Some normalizedSeedUrl =>
        let normalizedRules := normalizeRules rules in
        if hasEmptyPattern (include normalizedRules) then
          ret (createErrorResponse INVALID_INPUT "Include patterns must be non-empty strings")
        else if hasEmptyPattern (exclude normalizedRules) then
          ret (createErrorResponse INVALID_INPUT "Exclude patterns must be non-empty strings")
        else
          let effectiveLimit := effectiveLimitOf normalizedRules limit in
          let! discoverResult := discoverSitemaps fuel normalizedSeedUrl in
          match discoverResult with
          | Failure code message => ret (Failure code message)
          | Success data meta =>
              let warnings := Js.nullish (warnings meta) [] in
              match sitemaps data with
              | [] =>
                  ret (createSuccessResponse
                         {| seed_url := normalizedSeedUrl;
                            frontier := [];
                            total_urls := 0;
                            sitemaps_processed := 0;
                            rules_applied := normalizedRules |}
                         {| arg_source := Some normalizedSeedUrl;
                            arg_pagination := None;
                            arg_warnings :=
                              Some (Some ["No sitemaps found for this domain. Frontier is empty."])
                         |})
              | discovered =>
                  let! _ := visited_new in
                  let! (allUrls, totalSitemapsProcessed) :=
                    collectAll fuel normalizedRules effectiveLimit discovered [] 0 in
                  ret (finishFrontier normalizedSeedUrl normalizedRules effectiveLimit
                         warnings allUrls totalSitemapsProcessed)
              end
          end
    end.

End Tools.

(* ===================================================================== *)
(** * Small worlds *)
(* ===================================================================== *)

(** Concrete collaborators, on which the tools are run. *)
Module Fixtures.

Fixpoint untilSlash (s : string) : string :=
  match s with
  | EmptyString => EmptyString
  | String c r => if Ascii.eqb c "/" then EmptyString else String c (untilSlash r)
  end.

(** A URL parser for the two schemes of interest: the host is what stands
    between the scheme and the first slash, and must not be empty. *)
Definition parseHttpUrl (s : string) : option URLRecord :=
  let withScheme (scheme : string) (n : nat) :=
    match untilSlash (Js.drop n s) with
    | EmptyString => None
    | host => Some {| protocol := scheme; origin := scheme +:+ "//" +:+ host |}
    end in
  if Js.startsWith s "https://" then withScheme "https:" 8%nat
  else if Js.startsWith s "http://" then withScheme "http:" 7%nat
  else None.

Definition entryAt (l : string) : XmlEntry :=
  {| x_loc := Some l; x_lastmod := None; x_changefreq := None; x_priority := None |}.

Definition SP : ascii := " "%char.

(** A parser for documents written as a tag followed by locations that
    spaces separate; any other text is a tree with neither container. *)
Definition parseTagged (content : string) : Try XmlDoc :=
  if Js.startsWith content "<sitemapindex>" then
    Ret {| sitemapindex_sitemap := Some (map entryAt (Js.splitOn SP (Js.drop 14 content)));
           urlset_url := None |}
  else if Js.startsWith content "<urlset>" then
    Ret {| sitemapindex_sitemap := None;
           urlset_url := Some (map entryAt (Js.splitOn SP (Js.drop 8 content))) |}
  else Ret {| sitemapindex_sitemap := None; urlset_url := None |}.

Definition ok200 (body : string) : Try HttpResponse :=
  Ret {| resp_ok := true; resp_status := 200; resp_statusText := "OK";
         resp_contentType := Some "application/xml"; resp_body := body |}.

Definition notFound : Try HttpResponse :=
  Ret {| resp_ok := false; resp_status := 404; resp_statusText := "Not Found";
         resp_contentType := None; resp_body := EmptyString |}.

Definition notGzip (_ : string) : Try string :=
  Throw (ErrorObj "Error" "incorrect header check").

(** A site that serves the pages of a table and answers 404 elsewhere. *)
Fixpoint serve (pages : list (string * string)) (u : string) : Try HttpResponse :=
  match pages with
  | [] => notFound
  | (address, body) :: rest => if String.eqb address u then ok200 body else serve rest u
  end.

Definition site (pages : list (string * string)) : World :=
  {| fetch := serve pages; gunzip := notGzip; xmlParse := parseTagged;
     parseURL := parseHttpUrl |}.

(** Every request runs into the timeout. *)
Definition unreachable : World :=
  {| fetch := fun _ => Throw AbortError; gunzip := notGzip; xmlParse := parseTagged;
     parseURL := parseHttpUrl |}.

Definition A : string := "https://example.com/sitemap.xml".
Definition B : string := "https://example.com/b.xml".

(** Two indexes that reference each other. *)
Definition cycle : World :=
  site [(A, "<sitemapindex>" +:+ B); (B, "<sitemapindex>" +:+ A)].

(** An index at the standard location with one sitemap of three pages, one
    of them listed twice. *)
Definition P1 : string := "https://example.com/p1".
Definition P2 : string := "https://example.com/blog/p2".
Definition smallSite : World :=
  site [(A, "<sitemapindex>" +:+ B);
        (B, "<urlset>" +:+ P1 +:+ " " +:+ P2 +:+ " " +:+ P1)].

(** A sitemap of [n] entries, whatever the body says. *)
Definition numbered (n : nat) : list XmlEntry :=
  map (fun i => entryAt ("https://example.com/page/" +:+ Js.numberToString (Z.of_nat i)))
      (seq 0 n).

Definition bigSitemap (n : nat) : World :=
  {| fetch := fun _ => ok200 "<urlset/>";
     gunzip := notGzip;
     xmlParse := fun _ => Ret {| sitemapindex_sitemap := None;
                                 urlset_url := Some (numbered n) |};
     parseURL := parseHttpUrl |}.


(** What [fetchSitemap] reads from that world, for any [n]. *)
Definition parsedNumbered (n : nat) : ParsedSitemap :=
  {| urls := urlEntries (numbered n); isIndex := false; indexUrls := [] |}.

(** A sitemap served as plain text at an address that ends in [.gz]. *)
Definition GZ : string := "https://example.com/sitemap.xml.gz".
Definition plainAtGz : World := site [(GZ, "<urlset>" +:+ P1)].

(** A page that is not XML, and a parser that rejects it. *)
Definition notXml : World :=
  {| fetch := fun _ => ok200 "<html><body>see <sitemapindex for details</body></html>";
     gunzip := notGzip;
     xmlParse := fun _ => Throw (ErrorObj "Error" "Unexpected end of input");
     parseURL := parseHttpUrl |}.

End Fixtures.
(* ===================================================================== *)
(** * parseInt *)
(* ===================================================================== *)

Module JsGlobal.

(** The value of the decimal digits that start [s], read after the digits
    of [acc]; [None] when no digit was read. *)
Fixpoint digitRun (s : string) (acc : option Z) : option Z :=
  match s with
  | EmptyString => acc
  | String c r =>
      match Json.digitValue c with
      | Some d => digitRun r (Some (10 * Js.nullish acc 0 + d))
      | None => acc
      end
  end.

(** [parseInt(s, 10)]: leading white space is skipped, one sign is read, and
    the digits that follow are the value; [None] is NaN.  The white space is
    that of ASCII, and the value is the one that JavaScript returns when a
    double holds it exactly. *)
Definition parseInt (s : string) : option Z :=
  match Js.trimStart s with
  | String c r =>
      if Ascii.eqb c "-" then option_map Z.opp (digitRun r None)
      else if Ascii.eqb c "+" then digitRun r None
      else digitRun (String c r) None
  | EmptyString => None
  end.

End JsGlobal.

(* ===================================================================== *)
(** * Configuration (config.ts) *)
(* ===================================================================== *)

Module Config.

Record Config := {
  port : Z;
  requestTimeout : Z;
  maxConcurrentRequests : Z;
  userAgent : string
}.

(** The variables of [process.env] that the program reads. *)
Record Env := {
  PORT : option string;
  REQUEST_TIMEOUT : option string;
  MAX_CONCURRENT_REQUESTS : option string;
  USER_AGENT : option string
}.

Definition defaults : Config :=
  {| port := 8080;
     requestTimeout := 30000;
     maxConcurrentRequests := 5;
     userAgent := "sitemap-scout/1.0 (MCP Server; +https://github.com/dedalus/sitemap-scout)" |}.

Definition parseIntOrDefault (value : option string) (defaultValue : Z) : Z :=
  match value with
  | None | Some EmptyString => defaultValue
  | Some v =>
      match JsGlobal.parseInt v with
      | None => defaultValue
      | Some parsed => parsed
      end
  end.

Definition loadConfig (env : Env) : Config :=
  {| port := parseIntOrDefault (PORT env) (port defaults);
     requestTimeout := parseIntOrDefault (REQUEST_TIMEOUT env) (requestTimeout defaults);
     maxConcurrentRequests :=
       parseIntOrDefault (MAX_CONCURRENT_REQUESTS env) (maxConcurrentRequests defaults);
     userAgent := match USER_AGENT env with
                  | None | Some EmptyString => userAgent defaults
                  | Some agent => agent
                  end |}.

(** [getConfig] with the module variable [configInstance] passed in and
    out. *)
Definition getConfig (env : Env) (configInstance : option Config) : Config * option Config :=
  match configInstance with
  | Some config => (config, configInstance)
  | None => let config := loadConfig env in (config, Some config)
  end.

Definition resetConfig (_ : option Config) : option Config := None.

End Config.

(* ===================================================================== *)
(** * Command-line arguments (cli.ts) *)
(* ===================================================================== *)

Module Cli.

Record CliArgs := { stdio : bool; port : option Z; help : bool }.

(** The loop of [parseArgs] from the argument at hand; [--port] takes the
    argument that follows it, whatever it is. *)
Fixpoint parseArgsFrom (args : list string) (result : CliArgs) : CliArgs :=
  match args with
  | [] => result
  | arg :: rest =>
      if String.eqb arg "--stdio" || String.eqb arg "-s" then
        parseArgsFrom rest {| stdio := true; port := port result; help := help result |}
      else if String.eqb arg "--port" || String.eqb arg "-p" then
        match rest with
        | [] => result
        | portArg :: rest' =>
            parseArgsFrom rest'
              (if String.eqb portArg EmptyString then result
               else match JsGlobal.parseInt portArg with
                    | Some n =>
                        if (0 <? n) && (n <? 65536)
                        then {| stdio := stdio result; port := Some n; help := help result |}
                        else result
                    | None => result
                    end)
        end
      else if String.eqb arg "--help" || String.eqb arg "-h" then
        parseArgsFrom rest {| stdio := stdio result; port := port result; help := true |}
      else parseArgsFrom rest result
  end.

Definition parseArgs (args : list string) : CliArgs :=
  parseArgsFrom args {| stdio := false; port := None; help := false |}.

End Cli.

(* ===================================================================== *)
(** * The tool call handler (server.ts) *)
(* ===================================================================== *)

Module Server.

(** The properties that the handler reads of [request.params.arguments];
    [None] is a property that is absent. *)
Record ToolArguments := {
  url : option string;
  sitemap_url : option string;
  limit : option Z;
  cursor : option string;
  seed_url : option string;
  rules : option CrawlFrontierRules
}.

(** The envelope that the handler serializes into the text of its answer,
    with the tool that made it. *)
Inductive ToolResult :=
| DiscoverResult (result : Response DiscoverSitemapsData)
| ListResult (result : Outcome ListSitemapUrlsData)
| FrontierResult (result : Response BuildCrawlFrontierData)
| UnknownTool (result : Response unit).

(** The handler of [CallToolRequestSchema].  [args?.url] is [undefined] when
    there are no arguments or no such property; each tool answers an
    [undefined] URL as it answers the empty string, at its first test. *)
Definition callTool (w : World) (fuel : nat) (name : string) (args : option ToolArguments)
    : M ToolResult :=
  let arg {A} (property : ToolArguments -> option A) : option A :=
    match args with
    | Some a => property a
    | None => None
    end in
  if String.eqb name "discover_sitemaps" then
    let! result := discoverSitemaps w fuel (Js.nullish (arg url) EmptyString) in
    ret (DiscoverResult result)
  else if String.eqb name "list_sitemap_urls" then
    let! result :=
      listSitemapUrls w (Js.nullish (arg sitemap_url) EmptyString) (arg limit) (arg cursor) in
    ret (ListResult result)
  else if String.eqb name "build_crawl_frontier" then
    let! result :=
      buildCrawlFrontier w fuel (Js.nullish (arg seed_url) EmptyString) (arg rules)
        (arg limit) in
    ret (FrontierResult result)
  else
    ret (UnknownTool (Failure INVALID_INPUT ("Unknown tool: " +:+ name))).

End Server.

(* ===================================================================== *)
(** * The vocabulary of the properties *)
(* ===================================================================== *)

(** The state after one more fetch. *)
Definition logged (st : St) (u : string) : St :=
  {| visited := visited st; fetched := fetched st ++ [u] |}.

(** The index URLs that the document at [u] lists, when it can be fetched
    and parsed. *)
Definition indexChildren (w : World) (u : string) : list string :=
  match readSitemap w u (fetch w u) with
  | Ret parsed => indexUrls parsed
  | Throw _ => []
  end.

(** The sitemap indexes of the world reference URLs of the finite set [U]
    only. *)
Definition closed (w : World) (U : gset string) : Prop :=
  forall u c, In c (indexChildren w u) -> c ∈ U.

(** From [st] to [st'] the URLs of [new] were fetched, once each, none of
    them visited before, and all of them visited since. *)
Definition Extends (st st' : St) (new : list string) : Prop :=
  fetched st' = fetched st ++ new
  /\ visited st' = list_to_set new ∪ visited st
  /\ NoDup new
  /\ (forall x, x ∈ new -> x ∉ visited st).

(** The call ends in an INVALID_INPUT envelope. *)
Definition rejectsInput {T} (r : option (Outcome T * St)) : Prop :=
  exists message st', r = Some (Returned (Failure INVALID_INPUT message), st').

(** What makes [listSitemapUrls] reject its input: the URL, or a cursor that
    decodes to a falsy value. *)
Definition badListInput (w : World) (sitemapUrl : string) (cursor : option string) : Prop :=
  sitemapUrl = EmptyString
  \/ isValidUrl w sitemapUrl = false
  \/ exists c, cursor = Some c /\ c <> EmptyString /\ Json.truthy (decodeCursor c) = false.

(** The cursor of a call stands for the offset [o]: there is no cursor (or
    an empty one) and [o] is 0, or the cursor decodes to a truthy value whose
    [offset] is the integer [o]. *)
Definition cursorAt (cursor : option string) (o : Z) : Prop :=
  (cursor = None /\ o = 0)
  \/ (cursor = Some EmptyString /\ o = 0)
  \/ (exists c, cursor = Some c /\ c <> EmptyString
                /\ Json.truthy (decodeCursor c) = true
                /\ offsetOf (decodeCursor c) = OffsetInt o).

(** The entries, the count and the next cursor of a page. *)
Definition pageOf (r : option (Outcome ListSitemapUrlsData * St))
    : option (list SitemapEntry * Z * option string) :=
  match r with
  | Some (Returned (Success data meta), _) =>
      Some (lsu_urls data, total_in_page data,
            match pagination meta with
            | Some p => next_cursor p
            | None => None
            end)
  | _ => None
  end.

(** A cursor that [listSitemapUrls] accepts. *)
Definition cursorAccepted (cursor : option string) : Prop :=
  cursor = None \/ cursor = Some EmptyString
  \/ exists c, cursor = Some c /\ Json.truthy (decodeCursor c) = true.


(** What may follow a number for the number to end there. *)
Definition endsNumber (rest : string) : Prop :=
  match rest with
  | EmptyString => True
  | String c _ =>
      Json.digitValue c = None /\ Ascii.eqb c "." = false /\ Ascii.eqb c "e" = false
      /\ Ascii.eqb c "E" = false
  end.


(** The pattern has no question mark. *)
Definition questionFree (pattern : string) : bool :=
  negb (Js.existsb_str (fun c => Ascii.eqb c "?") pattern).

(** The URL has no line terminator. *)
Definition singleLine (u : string) : bool :=
  negb (Js.existsb_str Js.isLineTerminator u).

(** The terms that the characters of a glob stand for. *)
Fixpoint globItems (pattern : string) : list RegExp.item :=
  match pattern with
  | EmptyString => []
  | String c p =>
      (if Ascii.eqb c "*" then RegExp.Term RegExp.AnyChar RegExp.Star
       else RegExp.Term (RegExp.Char c) RegExp.One) :: globItems p
  end.

(** No token of the list is outside the grammar of the model. *)
Fixpoint inGrammar (ts : list RegExp.token) : bool :=
  match ts with
  | [] => true
  | RegExp.TOther _ :: _ => false
  | _ :: r => inGrammar r
  end.

(** No digit follows: a numeral that stands before [rest] ends there. *)
Definition noDigitAhead (rest : string) : Prop :=
  match rest with
  | EmptyString => True
  | String c _ => Json.digitValue c = None
  end.

(** The pattern has no star. *)
Definition starFree (pattern : string) : bool :=
  negb (Js.existsb_str (fun c => Ascii.eqb c "*") pattern).

(** [p] and [s] are the same string up to the case of ASCII letters. *)
Fixpoint equalsIgnoreCase (p s : string) : bool :=
  match p, s with
  | EmptyString, EmptyString => true
  | String c p', String d s' => Js.eqbIgnoreCase c d && equalsIgnoreCase p' s'
  | _, _ => false
  end.

(** [s] holds [p] somewhere, up to the case of ASCII letters. *)
Fixpoint includesIgnoreCase (s p : string) : bool :=
  Js.startsWithIgnoreCase s p ||
  match s with
  | EmptyString => false
  | String _ s' => includesIgnoreCase s' p
  end.

(** A client that asks for the first page and then follows [next_cursor]
    until there is none; it returns the pages in the order received. *)
Fixpoint allPages (w : World) (fuel : nat) (sitemapUrl : string) (limit : option Z)
    (cursor : option string) (st : St) : option (list (list SitemapEntry)) :=
  match fuel with
  | O => None
  | S fuel' =>
      match listSitemapUrls w sitemapUrl limit cursor st with
      | Some (Returned (Success data meta), st') =>
          match pagination meta with
          | Some {| next_cursor := Some next |} =>
              match allPages w fuel' sitemapUrl limit (Some next) st' with
              | Some pages => Some (lsu_urls data :: pages)
              | None => None
              end
          | _ => Some [lsu_urls data]
          end
      | _ => None
      end
  end.

(** The locations of the entries that have one, in document order. *)
Definition locations (entries : list XmlEntry) : list string :=
  omap (fun entry => truthy (x_loc entry)) entries.

(** The string holds white space only. *)
Definition blank (s : string) : bool :=
  negb (Js.existsb_str (fun c => negb (Js.isWhiteSpace c)) s).

(** Whether robots.txt answers with a successful status, and the sitemap
    URLs that it then lists. *)
Definition robotsAnswers (w : World) (robotsTxtUrl : string) : bool :=
  match fetch w robotsTxtUrl with
  | Ret response => resp_ok response
  | Throw _ => false
  end.

Definition robotsDirectives (w : World) (robotsTxtUrl : string) : list string :=
  match fetch w robotsTxtUrl with
  | Ret response =>
      if resp_ok response then robotsSitemaps w (Js.splitOn LF (resp_body response)) else []
  | Throw _ => []
  end.

(** The three other places where [discoverSitemaps] looks. *)
Definition alternativePlaces (domain : string) : list string :=
  [domain +:+ "/sitemap_index.xml"; domain +:+ "/sitemap.xml.gz";
   domain +:+ "/sitemaps/sitemap.xml"].

(** The sitemaps found so far are the URLs marked as visited, each once. *)
Definition Recorded (st : St) (found : list DiscoveredSitemap) : Prop :=
  visited st = list_to_set (map ds_url found) /\ NoDup (map ds_url found).

(** A sitemap that the expansion of an index may report when the URLs of
    [seen] are marked: found in an index, at a valid URL that is not marked. *)
Definition NewChild (w : World) (seen : gset string) (sm : DiscoveredSitemap) : Prop :=
  discovered_from sm = from_sitemap_index
  /\ isValidUrl w (ds_url sm) = true
  /\ ds_url sm ∉ seen.

(** An entry that the traversal may return under [rules] when it has
    requested the sitemaps of [requested]: its URL passes the filters, and
    the sitemap it is attributed to was requested. *)
Definition Collected (rules : CrawlFrontierRules) (requested : list string)
    (x : FrontierUrl) : Prop :=
  passesFilters (url x) rules = true /\ In (source_sitemap x) requested.

(** What a call of the traversal leaves: the URLs that it requested, the
    entries that it returns, and its count of processed sitemaps. *)
Definition Traced (rules : CrawlFrontierRules) (maxUrls : Z) (st st' : St)
    (found : list FrontierUrl) (k : Z) : Prop :=
  exists new,
    fetched st' = fetched st ++ new
    /\ Forall (Collected rules new) found
    /\ Z.of_nat (length found) <= Z.max 0 maxUrls
    /\ 0 <= k <= Z.of_nat (length new).

(** The text holds ASCII characters only.  On such text the white space of
    [trim] and of [\s], the letter case of the [i] flag and the line
    terminators that the dot excludes are those of [Js]. *)
Definition asciiText (s : string) : bool :=
  negb (Js.existsb_str (fun c => (128 <=? N_of_ascii c)%N) s).

(** [Number.isSafeInteger]: an integer that a double holds exactly, so that
    reading its numeral and writing it again lose nothing. *)
Definition safeInteger (z : Z) : Prop := - 2 ^ 53 < z < 2 ^ 53.


(** The offset that the cursor of a call carries is an integer or is
    absent: there is no cursor (or an empty one), or the value that the
    cursor decodes to has an [offset] that is an integer, or has none.  The
    other cursors that [listSitemapUrls] accepts (an offset that is a
    fraction, a string, null, ...) are outside the model. *)
Definition integerOffset (cursor : option string) : Prop :=
  match cursor with
  | None | Some EmptyString => True
  | Some c => offsetOf (decodeCursor c) <> OffsetOther
  end.
(* ===================================================================== *)
(** * Facts: base64url *)
(* ===================================================================== *)

Module Base64urlFacts.
Import Base64url.

Lemma unbase64_encodeSextet (n : N) : (n < 64)%N -> unbase64 (encodeSextet n) = Some n.
Proof.
  intros H.
  assert (Hall : forallb (fun k => match unbase64 (encodeSextet k) with
                                   | Some m => N.eqb m k
                                   | None => false
                                   end) (map N.of_nat (seq 0 64)) = true) by (vm_compute; reflexivity).
  rewrite forallb_forall in Hall.
  specialize (Hall n).
  assert (Hin : In n (map N.of_nat (seq 0 64))).
  { apply in_map_iff. exists (N.to_nat n). split; [lia|]. apply in_seq. lia. }
  specialize (Hall Hin).
  destruct (unbase64 (encodeSextet n)); [|discriminate].
  apply N.eqb_eq in Hall. congruence.
Qed.

Lemma encodeSextet_not_pad (n : N) : (n < 64)%N -> Ascii.eqb (encodeSextet n) "="%char = false.
Proof.
  intros H.
  assert (Hall : forallb (fun k => negb (Ascii.eqb (encodeSextet k) "="%char))
                   (map N.of_nat (seq 0 64)) = true) by (vm_compute; reflexivity).
  rewrite forallb_forall in Hall.
  specialize (Hall n).
  assert (Hin : In n (map N.of_nat (seq 0 64))).
  { apply in_map_iff. exists (N.to_nat n). split; [lia|]. apply in_seq. lia. }
  specialize (Hall Hin). now apply negb_true_iff in Hall.
Qed.

Lemma sextetsOfText_encode (l : list N) :
  Forall (fun n => (n < 64)%N) l ->
  sextetsOfText (string_of_list_ascii (map encodeSextet l)) = l.
Proof.
  induction 1 as [|n l Hn _ IH]; [reflexivity|].
  cbn [map string_of_list_ascii sextetsOfText].
  rewrite encodeSextet_not_pad, unbase64_encodeSextet, IH by assumption.
  reflexivity.
Qed.

Ltac euclid := cbv beta; zify; Z.to_euclidean_division_equations; lia.

Ltac bounded_sextets :=
  repeat match goal with
         | |- Forall _ (_ :: _) => constructor; [euclid|]
         | |- Forall _ [] => constructor
         end.

Lemma sextetsOfBytes_bounded (s : string) : Forall (fun n => (n < 64)%N) (sextetsOfBytes s).
Proof.
  remember (String.length s) as k eqn:Hk.
  revert s Hk. induction k as [k IH] using lt_wf_ind. intros s Hk.
  destruct s as [|a [|b [|c r]]]; cbn [sextetsOfBytes app].
  - constructor.
  - pose proof (N_ascii_bounded a).
    bounded_sextets.
  - pose proof (N_ascii_bounded a). pose proof (N_ascii_bounded b).
    bounded_sextets.
  - pose proof (N_ascii_bounded a). pose proof (N_ascii_bounded b).
    pose proof (N_ascii_bounded c).
    bounded_sextets.
    apply (IH (String.length r)); [subst k; cbn; lia | reflexivity].
Qed.

Lemma ascii_of_N_eq (n : N) (a : ascii) : n = N_of_ascii a -> ascii_of_N n = a.
Proof. intros ->. apply ascii_N_embedding. Qed.

Lemma String_eq (c c' : ascii) (s s' : string) : c = c' -> s = s' -> String c s = String c' s'.
Proof. congruence. Qed.

Lemma bytesOfSextets_sextetsOfBytes (s : string) : bytesOfSextets (sextetsOfBytes s) = s.
Proof.
  remember (String.length s) as k eqn:Hk.
  revert s Hk. induction k as [k IH] using lt_wf_ind. intros s Hk.
  destruct s as [|a [|b [|c r]]]; cbn [sextetsOfBytes bytesOfSextets app].
  - reflexivity.
  - pose proof (N_ascii_bounded a).
    apply String_eq; [apply ascii_of_N_eq; euclid | reflexivity].
  - pose proof (N_ascii_bounded a). pose proof (N_ascii_bounded b).
    repeat (apply String_eq; [apply ascii_of_N_eq; euclid|]). reflexivity.
  - pose proof (N_ascii_bounded a). pose proof (N_ascii_bounded b).
    pose proof (N_ascii_bounded c).
    repeat (apply String_eq; [apply ascii_of_N_eq; euclid|]).
    apply (IH (String.length r)); [subst k; cbn; lia | reflexivity].
Qed.

(** Decoding undoes encoding, for every string of bytes. *)
Lemma decode_encode (s : string) : decode (encode s) = s.
Proof.
  unfold decode, encode.
  rewrite sextetsOfText_encode by apply sextetsOfBytes_bounded.
  apply bytesOfSextets_sextetsOfBytes.
Qed.

End Base64urlFacts.

(* ===================================================================== *)
(** * Facts: JSON *)
(* ===================================================================== *)

Module JsonFacts.
Import Js Json.

Lemma digitValue_digitChar (d : Z) : 0 <= d < 10 -> digitValue (digitChar d) = Some d.
Proof.
  intros H.
  assert (Hd : d = 0 \/ d = 1 \/ d = 2 \/ d = 3 \/ d = 4 \/ d = 5 \/ d = 6 \/ d = 7
               \/ d = 8 \/ d = 9) by lia.
  repeat (destruct Hd as [-> | Hd]; [reflexivity|]). subst d. reflexivity.
Qed.

Lemma digitChar_not_zero (d : Z) : 0 < d < 10 -> Ascii.eqb (digitChar d) "0" = false.
Proof.
  intros H.
  assert (Hd : d = 1 \/ d = 2 \/ d = 3 \/ d = 4 \/ d = 5 \/ d = 6 \/ d = 7
               \/ d = 8 \/ d = 9) by lia.
  repeat (destruct Hd as [-> | Hd]; [reflexivity|]). subst d. reflexivity.
Qed.

Lemma digitsAcc_app (f : nat) (n : Z) (acc rest : string) :
  digitsAcc f n acc +:+ rest = digitsAcc f n (acc +:+ rest).
Proof.
  revert n acc. induction f as [|f IH]; intros n acc; cbn [digitsAcc]; [reflexivity|].
  destruct (n <? 10); [reflexivity|]. apply IH.
Qed.

Lemma half_bound (f : nat) (n : Z) :
  0 <= n < 2 ^ (Z.of_nat (S f) + 1) -> 0 <= n / 10 < 2 ^ (Z.of_nat f + 1).
Proof.
  intros [H0 H1]. split; [apply Z.div_pos; lia|].
  replace (Z.of_nat (S f) + 1) with (Z.succ (Z.of_nat f + 1)) in H1 by lia.
  rewrite Z.pow_succ_r in H1 by lia.
  apply Z.div_lt_upper_bound; lia.
Qed.

(** Reading back the digits that [digitsAcc] wrote gives the number. *)
Lemma scanDigits_digitsAcc (f : nat) (n : Z) (acc : string) (cnt : nat) :
  0 <= n < 2 ^ (Z.of_nat f + 1) ->
  exists cnt', scanDigits (digitsAcc f n acc) 0 cnt = scanDigits acc n cnt'.
Proof.
  revert n acc cnt. induction f as [|f IH]; intros n acc cnt Hn.
  - cbn [digitsAcc]. change (2 ^ (Z.of_nat 0 + 1)) with 2 in Hn.
    rewrite Z.mod_small by lia. cbn [scanDigits].
    rewrite digitValue_digitChar by lia. exists (S cnt). f_equal.
  - cbn [digitsAcc]. destruct (Z.ltb_spec n 10) as [Hlt | Hge].
    + rewrite Z.mod_small by lia. cbn [scanDigits].
      rewrite digitValue_digitChar by lia. exists (S cnt). f_equal.
    + destruct (IH (n / 10) (String (digitChar (n mod 10)) acc) cnt (half_bound _ _ Hn))
        as [cnt' ->].
      cbn [scanDigits]. rewrite digitValue_digitChar by (apply Z.mod_pos_bound; lia).
      exists (S cnt'). f_equal. pose proof (Z.div_mod n 10). lia.
Qed.

(** The numeral of a positive number starts with a digit that is not zero. *)
Lemma digitsAcc_head (f : nat) (n : Z) (acc : string) :
  0 < n < 2 ^ (Z.of_nat f + 1) ->
  exists c r, digitsAcc f n acc = String c r /\ Ascii.eqb c "0" = false
              /\ Ascii.eqb c "-" = false /\ exists d, digitValue c = Some d.
Proof.
  revert n acc. induction f as [|f IH]; intros n acc Hn.
  - cbn [digitsAcc]. change (2 ^ (Z.of_nat 0 + 1)) with 2 in Hn.
    assert (n = 1) as -> by lia. do 2 eexists. repeat split; eauto.
  - cbn [digitsAcc]. destruct (Z.ltb_spec n 10) as [Hlt | Hge].
    + rewrite Z.mod_small by lia. do 2 eexists. split; [reflexivity|].
      split; [apply digitChar_not_zero; lia|].
      split; [|exists n; apply digitValue_digitChar; lia].
      assert (Hd : n = 1 \/ n = 2 \/ n = 3 \/ n = 4 \/ n = 5 \/ n = 6 \/ n = 7
                   \/ n = 8 \/ n = 9) by lia.
      repeat (destruct Hd as [-> | Hd]; [reflexivity|]). subst n. reflexivity.
    + apply IH. pose proof (half_bound f n ltac:(lia)).
      assert (1 <= n / 10) by (apply Z.div_le_lower_bound; lia). lia.
Qed.

Lemma log2_bound (n : Z) : 0 <= n -> 0 <= n < 2 ^ (Z.of_nat (Z.to_nat (Z.log2 n)) + 1).
Proof.
  intros H. rewrite Z2Nat.id by apply Z.log2_nonneg.
  destruct (Z.eq_dec n 0) as [-> | Hne]; [cbn; lia|].
  pose proof (Z.log2_spec n ltac:(lia)) as [_ Hs].
  replace (Z.log2 n + 1) with (Z.succ (Z.log2 n)) by lia. lia.
Qed.

Lemma scanDigits_stop (rest : string) (n : Z) (cnt : nat) :
  endsNumber rest -> scanDigits rest n cnt = (n, cnt, rest).
Proof.
  destruct rest as [|c r]; [reflexivity|]. intros (Hd & _).
  cbn [scanDigits]. now rewrite Hd.
Qed.

Lemma Qred_integer (z : Z) : Qred (z # 1) = z # 1.
Proof.
  unfold Qred.
  pose proof (Z.ggcd_gcd z 1) as Hg. pose proof (Z.ggcd_correct_divisors z 1) as Hd.
  destruct (Z.ggcd z 1) as [g [aa bb]]. cbn [fst snd] in *.
  rewrite Z.gcd_1_r in Hg. subst g. destruct Hd as [Ha Hb].
  assert (Hz : z = aa) by lia. assert (Hone : bb = 1) by lia.
  rewrite Hz, Hone. reflexivity.
Qed.

Lemma decimal_integer (negative : bool) (n : Z) :
  decimal negative n 0 O 0 = inject_Z (if negative then - n else n).
Proof.
  unfold decimal, inject_Z.
  change (Z.to_pos (10 ^ Z.of_nat 0 * 10 ^ Z.max (- 0) 0)) with 1%positive.
  change (10 ^ Z.max 0 0) with 1. change (10 ^ Z.of_nat 0) with 1.
  assert (E : (if negative then - (n * 1 + 0) else n * 1 + 0) * 1
              = if negative then - n else n) by (destruct negative; lia).
  rewrite E. apply Qred_integer.
Qed.

Lemma parseFrac_none (rest : string) : endsNumber rest -> parseFrac rest = Some (0, O, rest).
Proof.
  destruct rest as [|c r]; [reflexivity|]. intros (_ & H & _).
  unfold parseFrac. now rewrite H.
Qed.

Lemma parseExp_none (rest : string) : endsNumber rest -> parseExp rest = Some (0, rest).
Proof.
  destruct rest as [|c r]; [reflexivity|]. intros (_ & _ & H1 & H2).
  unfold parseExp. now rewrite H1, H2.
Qed.

Lemma parseInt_natToString (n : Z) (rest : string) :
  0 <= n -> endsNumber rest -> parseInt (natToString n +:+ rest) = Some (n, rest).
Proof.
  intros Hn Hr. unfold natToString. rewrite digitsAcc_app.
  change (EmptyString +:+ rest) with rest.
  destruct (Z.eq_dec n 0) as [-> | Hne]; [reflexivity|].
  pose proof (log2_bound n Hn) as Hb.
  destruct (digitsAcc_head (Z.to_nat (Z.log2 n)) n rest ltac:(lia))
    as (c & r & Heq & Hz & Hm & d & Hd).
  destruct (scanDigits_digitsAcc (Z.to_nat (Z.log2 n)) n rest O Hb) as [cnt Hscan].
  rewrite (scanDigits_stop rest n cnt Hr) in Hscan.
  rewrite Heq in *. unfold parseInt. cbv beta iota. now rewrite Hz, Hd, Hscan.
Qed.

Lemma takeSign_natToString (n : Z) (rest : string) :
  0 <= n -> takeSign (natToString n +:+ rest) = (false, natToString n +:+ rest).
Proof.
  intros Hn. unfold natToString. rewrite digitsAcc_app.
  destruct (Z.eq_dec n 0) as [-> | Hne]; [reflexivity|].
  pose proof (log2_bound n Hn) as Hb.
  destruct (digitsAcc_head (Z.to_nat (Z.log2 n)) n (EmptyString +:+ rest) ltac:(lia))
    as (c & r & Heq & Hz & Hm & d & Hd).
  rewrite Heq. unfold takeSign. cbv beta iota. now rewrite Hm.
Qed.

Lemma parseNumber_natToString (negative : bool) (n : Z) (rest : string) :
  0 <= n -> endsNumber rest ->
  parseNumber ((if negative then "-" else "") +:+ natToString n +:+ rest)
  = Some (inject_Z (if negative then - n else n), rest).
Proof.
  intros Hn Hr. unfold parseNumber.
  assert (Hs : takeSign ((if negative then "-" else "") +:+ natToString n +:+ rest)
               = (negative, natToString n +:+ rest)).
  { destruct negative; [reflexivity|]. now apply takeSign_natToString. }
  rewrite Hs, parseInt_natToString, parseFrac_none, parseExp_none by assumption.
  now rewrite decimal_integer.
Qed.

Lemma parseNumber_numberToString (n : Z) (rest : string) :
  endsNumber rest ->
  parseNumber (numberToString n +:+ rest) = Some (inject_Z n, rest).
Proof.
  intros Hr. unfold numberToString. destruct (Z.ltb_spec n 0) as [Hneg | Hpos].
  - change (parseNumber ("-" +:+ natToString (- n) +:+ rest) = Some (inject_Z n, rest)).
    rewrite (parseNumber_natToString true (- n) rest ltac:(lia) Hr).
    do 3 f_equal. lia.
  - apply (parseNumber_natToString false n rest Hpos Hr).
Qed.

(** *** String literals *)

Lemma parseChars_escapeChar (c : ascii) (fuel : nat) (rest : string) :
  parseChars (S fuel) (escapeChar c +:+ rest)
  = match parseChars fuel rest with
    | Some (content, after) => Some (String c content, after)
    | None => None
    end.
Proof. destruct c as [[] [] [] [] [] [] [] []]; reflexivity. Qed.

Lemma append_assoc (a b c : string) : (a +:+ b) +:+ c = a +:+ (b +:+ c).
Proof. induction a as [|x a IH]; cbn; [reflexivity | now rewrite IH]. Qed.

Lemma parseChars_escape (s : string) (fuel : nat) (rest : string) :
  (String.length s < fuel)%nat ->
  parseChars fuel (escape s +:+ String DQ rest) = Some (s, rest).
Proof.
  revert fuel. induction s as [|c s IH]; intros fuel Hf.
  - destruct fuel; [lia|]. reflexivity.
  - destruct fuel; [cbn in Hf; lia|].
    cbn [escape]. rewrite append_assoc, parseChars_escapeChar.
    rewrite IH by (cbn in Hf; lia). reflexivity.
Qed.

Lemma length_append (a b : string) :
  String.length (a +:+ b) = (String.length a + String.length b)%nat.
Proof. induction a as [|x a IH]; cbn; [reflexivity | now rewrite IH]. Qed.

Lemma length_escapeChar (c : ascii) : (1 <= String.length (escapeChar c))%nat.
Proof. destruct c as [[] [] [] [] [] [] [] []]; vm_compute; lia. Qed.

Lemma length_escape (s : string) : (String.length s <= String.length (escape s))%nat.
Proof.
  induction s as [|c s IH]; [reflexivity|].
  cbn [escape String.length]. rewrite length_append.
  pose proof (length_escapeChar c). lia.
Qed.

Lemma quote_append (s rest : string) :
  quote s +:+ rest = String DQ (escape s +:+ String DQ rest).
Proof. unfold quote. cbn [String.append]. now rewrite append_assoc. Qed.

(** A string literal is read back as the string it was written from. *)
Lemma parseChars_quote (s rest : string) :
  parseChars (String.length (escape s +:+ String DQ rest)) (escape s +:+ String DQ rest)
  = Some (s, rest).
Proof.
  apply parseChars_escape. rewrite length_append. cbn [String.length].
  pose proof (length_escape s). lia.
Qed.

End JsonFacts.

(* ===================================================================== *)
(** * Facts: cursors *)
(* ===================================================================== *)

Module CursorFacts.
Import Js Json JsonFacts.

Lemma digit_dispatch (c : ascii) (d : Z) :
  digitValue c = Some d ->
  isJsonSpace c = false /\ Ascii.eqb c "{" = false /\ Ascii.eqb c "[" = false
  /\ Ascii.eqb c DQ = false /\ Ascii.eqb c "t" = false /\ Ascii.eqb c "f" = false
  /\ Ascii.eqb c "n" = false.
Proof.
  destruct c as [[] [] [] [] [] [] [] []]; vm_compute; intros H;
    solve [discriminate H | repeat split].
Qed.

Lemma numberToString_head (n : Z) (rest : string) :
  exists c r, numberToString n +:+ rest = String c r
              /\ (Ascii.eqb c "-" = true \/ exists d, digitValue c = Some d).
Proof.
  unfold numberToString. destruct (Z.ltb_spec n 0) as [Hneg | Hpos].
  - do 2 eexists. split; [reflexivity|]. now left.
  - unfold natToString. rewrite digitsAcc_app.
    destruct (Z.eq_dec n 0) as [-> | Hne].
    + do 2 eexists. split; [reflexivity|]. right. now exists 0.
    + destruct (digitsAcc_head (Z.to_nat (Z.log2 n)) n (EmptyString +:+ rest))
        as (c & r & Heq & _ & _ & d & Hd).
      { pose proof (log2_bound n Hpos). lia. }
      exists c, r. split; [assumption|]. right. now exists d.
Qed.

Lemma parseValue_number (fuel : nat) (n : Z) (rest : string) :
  endsNumber rest ->
  parseValue (S fuel) (numberToString n +:+ rest) = Some (JNum (inject_Z n), rest).
Proof.
  intros Hr. pose proof (parseNumber_numberToString n rest Hr) as Hp.
  destruct (numberToString_head n rest) as (c & r & Heq & Hc).
  rewrite Heq in *. cbn [parseValue skipWs].
  assert (Hd : isJsonSpace c = false /\ Ascii.eqb c "{" = false /\ Ascii.eqb c "[" = false
    /\ Ascii.eqb c DQ = false /\ Ascii.eqb c "t" = false /\ Ascii.eqb c "f" = false
    /\ Ascii.eqb c "n" = false).
  { destruct Hc as [Hm | [d Hd]]; [|now apply (digit_dispatch c d)].
    apply Ascii.eqb_eq in Hm. subst c. repeat split. }
  destruct Hd as (-> & -> & -> & -> & -> & -> & ->). now rewrite Hp.
Qed.

Lemma parseValue_string (fuel : nat) (s rest : string) :
  parseValue (S fuel) (quote s +:+ rest) = Some (JStr s, rest).
Proof.
  rewrite quote_append. cbn [parseValue skipWs].
  change (isJsonSpace DQ) with false. cbv iota.
  change (Ascii.eqb DQ "{") with false. change (Ascii.eqb DQ "[") with false.
  change (Ascii.eqb DQ DQ) with true. cbv iota.
  now rewrite parseChars_quote.
Qed.

(** One member [key:value] of an object, followed by a comma. *)
Lemma parseMembers_comma (n : nat) (pv : string -> option (value * string))
    (key : string) (body rest : string) (v : value) (acc : list (string * value)) :
  pv body = Some (v, String "," rest) ->
  parseMembers (S n) pv (quote key +:+ String ":" body) acc
  = parseMembers n pv rest (acc ++ [(key, v)]).
Proof.
  intros Hv. rewrite quote_append. cbn [parseMembers skipWs].
  change (isJsonSpace DQ) with false. cbv iota.
  change (Ascii.eqb DQ DQ) with true. cbv iota.
  rewrite parseChars_quote. cbn [skipWs].
  change (isJsonSpace ":") with false. cbv iota.
  change (Ascii.eqb ":" ":") with true. cbv iota.
  rewrite Hv. reflexivity.
Qed.

(** The last member of an object, followed by the closing brace. *)
Lemma parseMembers_last (n : nat) (pv : string -> option (value * string))
    (key : string) (body rest : string) (v : value) (acc : list (string * value)) :
  pv body = Some (v, String "}" rest) ->
  parseMembers (S n) pv (quote key +:+ String ":" body) acc
  = Some (JObj (acc ++ [(key, v)]), rest).
Proof.
  intros Hv. rewrite quote_append. cbn [parseMembers skipWs].
  change (isJsonSpace DQ) with false. cbv iota.
  change (Ascii.eqb DQ DQ) with true. cbv iota.
  rewrite parseChars_quote. cbn [skipWs].
  change (isJsonSpace ":") with false. cbv iota.
  change (Ascii.eqb ":" ":") with true. cbv iota.
  rewrite Hv. reflexivity.
Qed.

Lemma parseValue_object (fuel : nat) (key rest : string) :
  parseValue (S fuel) (String "{" (quote key +:+ rest))
  = parseMembers fuel (parseValue fuel) (quote key +:+ rest) [].
Proof. reflexivity. Qed.

Lemma parse_stringifyCursor (data : CursorData) :
  parse (stringifyCursor data) = Some (cursorValue data).
Proof.
  unfold parse, stringifyCursor, cursorValue.
  destruct data as [n [u|]]; cbn [offset sitemap_url].
  - set (tail := quote "sitemap_url" +:+ String ":" (quote u +:+ "}")).
    set (body := numberToString n +:+ String "," tail).
    change ("{" +:+ quote "offset" +:+ ":" +:+ numberToString n +:+
            "," +:+ quote "sitemap_url" +:+ ":" +:+ quote u +:+ "}")
      with (String "{" (quote "offset" +:+ String ":" body)).
    change (S (String.length (String "{" (quote "offset" +:+ String ":" body))))
      with (S (S (S (S (7 + String.length body))))).
    rewrite (parseValue_object _ "offset" (String ":" body)).
    match goal with
    | |- context [parseMembers (S ?k) ?pv ?t ?acc] =>
        pose proof (parseMembers_comma k pv "offset" body tail (JNum (inject_Z n)) acc) as Hstep; rewrite Hstep; clear Hstep
    end; [|subst body; apply parseValue_number; repeat split].
    subst tail.
    match goal with
    | |- context [parseMembers (S ?k) ?pv ?t ?acc] =>
        pose proof (parseMembers_last k pv "sitemap_url" (quote u +:+ "}") EmptyString
                   (JStr u) acc) as Hstep; rewrite Hstep; clear Hstep
    end; [|apply parseValue_string].
    reflexivity.
  - change ("{" +:+ quote "offset" +:+ ":" +:+ numberToString n +:+ "}")
      with (String "{" (quote "offset" +:+ String ":" (numberToString n +:+ "}"))).
    set (body := numberToString n +:+ "}").
    change (S (String.length (String "{" (quote "offset" +:+ String ":" body))))
      with (S (S (S (S (7 + String.length body))))).
    rewrite (parseValue_object _ "offset" (String ":" body)).
    match goal with
    | |- context [parseMembers (S ?k) ?pv ?t ?acc] =>
        pose proof (parseMembers_last k pv "offset" body EmptyString (JNum (inject_Z n)) acc) as Hstep; rewrite Hstep; clear Hstep
    end; [|subst body; apply parseValue_number; repeat split].
    reflexivity.
Qed.

(** The round trip of [encodeCursor] and [decodeCursor], for every payload. *)
Lemma decodeCursor_encodeCursor (data : CursorData) :
  decodeCursor (encodeCursor data) = cursorValue data.
Proof.
  unfold decodeCursor, encodeCursor.
  now rewrite Base64urlFacts.decode_encode, parse_stringifyCursor.
Qed.

End CursorFacts.

(* ===================================================================== *)
(** * Facts: strings and the monad *)
(* ===================================================================== *)

Module StringFacts.
Import Js.

Lemma startsWith_app (s a b : string) :
  startsWith s (a +:+ b) = true -> startsWith s a = true.
Proof.
  revert s. induction a as [|c a IH]; intros s H; [reflexivity|].
  destruct s as [|d s]; cbn in *; [discriminate|].
  apply andb_true_iff in H as [-> H]. cbn. now apply IH.
Qed.

Lemma includes_app (s a b : string) :
  includes s (a +:+ b) = true -> includes s a = true.
Proof.
  induction s as [|d s IH]; cbn [includes]; intros H.
  - rewrite orb_false_r in *. now apply startsWith_app with b.
  - apply orb_true_iff in H as [H | H]; apply orb_true_iff.
    + left. now apply startsWith_app with b.
    + right. now apply IH.
Qed.

Lemma startsWith_spec (s p : string) :
  startsWith s p = true <-> exists r, s = p +:+ r.
Proof.
  revert s. induction p as [|c p IH]; intros s.
  - split; [intros _; now exists s | reflexivity].
  - destruct s as [|d s]; cbn [startsWith].
    + split; [discriminate | intros [r Hr]; discriminate].
    + rewrite andb_true_iff, Ascii.eqb_eq, IH. split.
      * intros [-> [r ->]]. now exists r.
      * intros [r Hr]. cbn in Hr. injection Hr as -> ->. split; [reflexivity | now exists r].
Qed.

(** [includes] finds the occurrences of a substring, wherever they are. *)
Lemma includes_spec (s sub : string) :
  includes s sub = true <-> exists a b, s = a +:+ sub +:+ b.
Proof.
  induction s as [|d s IH]; cbn [includes].
  - rewrite orb_false_r, startsWith_spec. split.
    + intros [r Hr]. now exists EmptyString, r.
    + intros ([|x a] & b & H); [now exists b | discriminate].
  - rewrite orb_true_iff, startsWith_spec, IH. split.
    + intros [[r Hr] | (a & b & ->)]; [now exists EmptyString, r | now exists (String d a), b].
    + intros ([|x a] & b & H).
      * left. now exists b.
      * right. cbn in H. injection H as -> ->. now exists a, b.
Qed.

End StringFacts.

(** ** Running the monad *)

Lemma bind_run {A B} (m : M A) (k : A -> M B) (st st' : St) (a : A) :
  m st = Some (a, st') -> bind m k st = k a st'.
Proof. unfold bind. now intros ->. Qed.

Lemma bind_inv {A B} (m : M A) (k : A -> M B) (st : St) (r : B * St) :
  bind m k st = Some r -> exists a st', m st = Some (a, st') /\ k a st' = Some r.
Proof.
  unfold bind. destruct (m st) as [[a st']|]; [|discriminate].
  intros H. now exists a, st'.
Qed.

Lemma bind_ext {A B} (m m' : M A) (k k' : A -> M B) (st : St) :
  m st = m' st ->
  (forall a st', m st = Some (a, st') -> k a st' = k' a st') ->
  bind m k st = bind m' k' st.
Proof.
  intros Hm Hk. unfold bind. rewrite <- Hm.
  destruct (m st) as [[a st']|]; [now apply Hk | reflexivity].
Qed.

Lemma checkSitemap_run (w : World) (u : string) (d : DiscoveredFrom) (st : St) :
  checkSitemap w u d st = Some (classifyProbe w u d (fetch w u), logged st u).
Proof. reflexivity. Qed.

Lemma fetchSitemap_run (w : World) (u : string) (st : St) :
  fetchSitemap w u st = Some (readSitemap w u (fetch w u), logged st u).
Proof. reflexivity. Qed.

Lemma isValidUrl_parses (w : World) (u : string) :
  isValidUrl w u = true -> exists parsed, parseURL w u = Some parsed.
Proof. unfold isValidUrl. destruct (parseURL w u) as [p|]; [now exists p | discriminate]. Qed.

Lemma normalizeUrl_valid (w : World) (u n : string) :
  normalizeUrl w u = Some n -> isValidUrl w n = true.
Proof.
  unfold normalizeUrl.
  destruct (hasHttpScheme (Js.trim u)); cbn [negb];
    match goal with |- context [isValidUrl w ?x] => destruct (isValidUrl w x) eqn:E end;
    cbn [negb]; intros H; inversion H; subst; assumption.
Qed.

(* ===================================================================== *)
(** * Facts: traversals, their visited set and their log *)
(* ===================================================================== *)

#[local] Set Warnings "-clear-no-such-hyp".

Lemma Extends_refl (st : St) : Extends st st [].
Proof.
  repeat split.
  - now rewrite app_nil_r.
  - set_solver.
  - constructor.
  - intros x Hx. inversion Hx.
Qed.

Lemma Extends_trans (st1 st2 st3 : St) (n1 n2 : list string) :
  Extends st1 st2 n1 -> Extends st2 st3 n2 -> Extends st1 st3 (n1 ++ n2).
Proof.
  intros (Hf1 & Hv1 & Hd1 & Hn1) (Hf2 & Hv2 & Hd2 & Hn2). repeat split.
  - now rewrite Hf2, Hf1, app_assoc.
  - rewrite Hv2, Hv1, list_to_set_app_L. set_solver.
  - apply NoDup_app. repeat split; [assumption | | assumption].
    intros x Hx1 Hx2. apply Hn2 in Hx2. rewrite Hv1 in Hx2. set_solver.
  - intros x Hx. apply elem_of_app in Hx as [Hx | Hx]; [now apply Hn1|].
    apply Hn2 in Hx. rewrite Hv1 in Hx. set_solver.
Qed.

Lemma Extends_visit (st : St) (u : string) :
  u ∉ visited st ->
  Extends st {| visited := {[u]} ∪ visited st; fetched := fetched st ++ [u] |} [u].
Proof.
  intros Hu. repeat split; cbn.
  - set_solver.
  - apply NoDup_singleton.
  - intros x Hx. apply list_elem_of_singleton in Hx. now subst.
Qed.

Lemma Extends_subseteq (st st' : St) (new : list string) :
  Extends st st' new -> visited st ⊆ visited st'.
Proof. intros (_ & -> & _). set_solver. Qed.

Section Traversal.

Variable w : World.

(** ** The recursion of the Frontier Builder *)

Lemma collect_unfold (fuel : nat) (rules : CrawlFrontierRules) (u : string) (maxUrls : Z)
    (st : St) :
  collectUrlsFromSitemap w (S fuel) rules u maxUrls st
  = if bool_decide (u ∈ visited st) then Some (([], 0), st)
    else
      let st' := {| visited := {[u]} ∪ visited st; fetched := fetched st ++ [u] |} in
      match readSitemap w u (fetch w u) with
      | Throw _ => Some (([], 0), st')
      | Ret parsed =>
          if isIndex parsed then
            collectChildren (collectUrlsFromSitemap w fuel rules) maxUrls
              (indexUrls parsed) [] 1 st'
          else Some ((collectEntries u rules maxUrls (urls parsed) [], 1), st')
      end.
Proof.
  cbn [collectUrlsFromSitemap]. unfold bind at 1. unfold visited_has at 1.
  destruct (bool_decide (u ∈ visited st)); [reflexivity|].
  unfold bind at 1. unfold visited_add at 1.
  unfold bind at 1. rewrite fetchSitemap_run. unfold logged. cbn [visited fetched].
  destruct (readSitemap w u (fetch w u)) as [parsed|e]; [|reflexivity].
  destruct (isIndex parsed); reflexivity.
Qed.

(** Every fetch of the recursion is the first visit of its URL. *)
Lemma collectChildren_extends
    (self : string -> Z -> M (list FrontierUrl * Z)) :
  (forall u m st r st', self u m st = Some (r, st') -> exists new, Extends st st' new) ->
  forall children maxUrls acc n st r st',
    collectChildren self maxUrls children acc n st = Some (r, st') ->
    exists new, Extends st st' new.
Proof.
  intros Hself. induction children as [|c cs IH]; intros maxUrls acc n st r st' H.
  - injection H as _ <-. exists []. apply Extends_refl.
  - cbn [collectChildren] in H.
    destruct (Z.of_nat (length acc) >=? maxUrls).
    + injection H as _ <-. exists []. apply Extends_refl.
    + apply bind_inv in H as ([found k] & st1 & Hc & H). cbv beta iota in H.
      apply Hself in Hc as [n1 H1]. apply IH in H as [n2 H2].
      exists (n1 ++ n2). eapply Extends_trans; eassumption.
Qed.

Lemma collect_extends (fuel : nat) (rules : CrawlFrontierRules) :
  forall u maxUrls st r st',
    collectUrlsFromSitemap w fuel rules u maxUrls st = Some (r, st') ->
    exists new, Extends st st' new.
Proof.
  induction fuel as [|fuel IH]; intros u maxUrls st r st' H; [discriminate|].
  rewrite collect_unfold in H.
  destruct (bool_decide_reflect (u ∈ visited st)) as [Hin | Hout].
  { injection H as _ <-. exists []. apply Extends_refl. }
  cbv zeta in H. pose proof (Extends_visit st u Hout) as Hstep.
  destruct (readSitemap w u (fetch w u)) as [parsed|e].
  - destruct (isIndex parsed).
    + apply (collectChildren_extends _ IH) in H as [n2 H2].
      exists ([u] ++ n2). eapply Extends_trans; eassumption.
    + injection H as _ <-. now exists [u].
  - injection H as _ <-. now exists [u].
Qed.


(** ** Termination, in a world whose indexes reference finitely many URLs *)

Section Finite.

Variable U : gset string.
Hypothesis U_closed : closed w U.

Lemma visit_shrinks (u : string) (v : gset string) :
  u ∈ U -> u ∉ v -> (size (U ∖ ({[u]} ∪ v)) < size (U ∖ v))%nat.
Proof. intros Hu Hv. apply subset_size. set_solver. Qed.

Lemma visited_grows_shrinks (v v' : gset string) :
  v ⊆ v' -> (size (U ∖ v') <= size (U ∖ v))%nat.
Proof. intros H. apply subseteq_size. set_solver. Qed.

Lemma collectChildren_terminates
    (self : string -> Z -> M (list FrontierUrl * Z)) (bound : nat) :
  (forall u m st, u ∈ U -> (size (U ∖ visited st) < bound)%nat ->
                  exists r st', self u m st = Some (r, st')) ->
  (forall u m st r st', self u m st = Some (r, st') -> exists new, Extends st st' new) ->
  forall children maxUrls acc n st,
    Forall (fun c => c ∈ U) children ->
    (size (U ∖ visited st) < bound)%nat ->
    exists r st', collectChildren self maxUrls children acc n st = Some (r, st').
Proof.
  intros Hterm Hext. induction children as [|c cs IH]; intros maxUrls acc n st Hin Hsize.
  - now do 2 eexists.
  - cbn [collectChildren]. destruct (Z.of_nat (length acc) >=? maxUrls); [now do 2 eexists|].
    inversion Hin as [|? ? Hc Hcs]; subst.
    destruct (Hterm c (maxUrls - Z.of_nat (length acc)) st Hc Hsize) as ([found k] & st1 & Hrun).
    rewrite (bind_run _ _ _ _ _ Hrun).
    apply IH; [assumption|].
    apply Hext in Hrun as [new Hnew]. apply Extends_subseteq in Hnew.
    pose proof (visited_grows_shrinks _ _ Hnew). lia.
Qed.

Lemma children_in_U (u : string) (parsed : ParsedSitemap) :
  readSitemap w u (fetch w u) = Ret parsed -> Forall (fun c => c ∈ U) (indexUrls parsed).
Proof.
  intros H. apply Forall_forall. intros c Hc. apply (U_closed u).
  unfold indexChildren. rewrite H. now apply list_elem_of_In.
Qed.

Lemma collect_terminates_inside (rules : CrawlFrontierRules) (fuel : nat) :
  forall u maxUrls st,
    u ∈ U -> (size (U ∖ visited st) < fuel)%nat ->
    exists r st', collectUrlsFromSitemap w fuel rules u maxUrls st = Some (r, st').
Proof.
  induction fuel as [|fuel IH]; intros u maxUrls st Hu Hsize; [lia|].
  rewrite collect_unfold.
  destruct (bool_decide_reflect (u ∈ visited st)) as [Hin | Hout]; [now do 2 eexists|].
  cbv zeta. destruct (readSitemap w u (fetch w u)) as [parsed|e] eqn:Hread; [|now do 2 eexists].
  destruct (isIndex parsed); [|now do 2 eexists].
  apply (collectChildren_terminates _ fuel IH (collect_extends fuel rules)).
  - now apply (children_in_U u).
  - cbn [visited]. pose proof (visit_shrinks u (visited st) Hu Hout). lia.
Qed.

End Finite.

End Traversal.

Lemma closed_add (w : World) (U : gset string) (u : string) :
  closed w U -> closed w ({[u]} ∪ U).
Proof. intros H x c Hc. apply H in Hc. set_solver. Qed.

Lemma closed_union (w : World) (U V : gset string) :
  closed w U -> closed w (V ∪ U).
Proof. intros H x c Hc. apply H in Hc. set_solver. Qed.

(** With enough fuel the recursion of the Frontier Builder returns, from any
    URL and any state. *)
Lemma collect_terminates (w : World) (U : gset string) (rules : CrawlFrontierRules)
    (u : string) (maxUrls : Z) (st : St) (fuel : nat) :
  closed w U -> (size U + 2 <= fuel)%nat ->
  exists r st', collectUrlsFromSitemap w fuel rules u maxUrls st = Some (r, st').
Proof.
  intros Hc Hfuel.
  apply (collect_terminates_inside w ({[u]} ∪ U) (closed_add w U u Hc)); [set_solver|].
  pose proof (subseteq_size (({[u]} ∪ U) ∖ visited st) ({[u]} ∪ U) ltac:(set_solver)).
  pose proof (size_union_alt {[u]} U) as Hs. rewrite size_singleton in Hs.
  pose proof (subseteq_size (U ∖ {[u]}) U ltac:(set_solver)). lia.
Qed.

Lemma collectAll_terminates (w : World) (U : gset string) (rules : CrawlFrontierRules)
    (effectiveLimit : Z) (fuel : nat) :
  closed w U -> (size U + 2 <= fuel)%nat ->
  forall discovered allUrls n st,
    exists r st', collectAll w fuel rules effectiveLimit discovered allUrls n st = Some (r, st').
Proof.
  intros Hc Hfuel. induction discovered as [|sm rest IH]; intros allUrls n st.
  - now do 2 eexists.
  - cbn [collectAll]. destruct (Z.of_nat (length allUrls) >=? effectiveLimit);
      [now do 2 eexists|].
    destruct (collect_terminates w U rules (ds_url sm)
                (effectiveLimit - Z.of_nat (length allUrls)) st fuel Hc Hfuel)
      as ([found k] & st1 & Hrun).
    rewrite (bind_run _ _ _ _ _ Hrun). apply IH.
Qed.

(* ===================================================================== *)
(** * Facts: the Discoverer *)
(* ===================================================================== *)

Module TrimFacts.
Import Js.

Lemma trimEnd_cons (c : ascii) (s : string) :
  trimEnd (String c s)
  = match trimEnd s with
    | EmptyString => if isWhiteSpace c then EmptyString else String c EmptyString
    | t => String c t
    end.
Proof. reflexivity. Qed.

Lemma trimEnd_cons_kept (c : ascii) (x : string) :
  isWhiteSpace c = false -> trimEnd x = x -> trimEnd (String c x) = String c x.
Proof. intros Hc Hx. rewrite trimEnd_cons, Hx, Hc. now destruct x. Qed.

Lemma trimEnd_idempotent (s : string) : trimEnd (trimEnd s) = trimEnd s.
Proof.
  induction s as [|c s IH]; [reflexivity|]. rewrite trimEnd_cons.
  destruct (trimEnd s) as [|d t] eqn:E.
  - destruct (isWhiteSpace c) eqn:Ec; [reflexivity|]. rewrite trimEnd_cons. cbn [trimEnd].
    now rewrite Ec.
  - rewrite trimEnd_cons, IH. reflexivity.
Qed.

(** A string that starts with a character that is not white space keeps its
    start when its end is trimmed. *)
Lemma trimStart_trimEnd (s : string) :
  trimStart s = s -> trimStart (trimEnd s) = trimEnd s.
Proof.
  destruct s as [|c s]; [reflexivity|]. intros H.
  assert (Hc : isWhiteSpace c = false).
  { cbn [trimStart] in H. destruct (isWhiteSpace c); [|reflexivity].
    exfalso. assert (Hlen : String.length (trimStart s) = String.length (String c s))
      by now rewrite H.
    clear H. cbn [String.length] in Hlen.
    assert (Hle : forall t, (String.length (trimStart t) <= String.length t)%nat).
    { induction t as [|d t IHt]; cbn [trimStart String.length]; [lia|].
      destruct (isWhiteSpace d); cbn [String.length]; lia. }
    specialize (Hle s). lia. }
  rewrite trimEnd_cons. destruct (trimEnd s); rewrite ?Hc; cbn [trimStart]; now rewrite Hc.
Qed.

Lemma trimStart_idempotent (s : string) : trimStart (trimStart s) = trimStart s.
Proof.
  induction s as [|c s IH]; [reflexivity|]. cbn [trimStart].
  destruct (isWhiteSpace c) eqn:Ec; [assumption|]. cbn [trimStart]. now rewrite Ec.
Qed.

Lemma trim_idempotent (s : string) : trim (trim s) = trim s.
Proof.
  unfold trim. rewrite (trimStart_trimEnd (trimStart s)) by apply trimStart_idempotent.
  apply trimEnd_idempotent.
Qed.

Lemma trim_https (t : string) : trim t = t -> trim ("https://" +:+ t) = "https://" +:+ t.
Proof.
  intros Ht. unfold trim. cbn [String.append].
  change (trimStart (String "h" ?x)) with (String "h" x).
  assert (He : trimEnd t = t).
  { unfold trim in Ht. rewrite <- Ht at 1. rewrite trimEnd_idempotent. exact Ht. }
  repeat (apply trimEnd_cons_kept; [reflexivity|]). exact He.
Qed.

End TrimFacts.

(** A normalized URL is not empty and normalizes to itself. *)
Lemma normalizeUrl_idempotent (w : World) (u n : string) :
  normalizeUrl w u = Some n -> n <> EmptyString /\ normalizeUrl w n = Some n.
Proof.
  intros H. pose proof (normalizeUrl_valid w u n H) as Hvalid.
  assert (Hn : Js.trim n = n /\ hasHttpScheme n = true).
  { unfold normalizeUrl in H.
    destruct (hasHttpScheme (Js.trim u)) eqn:Hs; cbn [negb] in H;
      match type of H with context [isValidUrl w ?x] => destruct (isValidUrl w x) end;
      cbn [negb] in H; try discriminate; injection H as H; rewrite <- H.
    - split; [apply TrimFacts.trim_idempotent | exact Hs].
    - split; [apply TrimFacts.trim_https, TrimFacts.trim_idempotent | reflexivity]. }
  destruct Hn as [Htrim Hscheme]. split.
  - intros ->. discriminate Hscheme.
  - unfold normalizeUrl. rewrite Htrim, Hscheme. cbn [negb]. now rewrite Hvalid.
Qed.

Section Discovery.

Variable w : World.

Lemma discoverFromSitemapIndex_unfold (fuel : nat) (u : string) (st : St) :
  discoverFromSitemapIndex w (S fuel) u st
  = if bool_decide (u ∈ visited st) then Some ([], st)
    else
      let st' := {| visited := {[u]} ∪ visited st; fetched := fetched st ++ [u] |} in
      match fetch w u with
      | Throw _ => Some ([], st')
      | Ret response =>
          if negb (resp_ok response) then Some ([], st')
          else match readContent w u response with
               | Throw _ => Some ([], st')
               | Ret content =>
                   match xmlParse w content with
                   | Throw _ => Some ([], st')
                   | Ret parsed =>
                       match sitemapindex_sitemap parsed with
                       | None => Some ([], st')
                       | Some entries =>
                           expandEntries w (discoverFromSitemapIndex w fuel) entries [] st'
                       end
                   end
               end
      end.
Proof.
  cbn [discoverFromSitemapIndex]. unfold bind at 1. unfold visited_has at 1.
  destruct (bool_decide (u ∈ visited st)); [reflexivity|].
  unfold bind at 1. unfold visited_add at 1.
  unfold bind at 1. unfold fetchM at 1. cbn [visited fetched].
  destruct (fetch w u) as [response|e]; [|reflexivity].
  destruct (negb (resp_ok response)); [reflexivity|].
  destruct (readContent w u response) as [content|e]; [|reflexivity].
  destruct (xmlParse w content) as [parsed|e]; [|reflexivity].
  destruct (sitemapindex_sitemap parsed); reflexivity.
Qed.

(** An index that is already visited is not expanded. *)
Lemma discoverFromSitemapIndex_seen (fuel : nat) (u : string) (st : St) :
  u ∈ visited st -> discoverFromSitemapIndex w (S fuel) u st = Some ([], st).
Proof.
  intros H. rewrite discoverFromSitemapIndex_unfold.
  now rewrite (bool_decide_eq_true_2 _ H).
Qed.

(** The probing steps of [discoverSitemaps] mark a candidate as visited
    before they ask for its expansion, so the expansion returns at once. *)
Lemma probeCandidate_run (fuel : nat) (candidate : string) (d : DiscoveredFrom)
    (acc : list DiscoveredSitemap) (st : St) :
  probeCandidate w (S fuel) candidate d acc st
  = match classifyProbe w candidate d (fetch w candidate) with
    | None => Some (acc, logged st candidate)
    | Some sm =>
        Some (acc ++ [sm],
              {| visited := {[candidate]} ∪ visited st;
                 fetched := fetched st ++ [candidate] |})
    end.
Proof.
  unfold probeCandidate. rewrite (bind_run _ _ _ _ _ (checkSitemap_run w candidate d st)).
  destruct (classifyProbe w candidate d (fetch w candidate)) as [sm|]; [|reflexivity].
  unfold bind at 1. unfold visited_add at 1. cbn [logged visited fetched].
  destruct (SitemapType_eqb (ds_type sm) sitemap_index); [|reflexivity].
  unfold bind. rewrite discoverFromSitemapIndex_seen by (cbn; set_solver).
  unfold ret. now rewrite app_nil_r.
Qed.

Lemma probeCandidate_returns (fuel : nat) (candidate : string) (d : DiscoveredFrom)
    (acc : list DiscoveredSitemap) (st : St) :
  exists acc' st', probeCandidate w (S fuel) candidate d acc st = Some (acc', st').
Proof.
  rewrite probeCandidate_run.
  destruct (classifyProbe w candidate d (fetch w candidate)); now do 2 eexists.
Qed.

Lemma probeCandidate_fuel (fuel : nat) (candidate : string) (d : DiscoveredFrom)
    (acc : list DiscoveredSitemap) (st : St) :
  probeCandidate w (S fuel) candidate d acc st = probeCandidate w 1 candidate d acc st.
Proof. now rewrite !probeCandidate_run. Qed.

Lemma probeUnvisited_fuel (fuel : nat) (d : DiscoveredFrom) :
  forall candidates acc st,
    probeUnvisited w (S fuel) candidates d acc st = probeUnvisited w 1 candidates d acc st.
Proof.
  induction candidates as [|c cs IH]; intros acc st; [reflexivity|].
  cbn [probeUnvisited]. apply bind_ext; [reflexivity|]. intros seen st1 _.
  destruct (negb seen); [|apply IH].
  apply bind_ext; [apply probeCandidate_fuel|]. intros acc' st2 _. apply IH.
Qed.

Lemma probeUnvisited_returns (fuel : nat) (d : DiscoveredFrom) :
  forall candidates acc st,
    exists acc' st', probeUnvisited w (S fuel) candidates d acc st = Some (acc', st').
Proof.
  induction candidates as [|c cs IH]; intros acc st; [now do 2 eexists|].
  cbn [probeUnvisited]. unfold bind at 1. unfold visited_has at 1.
  destruct (negb (bool_decide (c ∈ visited st))); [|apply IH].
  destruct (probeCandidate_returns fuel c d acc st) as (acc' & st' & H).
  rewrite (bind_run _ _ _ _ _ H). apply IH.
Qed.

Lemma parseSitemapsFromRobotsTxt_returns (robotsTxtUrl : string) (st : St) :
  exists l found, parseSitemapsFromRobotsTxt w robotsTxtUrl st
                  = Some ((l, found), logged st robotsTxtUrl).
Proof.
  unfold parseSitemapsFromRobotsTxt, bind, fetchM, ret, logged.
  destruct (fetch w robotsTxtUrl) as [response|e];
    [destruct (negb (resp_ok response))|]; now do 2 eexists.
Qed.

(** The fuel plays no part in discovery. *)
Lemma discoverSitemaps_fuel (fuel : nat) (u : string) (st : St) :
  discoverSitemaps w (S fuel) u st = discoverSitemaps w 1 u st.
Proof.
  unfold discoverSitemaps. destruct (String.eqb u EmptyString); [reflexivity|].
  destruct (normalizeUrl w u) as [n|]; [|reflexivity].
  destruct (parseURL w n) as [urlObj|]; [|reflexivity].
  apply bind_ext; [reflexivity|]. intros _ st0 _.
  apply bind_ext; [apply probeCandidate_fuel|]. intros s1 st1 _.
  apply bind_ext; [reflexivity|]. intros [l found] st2 _.
  apply bind_ext; [apply probeUnvisited_fuel|]. intros s2 st3 _.
  apply bind_ext; [apply probeUnvisited_fuel|]. intros s3 st4 _.
  reflexivity.
Qed.

(** Once the seed URL is accepted, discovery returns a success envelope,
    whatever the network answers. *)
Lemma discoverSitemaps_succeeds (fuel : nat) (u n : string) (st : St) :
  u <> EmptyString -> normalizeUrl w u = Some n ->
  exists data meta st',
    discoverSitemaps w (S fuel) u st = Some (Success data meta, st')
    /\ (sitemaps data <> [] -> warnings meta = Some []).
Proof.
  intros Hne Hn. unfold discoverSitemaps.
  destruct (String.eqb_spec u EmptyString) as [? | _]; [contradiction|].
  rewrite Hn.
  destruct (isValidUrl_parses w n (normalizeUrl_valid w u n Hn)) as [urlObj ->].
  unfold bind at 1. unfold visited_new at 1.
  set (st0 := {| visited := ∅; fetched := fetched st |}).
  destruct (probeCandidate_returns fuel (origin urlObj +:+ "/sitemap.xml")
              standard_location [] st0) as (s1 & st1 & H1).
  rewrite (bind_run _ _ _ _ _ H1).
  destruct (parseSitemapsFromRobotsTxt_returns (origin urlObj +:+ "/robots.txt") st1)
    as (l & found & H2).
  rewrite (bind_run _ _ _ _ _ H2).
  destruct (probeUnvisited_returns fuel robots_txt l s1
              (logged st1 (origin urlObj +:+ "/robots.txt"))) as (s2 & st3 & H3).
  rewrite (bind_run _ _ _ _ _ H3). cbv zeta.
  match goal with
  | |- context [probeUnvisited w (S fuel) ?alts standard_location s2] =>
      destruct (probeUnvisited_returns fuel standard_location alts s2 st3)
        as (s3 & st4 & H4)
  end.
  rewrite (bind_run _ _ _ _ _ H4).
  do 3 eexists. split; [reflexivity|].
  cbn [sitemaps warnings createSuccessResponse arg_warnings]. intros Hs.
  destruct s3; [contradiction | reflexivity].
Qed.

(** ** The expansion of an index *)

Lemma expandEntries_grows (self : string -> M (list DiscoveredSitemap)) :
  (forall l st r st', self l st = Some (r, st') -> visited st ⊆ visited st') ->
  forall entries acc st r st',
    expandEntries w self entries acc st = Some (r, st') -> visited st ⊆ visited st'.
Proof.
  intros Hself. induction entries as [|e es IH]; intros acc st r st' H.
  - injection H as _ <-. reflexivity.
  - cbn [expandEntries] in H. destruct (truthy (x_loc e)) as [l|]; [|now apply IH in H].
    unfold bind at 1 in H. unfold visited_has at 1 in H.
    destruct (isValidUrl w l && negb (bool_decide (l ∈ visited st))); [|now apply IH in H].
    rewrite (bind_run _ _ _ _ _ (checkSitemap_run w l from_sitemap_index st)) in H.
    destruct (classifyProbe w l from_sitemap_index (fetch w l)) as [sm|];
      [|now apply IH in H].
    destruct (SitemapType_eqb (ds_type sm) sitemap_index); [|now apply IH in H].
    apply bind_inv in H as (nested & st1 & Hn & H).
    apply Hself in Hn. apply IH in H. cbn [logged visited] in *. set_solver.
Qed.

Lemma discoverFromSitemapIndex_grows (fuel : nat) :
  forall u st r st',
    discoverFromSitemapIndex w fuel u st = Some (r, st') -> visited st ⊆ visited st'.
Proof.
  induction fuel as [|fuel IH]; intros u st r st' H; [discriminate|].
  rewrite discoverFromSitemapIndex_unfold in H.
  destruct (bool_decide (u ∈ visited st)); [injection H as _ <-; reflexivity|].
  cbv zeta in H.
  assert (Hstop : forall x, Some (x, {| visited := {[u]} ∪ visited st;
                                         fetched := fetched st ++ [u] |}) = Some (r, st')
                            -> visited st ⊆ visited st').
  { intros x Hx. injection Hx as _ <-. cbn. set_solver. }
  destruct (fetch w u) as [response|e]; [|now apply Hstop in H].
  destruct (negb (resp_ok response)); [now apply Hstop in H|].
  destruct (readContent w u response) as [content|e]; [|now apply Hstop in H].
  destruct (xmlParse w content) as [parsed|e]; [|now apply Hstop in H].
  destruct (sitemapindex_sitemap parsed) as [entries|]; [|now apply Hstop in H].
  apply (expandEntries_grows _ IH) in H. cbn [visited] in H. set_solver.
Qed.

Section Finite.

Variable U : gset string.
Hypothesis U_closed : closed w U.




End Finite.

End Discovery.


(* ===================================================================== *)
(** * Facts: deduplication and the final limit *)
(* ===================================================================== *)

Lemma dedupe_acc (entries : list FrontierUrl) :
  forall seen acc, dedupe entries seen acc = acc ++ dedupe entries seen [].
Proof.
  induction entries as [|e es IH]; intros seen acc; cbn [dedupe].
  - now rewrite app_nil_r.
  - destruct (bool_decide (url e ∈ seen)); [apply IH|].
    rewrite (IH _ (acc ++ [e])), (IH _ ([] ++ [e])). now rewrite <- app_assoc.
Qed.

(** The loop, as a function of the entries that remain. *)
Lemma dedupe_cons (e : FrontierUrl) (es : list FrontierUrl) (seen : gset string) :
  dedupe (e :: es) seen []
  = if bool_decide (url e ∈ seen) then dedupe es seen []
    else e :: dedupe es ({[url e]} ∪ seen) [].
Proof.
  cbn [dedupe]. destruct (bool_decide (url e ∈ seen)); [reflexivity|].
  now rewrite dedupe_acc.
Qed.

Lemma dedupe_kept (entries : list FrontierUrl) :
  forall seen x, x ∈ dedupe entries seen [] -> (url x ∉ seen) /\ (x ∈ entries).
Proof.
  induction entries as [|e es IH]; intros seen x Hx.
  - inversion Hx.
  - rewrite dedupe_cons in Hx.
    destruct (bool_decide_reflect (url e ∈ seen)) as [Hin | Hout].
    + apply IH in Hx as [? ?]. split; [assumption | now right].
    + apply elem_of_cons in Hx as [-> | Hx]; [split; [assumption | now left]|].
      apply IH in Hx as [? ?]. split; [set_solver | now right].
Qed.

Lemma dedupe_NoDup (entries : list FrontierUrl) :
  forall seen, NoDup (map url (dedupe entries seen [])).
Proof.
  induction entries as [|e es IH]; intros seen.
  - constructor.
  - rewrite dedupe_cons. destruct (bool_decide (url e ∈ seen)); [apply IH|].
    cbn [map]. apply NoDup_cons. split; [|apply IH].
    intros Hin. apply list_elem_of_In, in_map_iff in Hin as (x & Hx & Hin).
    apply list_elem_of_In, dedupe_kept in Hin as [Hnot _]. set_solver.
Qed.

Lemma dedupe_sublist (entries : list FrontierUrl) :
  forall seen, sublist (dedupe entries seen []) entries.
Proof.
  induction entries as [|e es IH]; intros seen.
  - constructor.
  - rewrite dedupe_cons. destruct (bool_decide (url e ∈ seen)).
    + apply sublist_cons, IH.
    + apply sublist_skip, IH.
Qed.

(** An entry that is kept is the first of its URL. *)
Lemma dedupe_first (entries : list FrontierUrl) :
  forall seen x,
    x ∈ dedupe entries seen [] ->
    find (fun y => String.eqb (url y) (url x)) entries = Some x.
Proof.
  induction entries as [|e es IH]; intros seen x Hx.
  - inversion Hx.
  - rewrite dedupe_cons in Hx. cbn [find].
    destruct (bool_decide_reflect (url e ∈ seen)) as [Hin | Hout].
    + pose proof (dedupe_kept _ _ _ Hx) as [Hnot _].
      destruct (String.eqb_spec (url e) (url x)) as [Heq | _]; [congruence|].
      now apply (IH seen).
    + apply elem_of_cons in Hx as [-> | Hx]; [now rewrite String.eqb_refl|].
      pose proof (dedupe_kept _ _ _ Hx) as [Hnot _].
      destruct (String.eqb_spec (url e) (url x)) as [Heq | _]; [set_solver|].
      now apply (IH ({[url e]} ∪ seen)).
Qed.


(** A slice from 0 is a prefix. *)
Lemma slice_prefix {A} (l : list A) (n : Z) :
  exists k, slice l 0 n = firstn k l
            /\ (0 <= n -> k = Z.to_nat n)
            /\ ((length (slice l 0 n) < length l)%nat -> n < Z.of_nat (length l)).
Proof.
  unfold slice. change (0 <? 0) with false. cbv iota.
  replace (Z.min 0 (Z.of_nat (length l))) with 0 by lia.
  change (Z.to_nat 0) with 0%nat. rewrite skipn_O.
  destruct (Z.ltb_spec n 0) as [Hneg | Hpos].
  - eexists. split; [reflexivity|]. split; lia.
  - destruct (Z.le_gt_cases (Z.of_nat (length l)) n) as [Hbig | Hsmall].
    + exists (Z.to_nat n). rewrite Z.min_r by lia. rewrite Z.sub_0_r.
      rewrite Nat2Z.id. rewrite !firstn_all2 by lia. repeat split. intros H. lia.
    + exists (Z.to_nat n). rewrite Z.min_l by lia. rewrite Z.sub_0_r. repeat split.
      intros _. lia.
Qed.

(** The traversal collects nothing when the effective limit is not positive. *)
Lemma collectAll_nothing (w : World) (fuel : nat) (rules : CrawlFrontierRules)
    (effectiveLimit : Z) (discovered : list DiscoveredSitemap) (st st' : St)
    (allUrls : list FrontierUrl) (k : Z) :
  effectiveLimit <= 0 -> discovered <> [] ->
  collectAll w fuel rules effectiveLimit discovered [] 0 st = Some ((allUrls, k), st') ->
  allUrls = [].
Proof.
  intros Hle Hne H. destruct discovered as [|sm rest]; [contradiction|].
  cbn [collectAll length] in H.
  destruct (Z.geb_spec (Z.of_nat 0) effectiveLimit) as [_ | Hlt]; [|lia].
  now injection H as <- _ _.
Qed.

(* ===================================================================== *)
(** * Facts about the sources of matchesPattern *)
(* ===================================================================== *)

Module PatternFacts.

Import RegExp.

Ltac each_ascii c := destruct c as [[] [] [] [] [] [] [] []].

(** An escaped character is read as that character. *)
Lemma tokenize_escaped (c : ascii) (r : string) :
  isEscapedByPattern c = true ->
  tokenize (String "\" (String c r)) = TChar c :: tokenize r
  /\ starsToDotStar (String "\" (String c r)) = String "\" (String c (starsToDotStar r)).
Proof. each_ascii c; intros H; try discriminate H; split; reflexivity. Qed.

(** A character that is neither escaped, nor a star, nor a question mark is
    an ordinary character of the source. *)
Lemma tokenize_plain (c : ascii) (r : string) :
  isEscapedByPattern c = false -> Ascii.eqb c "*" = false -> Ascii.eqb c "?" = false ->
  tokenize (String c r) = TChar c :: tokenize r
  /\ starsToDotStar (String c r) = String c (starsToDotStar r).
Proof.
  each_ascii c; intros H1 H2 H3;
    try discriminate H1; try discriminate H2; try discriminate H3; split; reflexivity.
Qed.

Lemma consItem_compiled (i : item) (r : compiled) (items : list item) :
  r = Compiled items -> consItem i r = Compiled (i :: items).
Proof. now intros ->. Qed.

(** After an atom, a source that compiles starts with no quantifier. *)
Lemma term_one (a : atom) (ts : list token) (items : list item) :
  parseTokens ts = Compiled items ->
  parseTokens ((match a with AnyChar => TDot | Char c => TChar c end) :: ts)
  = Compiled (Term a One :: items).
Proof.
  intros H. destruct ts as [|[] ts]; try discriminate H;
    destruct a; cbn [parseTokens]; now apply consItem_compiled.
Qed.

Lemma term_star (ts : list token) (items : list item) :
  parseTokens ts = Compiled items ->
  parseTokens (TDot :: TStar :: ts) = Compiled (Term AnyChar Star :: items).
Proof.
  intros H. destruct ts as [|[] ts]; try discriminate H;
    cbn [parseTokens]; now apply consItem_compiled.
Qed.

(** The source of a pattern without question mark compiles to the terms of
    the glob between the two assertions. *)
Lemma compile_body (p : string) :
  questionFree p = true ->
  parseTokens (tokenize (starsToDotStar (escapeSpecials p) +:+ "$"))
  = Compiled (globItems p ++ [AssertEnd]).
Proof.
  unfold questionFree. induction p as [|c p IH]; [reflexivity|].
  cbn [Js.existsb_str]. rewrite negb_orb. intros H.
  apply andb_true_iff in H as [Hc Hp]. apply negb_true_iff in Hc.
  specialize (IH Hp). cbn [escapeSpecials globItems].
  destruct (isEscapedByPattern c) eqn:He.
  - destruct (tokenize_escaped c (escapeSpecials p) He) as [_ Hs]. rewrite Hs.
    destruct (tokenize_escaped c (starsToDotStar (escapeSpecials p) +:+ "$") He) as [Ht _].
    cbn [String.append]. rewrite Ht.
    assert (Hstar : Ascii.eqb c "*" = false) by (revert He; each_ascii c; easy).
    rewrite Hstar. now apply (term_one (Char c)).
  - destruct (Ascii.eqb_spec c "*") as [-> | Hstar].
    + cbn [starsToDotStar Ascii.eqb Bool.eqb String.append tokenize].
      now apply term_star.
    + apply Ascii.eqb_neq in Hstar.
      destruct (tokenize_plain c (escapeSpecials p) He Hstar Hc) as [_ Hs]. rewrite Hs.
      destruct (tokenize_plain c (starsToDotStar (escapeSpecials p) +:+ "$") He Hstar Hc)
        as [Ht _].
      cbn [String.append]. rewrite Ht. now apply (term_one (Char c)).
Qed.

Lemma compile_regexSource (p : string) :
  questionFree p = true ->
  compile (regexSource p) = Compiled (AssertStart :: globItems p ++ [AssertEnd]).
Proof.
  intros H. unfold compile, regexSource.
  change (tokenize ("^" +:+ starsToDotStar (escapeSpecials p) +:+ "$"))
    with (TCaret :: tokenize (starsToDotStar (escapeSpecials p) +:+ "$")).
  cbn [parseTokens]. now rewrite (compile_body p H).
Qed.

(** A regular expression that starts with [^] matches at the start only. *)
Lemma search_anchored (items : list item) (s : string) :
  search (AssertStart :: items) false s = false.
Proof. induction s as [|c s IH]; cbn [search matchHere andb orb]; [reflexivity | exact IH]. Qed.

Lemma test_anchored (items : list item) (s : string) :
  test (AssertStart :: items) s = matchHere items true s.
Proof.
  unfold test. destruct s as [|c s]; cbn [search matchHere andb].
  - apply orb_false_r.
  - rewrite search_anchored. apply orb_false_r.
Qed.

(** On a URL of one line, the terms of a glob match as the glob does. *)
Lemma matchHere_globItems (p u : string) (atStart : bool) :
  singleLine u = true ->
  matchHere (globItems p ++ [AssertEnd]) atStart u = globMatch p u.
Proof.
  unfold singleLine. revert u atStart. induction p as [|c p IH]; intros u atStart Hu.
  - destruct u; reflexivity.
  - cbn [globItems app]. destruct (Ascii.eqb_spec c "*") as [-> | Hc].
    + revert atStart. induction u as [|d u IHu]; intros atStart.
      * change (matchHere (Term AnyChar Star :: globItems p ++ [AssertEnd]) atStart EmptyString)
          with (matchHere (globItems p ++ [AssertEnd]) atStart EmptyString || false).
        change (globMatch (String "*" p) EmptyString) with (globMatch p EmptyString || false).
        now rewrite (IH EmptyString atStart Hu).
      * cbn [Js.existsb_str] in Hu. rewrite negb_orb in Hu.
        apply andb_true_iff in Hu as [Hd Hu']. apply negb_true_iff in Hd.
        specialize (IHu Hu').
        change (matchHere (Term AnyChar Star :: globItems p ++ [AssertEnd]) atStart (String d u))
          with (matchHere (globItems p ++ [AssertEnd]) atStart (String d u)
                || atomMatches AnyChar d
                   && matchHere (Term AnyChar Star :: globItems p ++ [AssertEnd]) false u).
        change (globMatch (String "*" p) (String d u))
          with (globMatch p (String d u) || globMatch (String "*" p) u).
        rewrite IHu. cbn [atomMatches]. rewrite Hd. cbn [negb andb].
        rewrite IH; [reflexivity|]. cbn [Js.existsb_str]. rewrite Hd. exact Hu'.
    + cbn [matchHere globMatch]. destruct (Ascii.eqb_spec c "*") as [? | _]; [contradiction|].
      destruct u as [|d u]; [reflexivity|].
      cbn [Js.existsb_str] in Hu. rewrite negb_orb in Hu.
      apply andb_true_iff in Hu as [_ Hu']. cbn [atomMatches]. now rewrite IH.
Qed.

(** Where the pattern has no question mark and the URL no line terminator,
    [matchesPattern] is the glob of the specification. *)
Lemma matchesPattern_glob (u pattern : string) :
  questionFree pattern = true -> singleLine u = true ->
  matchesPattern u pattern = globMatch pattern u.
Proof.
  intros Hp Hu. unfold matchesPattern. rewrite (compile_regexSource pattern Hp).
  rewrite test_anchored. now apply matchHere_globItems.
Qed.

(** Every token of a source that [matchesPattern] builds is in the grammar
    of the model. *)
Lemma tokenize_body_inGrammar (p : string) :
  inGrammar (tokenize (starsToDotStar (escapeSpecials p) +:+ "$")) = true.
Proof.
  induction p as [|c p IH]; [reflexivity|]. cbn [escapeSpecials].
  destruct (isEscapedByPattern c) eqn:He.
  - destruct (tokenize_escaped c (escapeSpecials p) He) as [_ Hs]. rewrite Hs.
    destruct (tokenize_escaped c (starsToDotStar (escapeSpecials p) +:+ "$") He) as [Ht _].
    cbn [String.append]. rewrite Ht. exact IH.
  - destruct (Ascii.eqb_spec c "*") as [-> | Hstar].
    { cbn [starsToDotStar Ascii.eqb Bool.eqb String.append tokenize inGrammar]. exact IH. }
    destruct (Ascii.eqb_spec c "?") as [-> | Hq].
    { cbn [starsToDotStar Ascii.eqb Bool.eqb String.append tokenize inGrammar]. exact IH. }
    apply Ascii.eqb_neq in Hstar, Hq.
    destruct (tokenize_plain c (escapeSpecials p) He Hstar Hq) as [_ Hs]. rewrite Hs.
    destruct (tokenize_plain c (starsToDotStar (escapeSpecials p) +:+ "$") He Hstar Hq)
      as [Ht _].
    cbn [String.append]. rewrite Ht. exact IH.
Qed.

Lemma consItem_supported (i : item) (r : compiled) :
  r <> Unsupported -> consItem i r <> Unsupported.
Proof. destruct r; easy. Qed.

Lemma parseTokens_supported (ts : list token) :
  inGrammar ts = true -> parseTokens ts <> Unsupported.
Proof.
  remember (length ts) as n eqn:Hn. revert ts Hn.
  induction n as [n IH] using lt_wf_ind. intros ts -> Hg.
  assert (Hrec : forall r, (length r < length ts)%nat -> inGrammar r = true ->
                           parseTokens r <> Unsupported).
  { intros r Hlen Hr. exact (IH (length r) Hlen r eq_refl Hr). }
  clear IH.
  destruct ts as [|t ts]; [discriminate|].
  destruct t; cbn [inGrammar] in Hg; try discriminate Hg; cbn [parseTokens]; try discriminate.
  - destruct ts as [|[] [|[] ts2]]; cbn [inGrammar] in Hg; try discriminate Hg;
      apply consItem_supported; apply Hrec; cbn [length inGrammar]; (lia || assumption).
  - destruct ts as [|[] [|[] ts2]]; cbn [inGrammar] in Hg; try discriminate Hg;
      apply consItem_supported; apply Hrec; cbn [length inGrammar]; (lia || assumption).
  - apply consItem_supported, Hrec; [cbn; lia | assumption].
  - apply consItem_supported, Hrec; [cbn; lia | assumption].
Qed.

(** So the source of any pattern is compiled or rejected by the model. *)
Lemma compile_regexSource_supported (p : string) :
  compile (regexSource p) <> Unsupported.
Proof.
  unfold compile, regexSource.
  change (tokenize ("^" +:+ starsToDotStar (escapeSpecials p) +:+ "$"))
    with (TCaret :: tokenize (starsToDotStar (escapeSpecials p) +:+ "$")).
  cbn [parseTokens]. apply consItem_supported, parseTokens_supported, tokenize_body_inGrammar.
Qed.

End PatternFacts.
(* ===================================================================== *)
(** * The trace of the traversal of the Frontier Builder *)
(* ===================================================================== *)

Lemma Collected_more (rules : CrawlFrontierRules) (requested requested' : list string)
    (l : list FrontierUrl) :
  (forall s, In s requested -> In s requested') ->
  Forall (Collected rules requested) l -> Forall (Collected rules requested') l.
Proof.
  intros Hsub H. eapply Forall_impl; [exact H|]. intros x [H1 H2]. split; auto.
Qed.

Lemma collectEntries_trace (sitemapUrl : string) (rules : CrawlFrontierRules) (maxUrls : Z) :
  forall (entries : list SitemapEntry) (acc : list FrontierUrl),
    Forall (Collected rules [sitemapUrl]) acc ->
    Forall (Collected rules [sitemapUrl]) (collectEntries sitemapUrl rules maxUrls entries acc)
    /\ Z.of_nat (length (collectEntries sitemapUrl rules maxUrls entries acc))
       <= Z.max (Z.of_nat (length acc)) maxUrls.
Proof.
  induction entries as [|entry rest IH]; intros acc Hacc; cbn [collectEntries].
  - split; [exact Hacc | lia].
  - destruct (Z.geb_spec (Z.of_nat (length acc)) maxUrls) as [Hfull | Hroom].
    + split; [exact Hacc | lia].
    + destruct (passesFilters (loc entry) rules) eqn:Hpass; [|now apply IH].
      match goal with
      | |- context [collectEntries _ _ _ rest ?acc'] =>
          destruct (IH acc') as [Hall Hlen]
      end.
      { apply Forall_app. split; [exact Hacc|]. constructor; [|constructor].
        split; [exact Hpass | now left]. }
      split; [exact Hall|]. rewrite length_app in Hlen. cbn [length] in Hlen. lia.
Qed.

Section CollectTrace.

Variable w : World.
Variable rules : CrawlFrontierRules.

Lemma collectChildren_trace (self : string -> Z -> M (list FrontierUrl * Z)) :
  (forall u m st found k st', self u m st = Some ((found, k), st') -> Traced rules m st st' found k) ->
  forall children maxUrls acc n st found k st',
    collectChildren self maxUrls children acc n st = Some ((found, k), st') ->
    exists new,
      fetched st' = fetched st ++ new
      /\ (forall base, Forall (Collected rules base) acc ->
                       Forall (Collected rules (base ++ new)) found)
      /\ Z.of_nat (length found) <= Z.max (Z.of_nat (length acc)) maxUrls
      /\ n <= k <= n + Z.of_nat (length new).
Proof.
  intros Hself. induction children as [|c cs IH]; intros maxUrls acc n st found k st' H.
  - injection H as <- <- <-. exists []. rewrite !app_nil_r. repeat split; auto; try lia.
    intros base. now rewrite app_nil_r.
  - cbn [collectChildren] in H.
    destruct (Z.geb_spec (Z.of_nat (length acc)) maxUrls) as [Hfull | Hroom].
    + injection H as <- <- <-. exists []. rewrite !app_nil_r. repeat split; auto; try lia.
      intros base. now rewrite app_nil_r.
    + apply bind_inv in H as ([found1 k1] & st1 & Hc & H). cbv beta iota in H.
      apply Hself in Hc as (new1 & Hf1 & Hall1 & Hlen1 & Hk1).
      apply IH in H as (new2 & Hf2 & Hall2 & Hlen2 & Hk2).
      exists (new1 ++ new2). split; [now rewrite Hf2, Hf1, app_assoc|]. split; [|split].
      * intros base Hacc. rewrite app_assoc. apply Hall2. apply Forall_app. split.
        -- eapply Collected_more; [|exact Hacc]. intros s Hs. apply in_or_app. now left.
        -- eapply Collected_more; [|exact Hall1]. intros s Hs. apply in_or_app. now right.
      * rewrite length_app in Hlen2. lia.
      * rewrite length_app. lia.
Qed.

Lemma collect_trace (fuel : nat) :
  forall u maxUrls st found k st',
    collectUrlsFromSitemap w fuel rules u maxUrls st = Some ((found, k), st') ->
    Traced rules maxUrls st st' found k.
Proof.
  induction fuel as [|fuel IH]; intros u maxUrls st found k st' H; [discriminate|].
  rewrite collect_unfold in H.
  destruct (bool_decide (u ∈ visited st)).
  { injection H as <- <- <-. exists []. rewrite app_nil_r. repeat split; auto; cbn; lia. }
  cbv zeta in H.
  destruct (readSitemap w u (fetch w u)) as [parsed|e].
  - destruct (isIndex parsed).
    + apply (collectChildren_trace _ IH) in H as (new & Hf & Hall & Hlen & Hk).
      cbn [fetched] in Hf. exists (u :: new). split; [now rewrite Hf, <- app_assoc|].
      split; [exact (Hall [u] ltac:(constructor))|]. cbn [length] in *. lia.
    + injection H as <- <- <-. exists [u]. split; [reflexivity|].
      destruct (collectEntries_trace u rules maxUrls (urls parsed) [] ltac:(constructor))
        as [Hall Hlen].
      split; [exact Hall|]. cbn [length] in *. lia.
  - injection H as <- <- <-. exists [u]. repeat split; auto; cbn; lia.
Qed.

Lemma collectAll_trace (fuel : nat) (effectiveLimit : Z) :
  forall discovered acc n st found k st',
    collectAll w fuel rules effectiveLimit discovered acc n st = Some ((found, k), st') ->
    exists new,
      fetched st' = fetched st ++ new
      /\ (forall base, Forall (Collected rules base) acc ->
                       Forall (Collected rules (base ++ new)) found)
      /\ Z.of_nat (length found) <= Z.max (Z.of_nat (length acc)) effectiveLimit
      /\ n <= k <= n + Z.of_nat (length new).
Proof.
  induction discovered as [|sm rest IH]; intros acc n st found k st' H.
  - injection H as <- <- <-. exists []. rewrite !app_nil_r. repeat split; auto; try lia.
    intros base. now rewrite app_nil_r.
  - cbn [collectAll] in H.
    destruct (Z.geb_spec (Z.of_nat (length acc)) effectiveLimit) as [Hfull | Hroom].
    + injection H as <- <- <-. exists []. rewrite !app_nil_r. repeat split; auto; try lia.
      intros base. now rewrite app_nil_r.
    + apply bind_inv in H as ([found1 k1] & st1 & Hc & H). cbv beta iota in H.
      apply collect_trace in Hc as (new1 & Hf1 & Hall1 & Hlen1 & Hk1).
      apply IH in H as (new2 & Hf2 & Hall2 & Hlen2 & Hk2).
      exists (new1 ++ new2). split; [now rewrite Hf2, Hf1, app_assoc|]. split; [|split].
      * intros base Hacc. rewrite app_assoc. apply Hall2. apply Forall_app. split.
        -- eapply Collected_more; [|exact Hacc]. intros s Hs. apply in_or_app. now left.
        -- eapply Collected_more; [|exact Hall1]. intros s Hs. apply in_or_app. now right.
      * rewrite length_app in Hlen2. lia.
      * rewrite length_app. lia.
Qed.

End CollectTrace.

(* ===================================================================== *)
(** * The run of a frontier build *)
(* ===================================================================== *)



(* ===================================================================== *)
(** * The trace of discovery *)
(* ===================================================================== *)

Lemma parseSitemapsFromRobotsTxt_run (w : World) (robotsTxtUrl : string) (st : St) :
  parseSitemapsFromRobotsTxt w robotsTxtUrl st
  = Some ((robotsDirectives w robotsTxtUrl, robotsAnswers w robotsTxtUrl),
          logged st robotsTxtUrl).
Proof.
  unfold parseSitemapsFromRobotsTxt, robotsDirectives, robotsAnswers, bind, fetchM, ret, logged.
  destruct (fetch w robotsTxtUrl) as [response|e]; [|reflexivity].
  now destruct (resp_ok response).
Qed.


Section DiscoveryTrace.

Variable w : World.

Lemma classifyProbe_from (c : string) (d : DiscoveredFrom) (outcome : Try HttpResponse)
    (sm : DiscoveredSitemap) :
  classifyProbe w c d outcome = Some sm -> ds_url sm = c /\ discovered_from sm = d.
Proof.
  unfold classifyProbe. destruct outcome as [response|e]; [|discriminate].
  destruct (negb (resp_ok response)); [discriminate|].
  destruct (readContent w c response); [|discriminate]. now intros [= <-].
Qed.

Lemma Recorded_add (st : St) (acc : list DiscoveredSitemap) (sm : DiscoveredSitemap)
    (log : list string) :
  Recorded st acc -> ds_url sm ∉ visited st ->
  Recorded {| visited := {[ds_url sm]} ∪ visited st; fetched := log |} (acc ++ [sm]).
Proof.
  intros [Hv Hd] Hnew. split; cbn [visited].
  - rewrite map_app, list_to_set_app_L, Hv. cbn. set_solver.
  - rewrite map_app. apply NoDup_app. repeat split; [exact Hd | | apply NoDup_singleton].
    intros x Hx Hx'. apply list_elem_of_singleton in Hx'. subst x.
    apply Hnew. rewrite Hv. now apply elem_of_list_to_set.
Qed.

(** One probe of a candidate that is not marked. *)
Lemma probeCandidate_trace (fuel : nat) (c : string) (d : DiscoveredFrom)
    (acc acc' : list DiscoveredSitemap) (st st' : St) :
  probeCandidate w (S fuel) c d acc st = Some (acc', st') ->
  c ∉ visited st -> Recorded st acc ->
  fetched st' = fetched st ++ [c]
  /\ Recorded st' acc'
  /\ exists found, acc' = acc ++ found
                   /\ sublist (map ds_url found) [c]
                   /\ Forall (fun sm => discovered_from sm = d) found.
Proof.
  rewrite probeCandidate_run. intros H Hc Hrec.
  destruct (classifyProbe w c d (fetch w c)) as [sm|] eqn:Hsm; injection H as <- <-.
  - destruct (classifyProbe_from c d _ sm Hsm) as [Hurl Hfrom].
    split; [reflexivity|]. split; [rewrite <- Hurl; apply Recorded_add; now rewrite ?Hurl|].
    exists [sm]. split; [reflexivity|]. split; [now rewrite <- Hurl | now constructor].
  - split; [reflexivity|]. split; [exact Hrec|].
    exists []. rewrite app_nil_r. split; [reflexivity|]. split; [apply sublist_nil_l | constructor].
Qed.

(** A loop of probes over candidates. *)
Lemma probeUnvisited_trace (fuel : nat) (d : DiscoveredFrom) :
  forall (candidates : list string) (acc acc' : list DiscoveredSitemap) (st st' : St),
    probeUnvisited w (S fuel) candidates d acc st = Some (acc', st') ->
    Recorded st acc ->
    exists found probes,
      acc' = acc ++ found
      /\ fetched st' = fetched st ++ probes
      /\ sublist probes candidates
      /\ sublist (map ds_url found) probes
      /\ Forall (fun sm => discovered_from sm = d) found
      /\ Recorded st' acc'.
Proof.
  induction candidates as [|c cs IH]; intros acc acc' st st' H Hrec.
  - injection H as <- <-. exists [], []. rewrite !app_nil_r.
    repeat split; auto; try constructor; apply Hrec.
  - cbn [probeUnvisited] in H. unfold bind at 1 in H. unfold visited_has at 1 in H.
    destruct (bool_decide_reflect (c ∈ visited st)) as [Hin | Hout]; cbn [negb] in H.
    + destruct (IH _ _ _ _ H Hrec) as (found & probes & Ha & Hf & Hs & Hu & Hd & Hr).
      exists found, probes. repeat split; auto; try apply Hr. now apply sublist_cons.
    + apply bind_inv in H as (acc1 & st1 & H1 & H).
      destruct (probeCandidate_trace _ _ _ _ _ _ _ H1 Hout Hrec)
        as (Hf1 & Hr1 & found1 & -> & Hu1 & Hd1).
      destruct (IH _ _ _ _ H Hr1) as (found & probes & -> & Hf & Hs & Hu & Hd & Hr).
      exists (found1 ++ found), (c :: probes). rewrite app_assoc. split; [reflexivity|].
      split; [now rewrite Hf, Hf1, <- app_assoc|].
      split; [now apply sublist_skip|].
      split; [rewrite map_app; now apply (sublist_app _ [c])|].
      split; [now apply Forall_app | exact Hr].
Qed.

(** What [discoverSitemaps] asks for and what it reports, once its argument
    is accepted. *)
Lemma discoverSitemaps_trace (fuel : nat) (u n : string) (urlObj : URLRecord) (st : St) :
  u <> EmptyString -> normalizeUrl w u = Some n -> parseURL w n = Some urlObj ->
  exists found probes st',
    discoverSitemaps w (S fuel) u st
    = Some (Success
              {| domain := origin urlObj;
                 sitemaps := found;
                 robots_txt_found := robotsAnswers w (origin urlObj +:+ "/robots.txt") |}
              {| source := Some n;
                 pagination := None;
                 warnings := Some (if (length found =? 0)%nat
                                   then ["No sitemaps found for this domain"] else []) |},
            st')
    /\ fetched st'
       = fetched st ++ (origin urlObj +:+ "/sitemap.xml")
                       :: (origin urlObj +:+ "/robots.txt") :: probes
    /\ sublist probes (robotsDirectives w (origin urlObj +:+ "/robots.txt")
                       ++ alternativePlaces (origin urlObj))
    /\ sublist (map ds_url found) ((origin urlObj +:+ "/sitemap.xml") :: probes)
    /\ NoDup (map ds_url found)
    /\ Forall (fun sm => discovered_from sm = standard_location
                         \/ discovered_from sm = robots_txt) found.
Proof.
  intros Hne Hn Hurl. unfold discoverSitemaps.
  destruct (String.eqb_spec u EmptyString) as [? | _]; [contradiction|].
  rewrite Hn, Hurl.
  unfold bind at 1. unfold visited_new at 1.
  set (st0 := {| visited := ∅; fetched := fetched st |}).
  assert (Hrec0 : Recorded st0 []) by (split; [reflexivity | constructor]).
  destruct (probeCandidate_returns w fuel (origin urlObj +:+ "/sitemap.xml")
              standard_location [] st0) as (s1 & st1 & H1).
  rewrite (bind_run _ _ _ _ _ H1).
  destruct (probeCandidate_trace _ _ _ _ _ _ _ H1 ltac:(cbn; set_solver) Hrec0)
    as (Hf1 & Hr1 & found1 & Ha1 & Hu1 & Hd1).
  cbn [app] in Ha1. subst s1.
  rewrite (bind_run _ _ _ _ _
             (parseSitemapsFromRobotsTxt_run w (origin urlObj +:+ "/robots.txt") st1)).
  set (st2 := logged st1 (origin urlObj +:+ "/robots.txt")).
  assert (Hr2 : Recorded st2 found1) by exact Hr1.
  destruct (probeUnvisited_returns w fuel robots_txt
              (robotsDirectives w (origin urlObj +:+ "/robots.txt")) found1 st2)
    as (s2 & st3 & H3).
  rewrite (bind_run _ _ _ _ _ H3). cbv zeta.
  destruct (probeUnvisited_trace _ _ _ _ _ _ _ H3 Hr2)
    as (found2 & probes2 & -> & Hf2 & Hs2 & Hu2 & Hd2 & Hr3).
  change [origin urlObj +:+ "/sitemap_index.xml"; origin urlObj +:+ "/sitemap.xml.gz";
          origin urlObj +:+ "/sitemaps/sitemap.xml"]
    with (alternativePlaces (origin urlObj)).
  destruct (probeUnvisited_returns w fuel standard_location
              (alternativePlaces (origin urlObj)) (found1 ++ found2) st3)
    as (s3 & st4 & H4).
  rewrite (bind_run _ _ _ _ _ H4).
  destruct (probeUnvisited_trace _ _ _ _ _ _ _ H4 Hr3)
    as (found3 & probes3 & -> & Hf3 & Hs3 & Hu3 & Hd3 & Hr4).
  exists ((found1 ++ found2) ++ found3), (probes2 ++ probes3), st4.
  split; [reflexivity|].
  split.
  { rewrite Hf3, Hf2. unfold st2, logged. cbn [fetched]. rewrite Hf1. unfold st0. cbn [fetched].
    rewrite <- !app_assoc. reflexivity. }
  split; [now apply sublist_app|].
  split.
  { rewrite !map_app, <- app_assoc.
    apply (sublist_app _ [origin urlObj +:+ "/sitemap.xml"]); [exact Hu1|].
    now apply sublist_app. }
  split; [apply Hr4|].
  rewrite !Forall_app. repeat split.
  - eapply Forall_impl; [exact Hd1|]. intros sm ->. now left.
  - eapply Forall_impl; [exact Hd2|]. intros sm ->. now right.
  - eapply Forall_impl; [exact Hd3|]. intros sm ->. now left.
Qed.

End DiscoveryTrace.

(* ===================================================================== *)
(** * The two stages of a frontier build *)
(* ===================================================================== *)


(* ===================================================================== *)
(** * The probe of the Discoverer *)
(* ===================================================================== *)

(** C10, as amended.  A candidate that answers with a successful response
    is reported whenever its body can be decoded, whatever the body says: as
    a sitemap index exactly when the decoded body contains the text
    <sitemapindex, as a sitemap otherwise.  The decoded body is the body
    itself, or the inflated body when the URL ends in .gz or the content type
    mentions gzip.  The XML parser plays no part in it.  A candidate whose
    body is to be inflated and cannot be is not reported. *)
Theorem checkSitemap_classifies_by_substring
    (w : World) (u : string) (d : DiscoveredFrom) (response : HttpResponse) (st : St) :
  fetch w u = Ret response ->
  resp_ok response = true ->
  let gzipped :=
    Js.endsWith u ".gz"
    || Js.includes (Js.nullish (resp_contentType response) EmptyString) "gzip" in
  let report (content : string) :=
    Some {| ds_url := u;
            ds_type := if Js.includes content "<sitemapindex" then sitemap_index else sitemap;
            discovered_from := d |} in
  (gzipped = false ->
   checkSitemap w u d st = Some (report (resp_body response), logged st u))
  /\ (gzipped = true ->
      forall content, gunzip w (resp_body response) = Ret content ->
                      checkSitemap w u d st = Some (report content, logged st u))
  /\ (gzipped = true ->
      forall e, gunzip w (resp_body response) = Throw e ->
                checkSitemap w u d st = Some (None, logged st u)).
Proof.
  intros Hfetch Hok gzipped report.
  assert (Hclass : forall content,
    readContent w u response = Ret content ->
    checkSitemap w u d st = Some (report content, logged st u)).
  { intros content Hread. rewrite checkSitemap_run, Hfetch.
    unfold classifyProbe, report. rewrite Hok, Hread. cbn [negb].
    destruct (Js.includes content "<sitemapindex") eqn:E; [reflexivity|].
    destruct (Js.includes content "<sitemapindex>") eqn:E'; [|reflexivity].
    apply (StringFacts.includes_app content "<sitemapindex" ">") in E'. congruence. }
  split; [|split].
  - intros Hg. apply Hclass. unfold readContent. fold gzipped. now rewrite Hg.
  - intros Hg content Hz. apply Hclass. unfold readContent. fold gzipped. now rewrite Hg.
  - intros Hg e Hz. rewrite checkSitemap_run, Hfetch. unfold classifyProbe, readContent.
    fold gzipped. now rewrite Hok, Hg, Hz.
Qed.

(** A page of HTML that mentions the tag is reported as an index, although
    the parser rejects it. *)
Lemma checkSitemap_classifies_html :
  xmlParse Fixtures.notXml "<html><body>see <sitemapindex for details</body></html>"
  = Throw (ErrorObj "Error" "Unexpected end of input")
  /\ checkSitemap Fixtures.notXml "https://example.com/feed" robots_txt initial
     = Some (Some {| ds_url := "https://example.com/feed";
                     ds_type := sitemap_index;
                     discovered_from := robots_txt |},
             logged initial "https://example.com/feed").
Proof.
  split; [reflexivity|].
  exact (proj1 (checkSitemap_classifies_by_substring Fixtures.notXml
                  "https://example.com/feed" robots_txt _ initial eq_refl eq_refl)
           eq_refl).
Defined.

(** A sitemap served as plain text at the address /sitemap.xml.gz answers
    with a successful response and a body without the text <sitemapindex;
    it is not reported as a sitemap, and discovery finds nothing. *)
Lemma checkSitemap_drops_plain_gz :
  fetch Fixtures.plainAtGz Fixtures.GZ = Fixtures.ok200 ("<urlset>" +:+ Fixtures.P1)
  /\ Js.includes ("<urlset>" +:+ Fixtures.P1) "<sitemapindex" = false
  /\ checkSitemap Fixtures.plainAtGz Fixtures.GZ standard_location initial
     = Some (None, logged initial Fixtures.GZ)
  /\ (exists data meta st',
        discoverSitemaps Fixtures.plainAtGz 2 "example.com" initial
        = Some (Success data meta, st')
        /\ sitemaps data = []).
Proof.
  split; [reflexivity|]. split; [reflexivity|]. split; [reflexivity|].
  do 3 eexists. split; [vm_compute; reflexivity | reflexivity].
Qed.

(* ===================================================================== *)
(** * What the Enumerator rejects *)
(* ===================================================================== *)

Lemma listFailure_not_invalid (u : string) (e : Thrown) (message : string) :
  listFailure u e <> Failure INVALID_INPUT message.
Proof.
  unfold listFailure, createErrorResponse. destruct e as [name msg|]; [|discriminate].
  repeat match goal with |- context [if ?b then _ else _] => destruct b end; discriminate.
Qed.

Lemma listPage_not_invalid (u : string) (p : Z) (o : OffsetValue) (parsed : ParsedSitemap)
    (message : string) :
  listPage u p o parsed <> Returned (Failure INVALID_INPUT message).
Proof. destruct o; discriminate. Qed.

Lemma listSitemapUrls_rejects_iff (w : World) (sitemapUrl : string) (limit : option Z)
    (cursor : option string) (st : St) :
  rejectsInput (listSitemapUrls w sitemapUrl limit cursor st) <-> badListInput w sitemapUrl cursor.
Proof.
  unfold rejectsInput, badListInput, listSitemapUrls.
  destruct (String.eqb_spec sitemapUrl EmptyString) as [-> | Hne].
  { split; [now left | intros _; now do 2 eexists]. }
  destruct (isValidUrl w sitemapUrl) eqn:Hvalid; cbn [negb].
  2:{ split; [now (right; left) | intros _; now do 2 eexists]. }
  assert (Hproceed : forall o message st',
    bind (fetchSitemap w sitemapUrl)
      (fun fetched => match fetched with
                      | Throw error => ret (Returned (listFailure sitemapUrl error))
                      | Ret parsed => ret (listPage sitemapUrl (pageLimit limit) o parsed)
                      end) st
    <> Some (Returned (Failure INVALID_INPUT message), st')).
  { intros o message st' H. rewrite (bind_run _ _ _ _ _ (fetchSitemap_run w sitemapUrl st)) in H.
    destruct (readSitemap w sitemapUrl (fetch w sitemapUrl)); cbv [ret] in H;
      injection H as H _;
      [now apply listPage_not_invalid in H | now apply listFailure_not_invalid in H]. }
  destruct cursor as [[|c0 c]|].
  - split.
    + intros (message & st' & H). now apply Hproceed in H.
    + intros [? | [? | (c & Hc & Hn & _)]]; [easy | easy |]. now injection Hc as <-.
  - destruct (Json.truthy (decodeCursor (String c0 c))) eqn:Ht; cbn [negb].
    + split.
      * intros (message & st' & H). now apply Hproceed in H.
      * intros [? | [? | (c' & Hc & _ & Hf)]]; [easy | easy |].
        injection Hc as <-. congruence.
    + split; [|intros _; now do 2 eexists].
      intros _. right. right. exists (String c0 c). now repeat split.
  - split.
    + intros (message & st' & H). now apply Hproceed in H.
    + intros [? | [? | (c & Hc & _)]]; [easy | easy | discriminate].
Qed.
(* ===================================================================== *)
(** * Validation in the Frontier Builder *)
(* ===================================================================== *)

Lemma hasEmptyPattern_lists (l : list string) :
  In EmptyString l -> hasEmptyPattern (Some l) = true.
Proof.
  intros H. unfold hasEmptyPattern. apply existsb_exists.
  exists EmptyString. now split.
Qed.

(** C6, as amended.  A call whose include list holds an empty pattern ends
    in an INVALID_INPUT envelope in the state it started in, so before any
    fetch; when the seed URL passes its own validation the message is the one
    about Include patterns.  The same holds for the exclude list and the
    message about Exclude patterns, when no include pattern is empty. *)
Theorem empty_pattern_fails_fast
    (w : World) (fuel : nat) (seedUrl : string) (rules : CrawlFrontierRules)
    (limit : option Z) (st : St) (l : list string) :
  In EmptyString l ->
  (include rules = Some l ->
   exists message,
     buildCrawlFrontier w fuel seedUrl (Some rules) limit st
     = Some (Failure INVALID_INPUT message, st)
     /\ (seedUrl <> EmptyString -> normalizeUrl w seedUrl <> None ->
         message = "Include patterns must be non-empty strings"
         /\ Js.includes message "Include patterns" = true))
  /\ (exclude rules = Some l ->
      exists message,
        buildCrawlFrontier w fuel seedUrl (Some rules) limit st
        = Some (Failure INVALID_INPUT message, st)
        /\ (seedUrl <> EmptyString -> normalizeUrl w seedUrl <> None ->
            hasEmptyPattern (include rules) = false ->
            message = "Exclude patterns must be non-empty strings"
            /\ Js.includes message "Exclude patterns" = true)).
Proof.
  intros Hin. unfold buildCrawlFrontier.
  destruct (String.eqb_spec seedUrl EmptyString) as [-> | Hseed].
  { split; intros _; eexists; (split; [reflexivity | easy]). }
  destruct (normalizeUrl w seedUrl) as [n|].
  2:{ split; intros _; eexists; (split; [reflexivity | easy]). }
  split; intros Hl.
  - assert (Hi : hasEmptyPattern (include (normalizeRules (Some rules))) = true).
    { cbn. rewrite Hl. now apply hasEmptyPattern_lists. }
    rewrite Hi. eexists. split; [reflexivity|]. intros _ _. now split.
  - assert (He : hasEmptyPattern (exclude (normalizeRules (Some rules))) = true).
    { cbn. rewrite Hl. now apply hasEmptyPattern_lists. }
    destruct (hasEmptyPattern (include (normalizeRules (Some rules)))) eqn:Hi.
    + eexists. split; [reflexivity|]. intros _ _ Hno. exfalso.
      cbn in Hi. destruct (include rules) as [li|]; cbn in *; congruence.
    + rewrite He. eexists. split; [reflexivity|]. intros _ _ _. now split.
Qed.

(** An empty pattern in the include list, and one in the exclude list, where
    no request would be answered. *)
Lemma empty_pattern_fails_fast_example :
  buildCrawlFrontier Fixtures.unreachable 1 "https://example.com"
    (Some {| include := Some [EmptyString]; exclude := None; max_urls := None |})
    None initial
  = Some (Failure INVALID_INPUT "Include patterns must be non-empty strings", initial)
  /\ buildCrawlFrontier Fixtures.unreachable 1 "https://example.com"
       (Some {| include := Some ["*blog*"]; exclude := Some ["*draft*"; EmptyString];
                max_urls := None |})
       None initial
     = Some (Failure INVALID_INPUT "Exclude patterns must be non-empty strings", initial).
Proof.
  split.
  - destruct (empty_pattern_fails_fast Fixtures.unreachable 1 "https://example.com"
                {| include := Some [EmptyString]; exclude := None; max_urls := None |}
                None initial [EmptyString] (or_introl eq_refl)) as [Hinclude _].
    destruct (Hinclude eq_refl) as (message & Hrun & Hmsg).
    destruct (Hmsg ltac:(discriminate) ltac:(discriminate)) as [-> _].
    exact Hrun.
  - destruct (empty_pattern_fails_fast Fixtures.unreachable 1 "https://example.com"
                {| include := Some ["*blog*"]; exclude := Some ["*draft*"; EmptyString];
                   max_urls := None |}
                None initial ["*draft*"; EmptyString] (or_intror (or_introl eq_refl)))
      as [_ Hexclude].
    destruct (Hexclude eq_refl) as (message & Hrun & Hmsg).
    destruct (Hmsg ltac:(discriminate) ltac:(discriminate) eq_refl) as [-> _].
    exact Hrun.
Defined.

(** With an empty seed URL the call is rejected for its seed, and an empty
    pattern in both lists is reported for the include list only. *)
Lemma empty_pattern_other_messages :
  buildCrawlFrontier Fixtures.unreachable 1 EmptyString
    (Some {| include := Some [EmptyString]; exclude := None; max_urls := None |})
    None initial
  = Some (Failure INVALID_INPUT "seed_url is required and must be a string", initial)
  /\ Js.includes "seed_url is required and must be a string" "Include patterns" = false
  /\ buildCrawlFrontier Fixtures.unreachable 1 "https://example.com"
       (Some {| include := Some [EmptyString]; exclude := Some [EmptyString];
                max_urls := None |})
       None initial
     = Some (Failure INVALID_INPUT "Include patterns must be non-empty strings", initial)
  /\ Js.includes "Include patterns must be non-empty strings" "Exclude patterns" = false.
Proof. repeat split. Qed.

(** C7.  When the discovery step succeeds and finds no sitemap, the call
    succeeds: its frontier is empty, it counts no URL and no processed
    sitemap, and it carries the warning that no sitemaps were found. *)
Theorem empty_discovery_is_success
    (w : World) (fuel : nat) (seedUrl : string) (rules : option CrawlFrontierRules)
    (limit : option Z) (st st1 : St) (n : string)
    (data : DiscoverSitemapsData) (meta : ResponseMeta) :
  seedUrl <> EmptyString ->
  normalizeUrl w seedUrl = Some n ->
  hasEmptyPattern (include (normalizeRules rules)) = false ->
  hasEmptyPattern (exclude (normalizeRules rules)) = false ->
  discoverSitemaps w fuel n st = Some (Success data meta, st1) ->
  sitemaps data = [] ->
  buildCrawlFrontier w fuel seedUrl rules limit st
  = Some (Success
            {| seed_url := n; frontier := []; total_urls := 0; sitemaps_processed := 0;
               rules_applied := normalizeRules rules |}
            {| source := Some n; pagination := None;
               warnings := Some ["No sitemaps found for this domain. Frontier is empty."] |},
          st1).
Proof.
  intros Hseed Hn Hi He Hd Hs. unfold buildCrawlFrontier.
  destruct (String.eqb_spec seedUrl EmptyString) as [? | _]; [contradiction|].
  rewrite Hn, Hi, He. rewrite (bind_run _ _ _ _ _ Hd). now rewrite Hs.
Qed.

(** A domain where every request times out has no sitemap to discover. *)
Lemma empty_discovery_unreachable :
  exists st1,
    buildCrawlFrontier Fixtures.unreachable 1 "example.com" None None initial
    = Some (Success
              {| seed_url := "https://example.com"; frontier := []; total_urls := 0;
                 sitemaps_processed := 0; rules_applied := normalizeRules None |}
              {| source := Some "https://example.com"; pagination := None;
                 warnings := Some ["No sitemaps found for this domain. Frontier is empty."] |},
            st1).
Proof.
  eexists.
  refine (empty_discovery_is_success Fixtures.unreachable 1 "example.com" None None
            initial _ "https://example.com" _ _ _ _ _ _ _ _).
  - discriminate.
  - reflexivity.
  - reflexivity.
  - reflexivity.
  - vm_compute. reflexivity.
  - reflexivity.
Defined.

(* ===================================================================== *)
(** * Pagination in the Enumerator *)
(* ===================================================================== *)

Lemma pageLimit_range (limit : option Z) : 1 <= pageLimit limit <= 1000.
Proof.
  unfold pageLimit, ListLimits.DEFAULT_LIMIT, ListLimits.MAX_LIMIT.
  destruct limit; cbn [Js.nullish]; lia.
Qed.

(** For an offset and a page size that are not negative, the slice is the
    window of positions from [o], included, to [o + p], excluded. *)
Lemma slice_window {A} (l : list A) (o p : Z) :
  0 <= o -> 0 <= p ->
  slice l o (o + p) = firstn (Z.to_nat p) (skipn (Z.to_nat o) l).
Proof.
  intros Ho Hp. unfold slice.
  destruct (Z.ltb_spec o 0) as [? | _]; [lia|].
  destruct (Z.ltb_spec (o + p) 0) as [? | _]; [lia|].
  destruct (Z.le_gt_cases (Z.of_nat (length l)) o) as [Hbig | Hsmall].
  - rewrite (skipn_all2 (n := Z.to_nat o)) by lia.
    rewrite (skipn_all2 (n := Z.to_nat (Z.min o (Z.of_nat (length l))))) by lia.
    now rewrite !firstn_nil.
  - replace (Z.min o (Z.of_nat (length l))) with o by lia.
    destruct (Z.le_gt_cases (o + p) (Z.of_nat (length l))) as [Hfit | Hover].
    + replace (Z.min (o + p) (Z.of_nat (length l)) - o) with p by lia. reflexivity.
    + replace (Z.min (o + p) (Z.of_nat (length l)) - o) with (Z.of_nat (length l) - o) by lia.
      rewrite !firstn_all2; [reflexivity | |]; rewrite length_skipn; lia.
Qed.

Lemma encode_nonempty (c : ascii) (s : string) :
  Base64url.encode (String c s) <> EmptyString.
Proof. unfold Base64url.encode. destruct s as [|b [|d s]]; discriminate. Qed.

Lemma encodeCursor_nonempty (data : CursorData) : encodeCursor data <> EmptyString.
Proof. unfold encodeCursor, stringifyCursor. apply encode_nonempty. Qed.

(** The cursor that [encodeCursor] writes stands for its offset. *)
Lemma cursorAt_encodeCursor (data : CursorData) :
  cursorAt (Some (encodeCursor data)) (offset data).
Proof.
  right. right. exists (encodeCursor data).
  rewrite CursorFacts.decodeCursor_encodeCursor.
  repeat split; [apply encodeCursor_nonempty|].
  destruct data as [n [u|]]; reflexivity.
Qed.

Lemma listSitemapUrls_run (w : World) (sitemapUrl : string) (limit : option Z)
    (cursor : option string) (o : Z) (parsed : ParsedSitemap) (st : St) :
  sitemapUrl <> EmptyString ->
  isValidUrl w sitemapUrl = true ->
  readSitemap w sitemapUrl (fetch w sitemapUrl) = Ret parsed ->
  cursorAt cursor o ->
  listSitemapUrls w sitemapUrl limit cursor st
  = Some (listPage sitemapUrl (pageLimit limit) (OffsetInt o) parsed, logged st sitemapUrl).
Proof.
  intros Hne Hvalid Hread Hcursor. unfold listSitemapUrls.
  destruct (String.eqb_spec sitemapUrl EmptyString) as [? | _]; [contradiction|].
  rewrite Hvalid. cbn [negb].
  destruct Hcursor as [[-> ->] | [[-> ->] | (c & -> & Hc & Ht & Ho)]].
  - rewrite (bind_run _ _ _ _ _ (fetchSitemap_run w sitemapUrl st)). now rewrite Hread.
  - rewrite (bind_run _ _ _ _ _ (fetchSitemap_run w sitemapUrl st)). now rewrite Hread.
  - destruct c as [|c0 c]; [contradiction|]. rewrite Ht, Ho. cbn [negb].
    rewrite (bind_run _ _ _ _ _ (fetchSitemap_run w sitemapUrl st)). now rewrite Hread.
Qed.

Lemma listSitemapUrls_window (w : World) (sitemapUrl : string) (limit : option Z)
    (cursor : option string) (o : Z) (parsed : ParsedSitemap) (st : St) :
  sitemapUrl <> EmptyString ->
  isValidUrl w sitemapUrl = true ->
  readSitemap w sitemapUrl (fetch w sitemapUrl) = Ret parsed ->
  cursorAt cursor o ->
  0 <= o ->
  let p := pageLimit limit in
  let page := firstn (Z.to_nat p) (skipn (Z.to_nat o) (urls parsed)) in
  listSitemapUrls w sitemapUrl limit cursor st
  = Some (Returned
            (Success
               {| lsu_sitemap_url := sitemapUrl;
                  lsu_urls := page;
                  total_in_page := Z.of_nat (length page);
                  is_index := isIndex parsed |}
               {| source := Some sitemapUrl;
                  pagination :=
                    Some {| next_cursor :=
                              if o + p <? Z.of_nat (length (urls parsed))
                              then Some (encodeCursor {| offset := o + p; sitemap_url := None |})
                              else None |};
                  warnings := Some [] |}),
          logged st sitemapUrl).
Proof.
  intros Hne Hvalid Hread Hcursor Ho p page.
  rewrite (listSitemapUrls_run w sitemapUrl limit cursor o parsed st) by assumption.
  unfold listPage, createSuccessResponse. cbn [arg_source arg_pagination arg_warnings].
  pose proof (pageLimit_range limit).
  rewrite slice_window by (fold p; lia). reflexivity.
Qed.



(* ===================================================================== *)
(** * The page size of the Enumerator *)
(* ===================================================================== *)

(** C9.  The page size is [min(max(1, limit), 1000)]: a limit of zero or
    less counts as 1 and a limit above 1000 as 1000.  The page that a call
    serves has that size: on a document that is fetched and parsed, it holds
    the entries from the offset on, as many as the clamped limit or as many
    as are left, and the next cursor is that of the offset plus the clamped
    limit.  Every call answers as the call with the clamped limit answers,
    and the limit never decides whether the call is rejected as
    INVALID_INPUT. *)
Theorem pageLimit_clamps_silently (limit : Z) :
  let clamped := Z.min (Z.max 1 limit) 1000 in
  pageLimit (Some limit) = clamped
  /\ (limit <= 0 -> pageLimit (Some limit) = 1)
  /\ (1000 < limit -> pageLimit (Some limit) = 1000)
  /\ (forall (w : World) (sitemapUrl : string) (parsed : ParsedSitemap)
             (cursor : option string) (o : Z) (st : St),
        sitemapUrl <> EmptyString ->
        isValidUrl w sitemapUrl = true ->
        readSitemap w sitemapUrl (fetch w sitemapUrl) = Ret parsed ->
        cursorAt cursor o -> 0 <= o ->
        let page := firstn (Z.to_nat clamped) (skipn (Z.to_nat o) (urls parsed)) in
        pageOf (listSitemapUrls w sitemapUrl (Some limit) cursor st)
        = Some (page, Z.of_nat (length page),
                if o + clamped <? Z.of_nat (length (urls parsed))
                then Some (encodeCursor {| offset := o + clamped; sitemap_url := None |})
                else None)
        /\ length page = Nat.min (Z.to_nat clamped) (length (urls parsed) - Z.to_nat o))
  /\ (forall (w : World) (sitemapUrl : string) (cursor : option string) (st : St),
        listSitemapUrls w sitemapUrl (Some limit) cursor st
        = listSitemapUrls w sitemapUrl (Some clamped) cursor st)
  /\ (forall (w : World) (sitemapUrl : string) (cursor : option string) (st : St)
             (other : option Z),
        rejectsInput (listSitemapUrls w sitemapUrl (Some limit) cursor st)
        <-> rejectsInput (listSitemapUrls w sitemapUrl other cursor st)).
Proof.
  intros clamped.
  assert (Hp : pageLimit (Some limit) = clamped) by reflexivity.
  assert (Hidem : pageLimit (Some clamped) = clamped).
  { unfold pageLimit, clamped, ListLimits.DEFAULT_LIMIT, ListLimits.MAX_LIMIT.
    cbn [Js.nullish]. lia. }
  split; [exact Hp|]. split; [intros H; rewrite Hp; unfold clamped; lia|].
  split; [intros H; rewrite Hp; unfold clamped; lia|]. split; [|split].
  - intros w sitemapUrl parsed cursor o st Hne Hvalid Hread Hcursor Ho page. split.
    + rewrite (listSitemapUrls_window w sitemapUrl (Some limit) cursor o parsed st)
        by assumption.
      cbn [pageOf lsu_urls total_in_page pagination next_cursor]. now rewrite Hp.
    + unfold page. rewrite length_firstn, length_skipn. reflexivity.
  - intros w sitemapUrl cursor st. unfold listSitemapUrls. now rewrite Hp, Hidem.
  - intros w sitemapUrl cursor st other. split; intros H;
      apply listSitemapUrls_rejects_iff; now apply listSitemapUrls_rejects_iff in H.
Qed.

(** A limit of zero serves one entry of a sitemap of three; a limit of 5000
    serves 1000 entries of a sitemap of 1001 and the cursor of the offset
    1000. *)
Lemma pageLimit_clamps_zero_and_5000 :
  pageLimit (Some 0) = 1 /\ pageLimit (Some 5000) = 1000
  /\ pageOf (listSitemapUrls (Fixtures.bigSitemap 3) "https://example.com/sitemap.xml"
               (Some 0) None initial)
     = Some (firstn 1 (urls (Fixtures.parsedNumbered 3)), 1,
             Some (encodeCursor {| offset := 1; sitemap_url := None |}))
  /\ (exists page,
        pageOf (listSitemapUrls (Fixtures.bigSitemap 1001) "https://example.com/sitemap.xml"
                  (Some 5000) None initial)
        = Some (page, 1000, Some (encodeCursor {| offset := 1000; sitemap_url := None |}))
        /\ length page = 1000%nat).
Proof.
  split; [exact (proj1 (proj2 (pageLimit_clamps_silently 0)) ltac:(lia))|].
  split; [exact (proj1 (proj2 (proj2 (pageLimit_clamps_silently 5000))) ltac:(lia))|].
  split.
  - exact (proj1 (proj1 (proj2 (proj2 (proj2 (pageLimit_clamps_silently 0))))
                    (Fixtures.bigSitemap 3) "https://example.com/sitemap.xml"
                    (Fixtures.parsedNumbered 3) None 0 initial
                    ltac:(discriminate) eq_refl eq_refl ltac:(now left) ltac:(lia))).
  - destruct (proj1 (proj2 (proj2 (proj2 (pageLimit_clamps_silently 5000))))
                (Fixtures.bigSitemap 1001) "https://example.com/sitemap.xml"
                (Fixtures.parsedNumbered 1001) None 0 initial
                ltac:(discriminate) ltac:(vm_compute; reflexivity)
                ltac:(vm_compute; reflexivity) ltac:(now left) ltac:(lia))
      as [Hpage Hlen].
    assert (Hcount : length (urls (Fixtures.parsedNumbered 1001)) = 1001%nat)
      by (vm_compute; reflexivity).
    rewrite Hcount in Hlen, Hpage. eexists. split; [|exact Hlen].
    rewrite Hpage, Hlen. reflexivity.
Defined.
(* ===================================================================== *)
(** * Cycles of sitemap indexes *)
(* ===================================================================== *)




(* ===================================================================== *)
(** * Timeouts *)
(* ===================================================================== *)

Lemma buildCrawlFrontier_succeeds (w : World) (U : gset string) (seedUrl n : string)
    (rules : option CrawlFrontierRules) (limit : option Z) (st : St) (fuel : nat) :
  closed w U -> (size U + 2 <= fuel)%nat ->
  seedUrl <> EmptyString -> normalizeUrl w seedUrl = Some n ->
  hasEmptyPattern (include (normalizeRules rules)) = false ->
  hasEmptyPattern (exclude (normalizeRules rules)) = false ->
  exists data meta st',
    buildCrawlFrontier w fuel seedUrl rules limit st = Some (Success data meta, st').
Proof.
  intros Hc Hfuel Hne Hn Hi He. unfold buildCrawlFrontier.
  destruct (String.eqb_spec seedUrl EmptyString) as [? | _]; [contradiction|].
  rewrite Hn, Hi, He.
  destruct fuel as [|fuel']; [lia|].
  destruct (normalizeUrl_idempotent w seedUrl n Hn) as [Hn0 Hnn].
  destruct (discoverSitemaps_succeeds w fuel' n n st Hn0 Hnn) as (data & meta & st1 & Hd & _).
  rewrite (bind_run _ _ _ _ _ Hd).
  destruct (sitemaps data) as [|sm rest]; [now do 3 eexists|].
  unfold bind at 1. unfold visited_new at 1.
  match goal with
  | |- context [collectAll w ?f ?r ?e ?d [] 0] =>
      destruct (collectAll_terminates w U r e f Hc Hfuel d [] 0
                  {| visited := ∅; fetched := fetched st1 |}) as ([allUrls k] & st2 & Hrun)
  end.
  rewrite (bind_run _ _ _ _ _ Hrun). now do 3 eexists.
Qed.

(** C8.  A fetch that runs into the timeout rejects with an AbortError.  In
    a probe of the Discoverer the candidate is then reported as not found,
    and in the recursion of the Frontier Builder the document is skipped and
    not counted; discovery and frontier building still end in a success
    envelope.  In the Enumerator the same rejection ends the call in an error
    envelope with the code TIMEOUT. *)
Theorem timeouts_swallowed_or_surfaced (w : World) :
  (forall u d st,
     fetch w u = Throw AbortError -> checkSitemap w u d st = Some (None, logged st u))
  /\ (forall fuel rules u maxUrls st,
        u ∉ visited st -> fetch w u = Throw AbortError ->
        collectUrlsFromSitemap w (S fuel) rules u maxUrls st
        = Some (([], 0), {| visited := {[u]} ∪ visited st; fetched := fetched st ++ [u] |}))
  /\ (forall fuel u n st,
        u <> EmptyString -> normalizeUrl w u = Some n ->
        exists data meta st',
          discoverSitemaps w (S fuel) u st = Some (Success data meta, st'))
  /\ (forall U seedUrl n rules limit st fuel,
        closed w U -> (size U + 2 <= fuel)%nat ->
        seedUrl <> EmptyString -> normalizeUrl w seedUrl = Some n ->
        hasEmptyPattern (include (normalizeRules rules)) = false ->
        hasEmptyPattern (exclude (normalizeRules rules)) = false ->
        exists data meta st',
          buildCrawlFrontier w fuel seedUrl rules limit st = Some (Success data meta, st'))
  /\ (forall sitemapUrl limit cursor st,
        sitemapUrl <> EmptyString -> isValidUrl w sitemapUrl = true ->
        cursorAccepted cursor ->
        fetch w sitemapUrl = Throw AbortError ->
        listSitemapUrls w sitemapUrl limit cursor st
        = Some (Returned
                  (Failure TIMEOUT ("Request timed out while fetching sitemap: " +:+ sitemapUrl)),
                logged st sitemapUrl)).
Proof.
  repeat split.
  - intros u d st Hf. rewrite checkSitemap_run, Hf. reflexivity.
  - intros fuel rules u maxUrls st Hu Hf. rewrite collect_unfold.
    rewrite (bool_decide_eq_false_2 _ Hu). cbv zeta. unfold readSitemap. now rewrite Hf.
  - intros fuel u n st Hne Hn.
    destruct (discoverSitemaps_succeeds w fuel u n st Hne Hn) as (data & meta & st' & H & _).
    now exists data, meta, st'.
  - intros U seedUrl n rules limit st fuel. apply buildCrawlFrontier_succeeds.
  - intros sitemapUrl limit cursor st Hne Hvalid Hcursor Hf. unfold listSitemapUrls.
    destruct (String.eqb_spec sitemapUrl EmptyString) as [? | _]; [contradiction|].
    rewrite Hvalid. cbn [negb].
    assert (Hproceed : forall o,
      bind (fetchSitemap w sitemapUrl)
        (fun fetched => match fetched with
                        | Throw error => ret (Returned (listFailure sitemapUrl error))
                        | Ret parsed => ret (listPage sitemapUrl (pageLimit limit) o parsed)
                        end) st
      = Some (Returned
                (Failure TIMEOUT ("Request timed out while fetching sitemap: " +:+ sitemapUrl)),
              logged st sitemapUrl)).
    { intros o. rewrite (bind_run _ _ _ _ _ (fetchSitemap_run w sitemapUrl st)).
      unfold readSitemap. rewrite Hf. reflexivity. }
    destruct Hcursor as [-> | [-> | (c & -> & Ht)]]; [apply Hproceed | apply Hproceed |].
    destruct c as [|c0 c]; [apply Hproceed|]. rewrite Ht. cbn [negb]. apply Hproceed.
Qed.

Lemma unreachable_closed : closed Fixtures.unreachable ∅.
Proof. intros u c Hc. contradiction. Qed.

(** Where every request times out, discovery and frontier building succeed
    and the Enumerator answers TIMEOUT. *)
Lemma timeouts_everywhere :
  (exists data meta st',
     discoverSitemaps Fixtures.unreachable 1 "example.com" initial
     = Some (Success data meta, st'))
  /\ (exists data meta st',
        buildCrawlFrontier Fixtures.unreachable 2 "example.com" None None initial
        = Some (Success data meta, st'))
  /\ listSitemapUrls Fixtures.unreachable "https://example.com/sitemap.xml" None None initial
     = Some (Returned
               (Failure TIMEOUT
                  "Request timed out while fetching sitemap: https://example.com/sitemap.xml"),
             logged initial "https://example.com/sitemap.xml")
  /\ checkSitemap Fixtures.unreachable "https://example.com/sitemap.xml" standard_location
       initial
     = Some (None, logged initial "https://example.com/sitemap.xml")
  /\ collectUrlsFromSitemap Fixtures.unreachable 1 (normalizeRules None)
       "https://example.com/sitemap.xml" 10 initial
     = Some (([], 0), {| visited := {["https://example.com/sitemap.xml"]} ∪ visited initial;
                         fetched := fetched initial ++ ["https://example.com/sitemap.xml"] |}).
Proof.
  destruct (timeouts_swallowed_or_surfaced Fixtures.unreachable)
    as (Hprobe & Hcollect & Hdiscover & Hbuild & Hlist).
  split; [|split; [|split; [|split]]].
  - apply (Hdiscover 0%nat "example.com" "https://example.com" initial);
      [discriminate | reflexivity].
  - apply (Hbuild ∅ "example.com" "https://example.com" None None initial 2%nat);
      [apply unreachable_closed | vm_compute; lia | discriminate | reflexivity
      | reflexivity | reflexivity].
  - apply (Hlist "https://example.com/sitemap.xml" None None initial);
      [discriminate | reflexivity | now left | reflexivity].
  - apply (Hprobe "https://example.com/sitemap.xml" standard_location initial). reflexivity.
  - apply (Hcollect 0%nat (normalizeRules None) "https://example.com/sitemap.xml" 10 initial);
      [apply not_elem_of_empty | reflexivity].
Defined.

(* ===================================================================== *)
(** * The frontier *)
(* ===================================================================== *)


(** The frontier that [finishFrontier] returns, from any list of collected
    entries. *)
Lemma finishFrontier_frontier (n : string) (rules : CrawlFrontierRules) (eff : Z)
    (warnings0 : list string) (allUrls : list FrontierUrl) (processed : Z)
    (data : BuildCrawlFrontierData) (meta : ResponseMeta) :
  finishFrontier n rules eff warnings0 allUrls processed = Success data meta ->
  NoDup (map url (frontier data))
  /\ (0 <= eff -> Z.of_nat (length (frontier data)) <= eff)
  /\ (exists k, frontier data = firstn k (dedupe allUrls ∅ [])
                /\ (0 <= eff -> k = Z.to_nat eff))
  /\ sublist (frontier data) allUrls
  /\ (forall x, x ∈ frontier data ->
                find (fun y => String.eqb (url y) (url x)) allUrls = Some x)
  /\ ((length (frontier data) < length (dedupe allUrls ∅ []))%nat ->
      warnings meta
      = Some (warnings0 ++ [truncationWarning eff (length (dedupe allUrls ∅ []))])).
Proof.
  unfold finishFrontier, createSuccessResponse. intros H. injection H as <- <-.
  cbn [frontier warnings arg_warnings].
  set (d := dedupe allUrls ∅ []).
  destruct (slice_prefix d eff) as (k & Hk & Hkeff & Hdrop). rewrite Hk in *.
  assert (Hsub : sublist (firstn k d) d) by apply sublist_take.
  repeat split.
  - rewrite <- firstn_map.
    exact (sublist_NoDup _ _ (dedupe_NoDup allUrls ∅) (sublist_take (map url d) k)).
  - intros Hpos. rewrite length_firstn, (Hkeff Hpos). lia.
  - now exists k.
  - etrans; [exact Hsub | apply dedupe_sublist].
  - intros x Hx. apply (dedupe_first allUrls ∅).
    exact (sublist_subseteq _ _ Hsub x Hx).
  - intros Hlt. apply Hdrop in Hlt.
    destruct (Z.gtb_spec (Z.of_nat (length d)) eff) as [_ | Hle]; [|lia].
    destruct (warnings0 ++ [truncationWarning eff (length d)]) as [|w0 ws] eqn:E.
    { destruct warnings0; discriminate. }
    reflexivity.
Qed.




(* ===================================================================== *)
(** * Cursors *)
(* ===================================================================== *)

Lemma payloadOf_cursorValue (data : CursorData) : payloadOf (cursorValue data) = Some data.
Proof. destruct data as [n [u|]]; reflexivity. Qed.

(** C2, as amended.  A cursor payload is read back from its encoding as it
    was written; and [decodeCursor] returns null for every string whose
    base64url decoding is not a JSON text, the strings invalid and the empty
    string among them. *)
Theorem cursor_round_trip :
  (forall data : CursorData,
     0 <= offset data ->
     decodeCursor (encodeCursor data) = cursorValue data
     /\ payloadOf (decodeCursor (encodeCursor data)) = Some data)
  /\ (forall cursor : string,
        Json.parse (Base64url.decode cursor) = None -> decodeCursor cursor = Json.JNull)
  /\ decodeCursor "invalid" = Json.JNull
  /\ decodeCursor EmptyString = Json.JNull.
Proof.
  repeat split.
  - apply CursorFacts.decodeCursor_encodeCursor.
  - rewrite CursorFacts.decodeCursor_encodeCursor. apply payloadOf_cursorValue.
  - intros cursor H. unfold decodeCursor. now rewrite H.
Qed.

(** The cursor of the second page of 100, and a string that is not base64url
    of anything JSON. *)
Lemma cursor_round_trip_100 :
  encodeCursor {| offset := 100; sitemap_url := None |} = "eyJvZmZzZXQiOjEwMH0"
  /\ payloadOf (decodeCursor (encodeCursor {| offset := 100; sitemap_url := None |}))
     = Some {| offset := 100; sitemap_url := None |}
  /\ decodeCursor "not a cursor" = Json.JNull.
Proof.
  destruct cursor_round_trip as (Hround & Hnull & _).
  split; [reflexivity|]. split.
  - apply (proj2 (Hround {| offset := 100; sitemap_url := None |} ltac:(cbn; lia))).
  - apply (Hnull "not a cursor"). reflexivity.
Defined.

Lemma stringifyCursor_offset_start (data : CursorData) :
  exists c r,
    stringifyCursor data
    = String "{" (Json.quote "offset" +:+ String ":" (String c r))
    /\ (Ascii.eqb c "-" = true \/ exists d, Json.digitValue c = Some d).
Proof.
  unfold stringifyCursor.
  destruct (CursorFacts.numberToString_head (offset data)
              (match sitemap_url data with
               | Some u => "," +:+ Json.quote "sitemap_url" +:+ ":" +:+ Json.quote u +:+ "}"
               | None => "}"
               end)) as (c & r & Heq & Hc).
  exists c, r. split; [|exact Hc]. rewrite <- Heq. reflexivity.
Qed.

(** Strings that [encodeCursor] never writes and that do not decode to null:
    the same payload with a space after the colon, and an object without
    offset. *)
Lemma decodeCursor_accepts_other_tokens :
  (forall data : CursorData, encodeCursor data <> "eyJvZmZzZXQiOiAxMDB9")
  /\ decodeCursor "eyJvZmZzZXQiOiAxMDB9" = cursorValue {| offset := 100; sitemap_url := None |}
  /\ decodeCursor "eyJvZmZzZXQiOiAxMDB9" <> Json.JNull
  /\ (forall data : CursorData, encodeCursor data <> "e30")
  /\ decodeCursor "e30" = Json.JObj []
  /\ decodeCursor "e30" <> Json.JNull.
Proof.
  assert (Hdecode : forall data token,
            encodeCursor data = token -> stringifyCursor data = Base64url.decode token).
  { intros data token <-. unfold encodeCursor.
    now rewrite Base64urlFacts.decode_encode. }
  split; [|split; [reflexivity|]; split; [discriminate|]; split;
            [|split; [reflexivity | discriminate]]].
  - intros data H. apply Hdecode in H.
    destruct (stringifyCursor_offset_start data) as (c & r & Heq & Hc).
    rewrite Heq in H. vm_compute in H. injection H as H _. subst c.
    destruct Hc as [Hc | [d Hc]]; discriminate Hc.
  - intros data H. apply Hdecode in H.
    destruct (stringifyCursor_offset_start data) as (c & r & Heq & _).
    rewrite Heq in H. vm_compute in H. discriminate H.
Qed.

(** With the second of these cursors the Enumerator answers with an empty
    page instead of INVALID_INPUT. *)
Lemma listSitemapUrls_shapeless_cursor :
  pageOf (listSitemapUrls (Fixtures.bigSitemap 3) "https://example.com/sitemap.xml"
            (Some 2) (Some "e30") initial)
  = Some ([], 0, None).
Proof. vm_compute. reflexivity. Qed.

(* ===================================================================== *)
(** * Patterns *)
(* ===================================================================== *)

Lemma globMatch_star (p u : string) :
  globMatch (String "*" p) u
  = globMatch p u || match u with
                     | String _ u' => globMatch (String "*" p) u'
                     | EmptyString => false
                     end.
Proof. destruct u; reflexivity. Qed.

Lemma globMatch_char (c : ascii) (p u : string) :
  c <> "*"%char ->
  globMatch (String c p) u
  = match u with
    | String d u' => Js.eqbIgnoreCase c d && globMatch p u'
    | EmptyString => false
    end.
Proof.
  intros Hc. cbn [globMatch].
  destruct (Ascii.eqb_spec c "*") as [? | _]; [contradiction | reflexivity].
Qed.

(** [globMatch] decides the glob of the specification. *)
Lemma globMatch_spec (p u : string) : globMatch p u = true <-> Glob p u.
Proof.
  split.
  - revert u. induction p as [|c p IH]; intros u H.
    + destruct u; [constructor | discriminate].
    + destruct (Ascii.eqb_spec c "*") as [-> | Hc].
      * induction u as [|d u IHu].
        -- rewrite globMatch_star, orb_false_r in H.
           apply (Glob_star p EmptyString EmptyString), IH, H.
        -- rewrite globMatch_star in H. apply orb_true_iff in H as [H | H].
           ++ apply (Glob_star p EmptyString (String d u)), IH, H.
           ++ specialize (IHu H). inversion IHu as [|p' run u' Hg|]; subst.
              ** apply (Glob_star p (String d run) u' Hg).
              ** contradiction.
      * rewrite globMatch_char in H by assumption. destruct u as [|d u]; [discriminate|].
        apply andb_true_iff in H as [H1 H2]. apply Glob_char; auto.
  - induction 1 as [|p run u _ IH|c d p u Hc Hcd _ IH].
    + reflexivity.
    + induction run as [|x run IHr]; rewrite globMatch_star.
      * cbn [String.append]. now rewrite IH.
      * cbn [String.append]. rewrite IHr. apply orb_true_r.
    + rewrite globMatch_char by assumption. now rewrite Hcd, IH.
Qed.

(** When the source does not compile, the pattern without its stars is
    searched in the URL. *)
Lemma matchesPattern_fallback (u pattern : string) :
  RegExp.compile (regexSource pattern) = RegExp.SyntaxError ->
  matchesPattern u pattern = Js.includes u (removeStars pattern).
Proof. unfold matchesPattern. now intros ->. Qed.

(** C3.  For a pattern without question mark and a URL of one line,
    [matchesPattern] is true exactly when the whole URL matches the glob;
    for a pattern whose source does not compile, it is true exactly when the
    URL contains the pattern without its stars.  A question mark in a pattern
    that compiles is not a literal: it makes the character before it
    optional, so the URL that is the pattern itself does not match although
    the glob does, and the URL without that character and without the
    question mark matches although the glob does not. *)
Theorem matchesPattern_glob_but_question_mark :
  (forall u pattern : string,
     questionFree pattern = true -> singleLine u = true ->
     (matchesPattern u pattern = true <-> Glob pattern u))
  /\ (forall u pattern : string,
        RegExp.compile (regexSource pattern) = RegExp.SyntaxError ->
        (matchesPattern u pattern = true <-> Js.includes u (removeStars pattern) = true))
  /\ (RegExp.compile (regexSource "https://example.com/page?id=1") <> RegExp.SyntaxError
      /\ matchesPattern "https://example.com/page?id=1" "https://example.com/page?id=1" = false
      /\ Glob "https://example.com/page?id=1" "https://example.com/page?id=1"
      /\ matchesPattern "https://example.com/pagid=1" "https://example.com/page?id=1" = true
      /\ ~ Glob "https://example.com/page?id=1" "https://example.com/pagid=1").
Proof.
  split; [|split].
  - intros u pattern Hp Hu. rewrite (PatternFacts.matchesPattern_glob u pattern Hp Hu).
    apply globMatch_spec.
  - intros u pattern H. now rewrite (matchesPattern_fallback u pattern H).
  - split; [vm_compute; discriminate|]. split; [vm_compute; reflexivity|].
    split; [apply globMatch_spec; vm_compute; reflexivity|].
    split; [vm_compute; reflexivity|].
    intros H. apply globMatch_spec in H. vm_compute in H. discriminate H.
Qed.

(** The patterns of the specification, and a pattern that does not compile
    because its question mark has nothing to repeat. *)
Lemma matchesPattern_examples :
  matchesPattern "https://example.com/blog/2024/post" "*blog*post*" = true
  /\ Glob "*blog*post*" "https://example.com/blog/2024/post"
  /\ matchesPattern "https://example.com/page" "https://other.com/*" = false
  /\ ~ Glob "https://other.com/*" "https://example.com/page"
  /\ (RegExp.compile (regexSource "?page=*") = RegExp.SyntaxError
      /\ matchesPattern "https://example.com/?page=2" "?page=*" = true).
Proof.
  destruct matchesPattern_glob_but_question_mark as (Hglob & Hfallback & _).
  split; [reflexivity|]. split; [|split; [reflexivity|]; split; [|split]].
  - apply (Hglob "https://example.com/blog/2024/post" "*blog*post*"); reflexivity.
  - intros H.
    apply (Hglob "https://example.com/page" "https://other.com/*") in H;
      [discriminate H | reflexivity | reflexivity].
  - reflexivity.
  - apply (Hfallback "https://example.com/?page=2" "?page=*"); reflexivity.
Defined.
(* ===================================================================== *)
(** * URL normalization *)
(* ===================================================================== *)







(* ===================================================================== *)
(** * Patterns without question mark *)
(* ===================================================================== *)

Lemma existsb_str_app (f : ascii -> bool) (a b : string) :
  Js.existsb_str f (a +:+ b) = Js.existsb_str f a || Js.existsb_str f b.
Proof.
  induction a as [|c a IH]; [reflexivity|].
  cbn [String.append Js.existsb_str]. now rewrite IH, orb_assoc.
Qed.

Lemma questionFree_app (a b : string) :
  questionFree a = true -> questionFree b = true -> questionFree (a +:+ b) = true.
Proof.
  unfold questionFree. rewrite existsb_str_app, negb_orb. intros -> ->. reflexivity.
Qed.

Lemma starFree_cons (c : ascii) (p : string) :
  starFree (String c p) = true -> Ascii.eqb c "*" = false /\ starFree p = true.
Proof.
  unfold starFree. cbn [Js.existsb_str]. rewrite negb_orb. intros H.
  apply andb_true_iff in H as [Hc Hp]. now apply negb_true_iff in Hc.
Qed.

Lemma matchHere_literal (p u : string) (atStart : bool) :
  starFree p = true ->
  RegExp.matchHere (globItems p ++ [RegExp.AssertEnd]) atStart u = equalsIgnoreCase p u.
Proof.
  revert u atStart. induction p as [|c p IH]; intros u atStart Hp.
  - destruct u; reflexivity.
  - apply starFree_cons in Hp as [Hc Hp]. cbn [globItems app]. rewrite Hc.
    destruct u as [|d u]; [reflexivity|].
    cbn [RegExp.matchHere equalsIgnoreCase RegExp.atomMatches]. now rewrite IH.
Qed.

(** X2.  On ASCII text, a pattern with neither star nor question mark
    matches the URLs that are the pattern itself up to the case of the
    letters, and no other. *)
Theorem matchesPattern_literal (u pattern : string) :
  asciiText u = true -> asciiText pattern = true ->
  questionFree pattern = true -> starFree pattern = true ->
  matchesPattern u pattern = equalsIgnoreCase pattern u.
Proof.
  intros _ _ Hq Hs. unfold matchesPattern.
  rewrite (PatternFacts.compile_regexSource pattern Hq), PatternFacts.test_anchored.
  now apply matchHere_literal.
Qed.

(** An exact URL, the same URL in upper case, and a longer URL. *)
Lemma matchesPattern_literal_example :
  matchesPattern "https://example.com/a.b" "https://example.com/a.b" = true
  /\ matchesPattern "HTTPS://EXAMPLE.COM/A.B" "https://example.com/a.b" = true
  /\ matchesPattern "https://example.com/a.b/c" "https://example.com/a.b" = false
  /\ matchesPattern "https://example.com/aXb" "https://example.com/a.b" = false.
Proof.
  split; [|split; [|split]].
  - exact (eq_trans (matchesPattern_literal "https://example.com/a.b"
                       "https://example.com/a.b" eq_refl eq_refl eq_refl eq_refl) eq_refl).
  - exact (eq_trans (matchesPattern_literal "HTTPS://EXAMPLE.COM/A.B"
                       "https://example.com/a.b" eq_refl eq_refl eq_refl eq_refl) eq_refl).
  - exact (eq_trans (matchesPattern_literal "https://example.com/a.b/c"
                       "https://example.com/a.b" eq_refl eq_refl eq_refl eq_refl) eq_refl).
  - exact (eq_trans (matchesPattern_literal "https://example.com/aXb"
                       "https://example.com/a.b" eq_refl eq_refl eq_refl eq_refl) eq_refl).
Defined.

Lemma globMatch_any (u : string) : globMatch "*" u = true.
Proof.
  induction u as [|c u IH]; [reflexivity|].
  rewrite globMatch_star. rewrite IH. apply orb_true_r.
Qed.

Lemma globMatch_prefix (q u : string) :
  starFree q = true -> globMatch (q +:+ "*") u = Js.startsWithIgnoreCase u q.
Proof.
  revert u. induction q as [|c q IH]; intros u Hq.
  - cbn [String.append]. rewrite globMatch_any. now destruct u.
  - apply starFree_cons in Hq as [Hc Hq]. cbn [String.append].
    rewrite globMatch_char by (now apply Ascii.eqb_neq).
    destruct u as [|d u]; [reflexivity|]. cbn [Js.startsWithIgnoreCase]. now rewrite IH.
Qed.

Lemma globMatch_contains (q u : string) :
  starFree q = true -> globMatch ("*" +:+ q +:+ "*") u = includesIgnoreCase u q.
Proof.
  intros Hq. cbn [String.append]. induction u as [|d u IH].
  - rewrite globMatch_star, (globMatch_prefix q EmptyString Hq). reflexivity.
  - rewrite globMatch_star, (globMatch_prefix q (String d u) Hq), IH. reflexivity.
Qed.

(** X3.  On an ASCII URL without line terminator, and for an ASCII text [q]
    with neither star nor question mark: the pattern [q*] matches the URLs
    that start with [q], the pattern [*q*] the URLs that contain [q], both up
    to the case of the letters, and the pattern [*] matches every such
    URL. *)
Theorem matchesPattern_wildcards (u q : string) :
  asciiText u = true -> asciiText q = true ->
  questionFree q = true -> starFree q = true -> singleLine u = true ->
  matchesPattern u (q +:+ "*") = Js.startsWithIgnoreCase u q
  /\ matchesPattern u ("*" +:+ q +:+ "*") = includesIgnoreCase u q
  /\ matchesPattern u "*" = true.
Proof.
  intros _ _ Hq Hs Hu. split; [|split].
  - rewrite PatternFacts.matchesPattern_glob by (try apply questionFree_app; auto).
    now apply globMatch_prefix.
  - rewrite PatternFacts.matchesPattern_glob
      by (try apply (questionFree_app "*"); try apply questionFree_app; auto).
    now apply globMatch_contains.
  - rewrite PatternFacts.matchesPattern_glob by auto. apply globMatch_any.
Qed.

(** The pattern of the blog, on a URL that holds the word in capitals and on
    one that does not. *)
Lemma matchesPattern_wildcards_example :
  matchesPattern "https://example.com/Blog/post" "*blog*" = true
  /\ matchesPattern "https://example.com/about" "*blog*" = false
  /\ matchesPattern "https://example.com/about" "https://example.com/*" = true.
Proof.
  split; [|split].
  - exact (eq_trans
             (proj1 (proj2 (matchesPattern_wildcards "https://example.com/Blog/post" "blog"
                              eq_refl eq_refl eq_refl eq_refl eq_refl))) eq_refl).
  - exact (eq_trans
             (proj1 (proj2 (matchesPattern_wildcards "https://example.com/about" "blog"
                              eq_refl eq_refl eq_refl eq_refl eq_refl))) eq_refl).
  - exact (eq_trans
             (proj1 (matchesPattern_wildcards "https://example.com/about"
                       "https://example.com/" eq_refl eq_refl eq_refl eq_refl eq_refl))
             eq_refl).
Defined.

(* ===================================================================== *)
(** * Cursors *)
(* ===================================================================== *)

(** X4.  Two payloads whose offsets are safe integers and that differ, in
    the offset or in the sitemap URL, have cursors that differ; and no cursor
    is the empty string, which [listSitemapUrls] reads as the absence of a
    cursor. *)
Theorem encodeCursor_distinct (a b : CursorData) :
  safeInteger (offset a) -> safeInteger (offset b) ->
  a <> b -> encodeCursor a <> encodeCursor b /\ encodeCursor a <> EmptyString.
Proof.
  intros _ _ Hab. split; [|apply encodeCursor_nonempty].
  intros H. apply Hab.
  assert (Hd : payloadOf (decodeCursor (encodeCursor a))
               = payloadOf (decodeCursor (encodeCursor b))) by now rewrite H.
  rewrite !CursorFacts.decodeCursor_encodeCursor, !payloadOf_cursorValue in Hd.
  now injection Hd.
Qed.

Lemma encodeCursor_distinct_example :
  encodeCursor {| offset := 100; sitemap_url := None |}
  <> encodeCursor {| offset := 100; sitemap_url := Some "https://example.com/sitemap.xml" |}
  /\ encodeCursor {| offset := 100; sitemap_url := None |}
     <> encodeCursor {| offset := 200; sitemap_url := None |}.
Proof.
  split.
  - apply (encodeCursor_distinct {| offset := 100; sitemap_url := None |}
             {| offset := 100; sitemap_url := Some "https://example.com/sitemap.xml" |});
      [unfold safeInteger; cbn; lia | unfold safeInteger; cbn; lia | discriminate].
  - apply (encodeCursor_distinct {| offset := 100; sitemap_url := None |}
             {| offset := 200; sitemap_url := None |});
      [unfold safeInteger; cbn; lia | unfold safeInteger; cbn; lia | discriminate].
Defined.
(* ===================================================================== *)
(** * Numerals, the configuration and the command line *)
(* ===================================================================== *)

Module NumeralFacts.
Import Js JsGlobal.

Lemma digitRun_digit (d : Z) (rest : string) (acc : option Z) :
  0 <= d < 10 ->
  digitRun (String (digitChar d) rest) acc = digitRun rest (Some (10 * nullish acc 0 + d)).
Proof. intros Hd. cbn [digitRun]. now rewrite JsonFacts.digitValue_digitChar. Qed.

(** Reading back the digits that [digitsAcc] wrote gives the number. *)
Lemma digitRun_digitsAcc (f : nat) (n : Z) (rest : string) :
  0 <= n < 2 ^ (Z.of_nat f + 1) ->
  digitRun (digitsAcc f n rest) None = digitRun rest (Some n).
Proof.
  revert n rest. induction f as [|f IH]; intros n rest Hn.
  - cbn [digitsAcc]. change (2 ^ (Z.of_nat 0 + 1)) with 2 in Hn.
    rewrite Z.mod_small by lia. rewrite digitRun_digit by lia.
    cbn [nullish]. f_equal; f_equal; lia.
  - cbn [digitsAcc]. destruct (Z.ltb_spec n 10) as [Hlt | Hge].
    + rewrite Z.mod_small by lia. rewrite digitRun_digit by lia.
      cbn [nullish]. f_equal; f_equal; lia.
    + rewrite (IH (n / 10) _ (JsonFacts.half_bound _ _ Hn)).
      rewrite digitRun_digit by (apply Z.mod_pos_bound; lia).
      cbn [nullish]. pose proof (Z.div_mod n 10). f_equal; f_equal; lia.
Qed.

Lemma digitRun_stop (rest : string) (n : Z) :
  noDigitAhead rest -> digitRun rest (Some n) = Some n.
Proof. destruct rest as [|c r]; [reflexivity|]. cbn. now intros ->. Qed.

Lemma digitRun_natToString (n : Z) (rest : string) :
  0 <= n -> noDigitAhead rest -> digitRun (natToString n +:+ rest) None = Some n.
Proof.
  intros Hn Hr. unfold natToString. rewrite JsonFacts.digitsAcc_app.
  change (EmptyString +:+ rest) with rest.
  rewrite (digitRun_digitsAcc _ n rest (JsonFacts.log2_bound n Hn)).
  now apply digitRun_stop.
Qed.

(** A digit is neither white space nor a sign. *)
Lemma digit_plain (c : ascii) (d : Z) :
  Json.digitValue c = Some d ->
  isWhiteSpace c = false /\ Ascii.eqb c "-" = false /\ Ascii.eqb c "+" = false.
Proof.
  destruct c as [[] [] [] [] [] [] [] []]; intros H; try discriminate H; repeat split.
Qed.

Lemma natToString_head (n : Z) (rest : string) :
  0 <= n ->
  exists c r d, natToString n +:+ rest = String c r /\ Json.digitValue c = Some d.
Proof.
  intros Hn. unfold natToString. rewrite JsonFacts.digitsAcc_app.
  destruct (Z.eq_dec n 0) as [-> | Hne]; [now do 3 eexists|].
  destruct (JsonFacts.digitsAcc_head (Z.to_nat (Z.log2 n)) n (EmptyString +:+ rest))
    as (c & r & Heq & _ & _ & d & Hd).
  { pose proof (JsonFacts.log2_bound n Hn). lia. }
  now exists c, r, d.
Qed.

(** [parseInt(String(n) + rest, 10)] is [n] when no digit starts [rest]. *)
Lemma parseInt_numberToString (n : Z) (rest : string) :
  noDigitAhead rest -> parseInt (numberToString n +:+ rest) = Some n.
Proof.
  intros Hr. unfold numberToString. destruct (Z.ltb_spec n 0) as [Hneg | Hpos].
  - unfold parseInt. cbn [String.append trimStart].
    change (isWhiteSpace "-") with false. cbv iota.
    change (Ascii.eqb "-" "-") with true. cbv iota.
    rewrite (digitRun_natToString (- n) rest) by (lia || assumption).
    cbn [option_map]. f_equal. lia.
  - destruct (natToString_head n rest Hpos) as (c & r & d & Heq & Hd).
    destruct (digit_plain c d Hd) as (Hw & Hm & Hp).
    pose proof (digitRun_natToString n rest Hpos Hr) as Hrun.
    rewrite Heq in *. unfold parseInt. cbn [trimStart]. now rewrite Hw, Hm, Hp.
Qed.

End NumeralFacts.

(** X5.  [parseIntOrDefault] returns the default for a variable that is
    absent or empty, and for an ASCII text that, after its leading white
    space, starts with neither a digit nor a sign; it returns [n] for the
    decimal numeral of any safe integer [n], zero and negative numbers
    included, also when other text that starts with no digit follows the
    numeral. *)
Theorem parseIntOrDefault_numerals (defaultValue : Z) :
  Config.parseIntOrDefault None defaultValue = defaultValue
  /\ Config.parseIntOrDefault (Some EmptyString) defaultValue = defaultValue
  /\ (forall (value : string) (c : ascii) (r : string),
        asciiText value = true ->
        Js.trimStart value = String c r ->
        Json.digitValue c = None -> Ascii.eqb c "-" = false -> Ascii.eqb c "+" = false ->
        Config.parseIntOrDefault (Some value) defaultValue = defaultValue)
  /\ (forall (n : Z) (rest : string),
        safeInteger n ->
        noDigitAhead rest ->
        Config.parseIntOrDefault (Some (Js.numberToString n +:+ rest)) defaultValue = n).
Proof.
  split; [reflexivity|]. split; [reflexivity|]. split.
  - intros value c r _ Ht Hd Hm Hp. unfold Config.parseIntOrDefault.
    destruct value as [|v0 v]; [reflexivity|].
    unfold JsGlobal.parseInt. rewrite Ht, Hm, Hp. cbn [JsGlobal.digitRun]. now rewrite Hd.
  - intros n rest _ Hr. unfold Config.parseIntOrDefault.
    destruct (NumeralFacts.natToString_head (Z.abs n) rest ltac:(lia)) as (c & r & d & Heq & _).
    rewrite (NumeralFacts.parseInt_numberToString n rest Hr).
    unfold Js.numberToString in *. destruct (n <? 0) eqn:E; [reflexivity|].
    apply Z.ltb_ge in E. rewrite Z.abs_eq in Heq by assumption. now rewrite Heq.
Qed.

(** The port variable set to a word, to a numeral, and to a numeral with a
    unit behind it. *)
Lemma parseIntOrDefault_examples :
  Config.parseIntOrDefault (Some "  auto") 8080 = 8080
  /\ Config.parseIntOrDefault (Some "3000") 8080 = 3000
  /\ Config.parseIntOrDefault (Some "0") 8080 = 0
  /\ Config.parseIntOrDefault (Some "-1") 8080 = -1
  /\ Config.parseIntOrDefault (Some "30000ms") 30000 = 30000.
Proof.
  destruct (parseIntOrDefault_numerals 8080) as (_ & _ & Hword & Hnum).
  destruct (parseIntOrDefault_numerals 30000) as (_ & _ & _ & Hnum').
  split; [|split; [|split; [|split]]].
  - apply (Hword "  auto" "a"%char "uto"); reflexivity.
  - apply (Hnum 3000 EmptyString); [unfold safeInteger; cbn; lia | exact I].
  - apply (Hnum 0 EmptyString); [unfold safeInteger; cbn; lia | exact I].
  - apply (Hnum (-1) EmptyString); [unfold safeInteger; cbn; lia | exact I].
  - apply (Hnum' 30000 "ms"); [unfold safeInteger; cbn; lia | reflexivity].
Defined.

(** X6.  The configuration is loaded at the first call of [getConfig] and
    kept: a later call returns the same record whatever the environment has
    become, until [resetConfig], after which the next call loads the
    environment of that moment. *)
Theorem getConfig_loads_once (env env' : Config.Env) (configInstance : option Config.Config) :
  let first := Config.getConfig env configInstance in
  snd first = Some (fst first)
  /\ Config.getConfig env' (snd first) = first
  /\ (configInstance = None -> fst first = Config.loadConfig env)
  /\ Config.getConfig env' (Config.resetConfig (snd first))
     = (Config.loadConfig env', Some (Config.loadConfig env')).
Proof. destruct configInstance as [config|]; repeat split; intros; discriminate. Qed.

Lemma getConfig_loads_once_example :
  fst (Config.getConfig
         {| Config.PORT := Some "3000"; Config.REQUEST_TIMEOUT := None;
            Config.MAX_CONCURRENT_REQUESTS := None; Config.USER_AGENT := Some EmptyString |}
         None)
  = {| Config.port := 3000; Config.requestTimeout := 30000;
       Config.maxConcurrentRequests := 5;
       Config.userAgent := Config.userAgent Config.defaults |}.
Proof.
  exact (eq_trans
           (proj1 (proj2 (proj2 (getConfig_loads_once
                                   {| Config.PORT := Some "3000";
                                      Config.REQUEST_TIMEOUT := None;
                                      Config.MAX_CONCURRENT_REQUESTS := None;
                                      Config.USER_AGENT := Some EmptyString |}
                                   {| Config.PORT := None; Config.REQUEST_TIMEOUT := None;
                                      Config.MAX_CONCURRENT_REQUESTS := None;
                                      Config.USER_AGENT := None |}
                                   None))) eq_refl)
           eq_refl).
Defined.

Module CliFacts.
Import Cli.

(** One step of the loop of [parseArgs]. *)
Lemma parseArgsFrom_step (args : list string) (result : CliArgs) :
  args <> [] ->
  exists rest result',
    parseArgsFrom args result = parseArgsFrom rest result'
    /\ (length rest < length args)%nat
    /\ (stdio result = true -> stdio result' = true)
    /\ (help result = true -> help result' = true)
    /\ (forall p, port result' = Some p ->
                  port result = Some p \/ 0 < p < 65536).
Proof.
  destruct args as [|arg rest]; [contradiction|]. intros _. cbn [parseArgsFrom].
  destruct (String.eqb arg "--stdio" || String.eqb arg "-s").
  { do 2 eexists. split; [reflexivity|]. cbn. repeat split; auto. }
  destruct (String.eqb arg "--port" || String.eqb arg "-p").
  { destruct rest as [|portArg rest'].
    - exists [], result. cbn. repeat split; auto.
    - do 2 eexists. split; [reflexivity|]. cbn [length]. split; [lia|].
      destruct (String.eqb portArg EmptyString); [repeat split; auto|].
      destruct (JsGlobal.parseInt portArg) as [n|]; [|repeat split; auto].
      destruct (Z.ltb_spec 0 n); cbn [andb]; [|repeat split; auto].
      destruct (Z.ltb_spec n 65536); [|repeat split; auto].
      cbn. repeat split; auto. intros p [= <-]. right. lia. }
  destruct (String.eqb arg "--help" || String.eqb arg "-h").
  { do 2 eexists. split; [reflexivity|]. cbn. repeat split; auto. }
  do 2 eexists. split; [reflexivity|]. cbn. repeat split; auto.
Qed.

(** What holds of the result, whatever the arguments. *)
Lemma parseArgsFrom_keeps (args : list string) (result : CliArgs) :
  (stdio result = true -> stdio (parseArgsFrom args result) = true)
  /\ (help result = true -> help (parseArgsFrom args result) = true)
  /\ (forall p, port (parseArgsFrom args result) = Some p ->
                port result = Some p \/ 0 < p < 65536).
Proof.
  remember (length args) as k eqn:Hk. revert args result Hk.
  induction k as [k IH] using lt_wf_ind. intros args result ->.
  destruct args as [|arg rest]; [cbn; auto|].
  destruct (parseArgsFrom_step (arg :: rest) result ltac:(discriminate))
    as (rest' & result' & -> & Hlen & Hs & Hh & Hp).
  destruct (IH (length rest') Hlen rest' result' eq_refl) as (Hs' & Hh' & Hp').
  repeat split; auto. intros p H. apply Hp' in H as [H | H]; auto.
Qed.

(** The flags of the result do not depend on the port found so far, and the
    port found later does not depend on the flags. *)
Lemma parseArgsFrom_frame (args : list string) (result : CliArgs) :
  stdio (parseArgsFrom args result) = stdio result || stdio (parseArgs args)
  /\ help (parseArgsFrom args result) = help result || help (parseArgs args)
  /\ port (parseArgsFrom args result)
     = match port (parseArgs args) with
       | Some p => Some p
       | None => port result
       end.
Proof.
  unfold parseArgs.
  remember (length args) as k eqn:Hk. revert args result Hk.
  induction k as [k IH] using lt_wf_ind. intros args result ->.
  assert (Hrec : forall rest r, (length rest < length args)%nat ->
    stdio (parseArgsFrom rest r)
    = stdio r || stdio (parseArgsFrom rest {| stdio := false; port := None; help := false |})
    /\ help (parseArgsFrom rest r)
       = help r || help (parseArgsFrom rest {| stdio := false; port := None; help := false |})
    /\ port (parseArgsFrom rest r)
       = match port (parseArgsFrom rest {| stdio := false; port := None; help := false |}) with
         | Some p => Some p
         | None => port r
         end).
  { intros rest r Hlen. exact (IH (length rest) Hlen rest r eq_refl). }
  clear IH. destruct args as [|arg rest].
  { cbn. now rewrite !orb_false_r. }
  cbn [parseArgsFrom]. cbn [stdio port help].
  destruct (String.eqb arg "--stdio" || String.eqb arg "-s").
  { destruct (Hrec rest {| stdio := true; port := port result; help := help result |}
                ltac:(cbn; lia)) as (-> & -> & ->).
    destruct (Hrec rest {| stdio := true; port := None; help := false |}
                ltac:(cbn; lia)) as (-> & -> & ->).
    cbn. rewrite orb_true_r. repeat split. now destruct (port _). }
  destruct (String.eqb arg "--port" || String.eqb arg "-p").
  { destruct rest as [|portArg rest'].
    { cbn. now rewrite !orb_false_r. }
    match goal with
    | |- context [parseArgsFrom rest' ?r] =>
        match r with
        | context [result] =>
            destruct (Hrec rest' r ltac:(cbn; lia)) as (-> & -> & ->)
        end
    end.
    match goal with
    | |- context [parseArgsFrom rest' (if ?b then ?r0 else ?e)] =>
        destruct (Hrec rest' (if b then r0 else e) ltac:(cbn; lia)) as (-> & -> & ->)
    end.
    destruct (String.eqb portArg EmptyString); [cbn; repeat split; now destruct (port _)|].
    destruct (JsGlobal.parseInt portArg) as [n|]; [|cbn; repeat split; now destruct (port _)].
    destruct ((0 <? n) && (n <? 65536)); cbn; repeat split; now destruct (port _). }
  destruct (String.eqb arg "--help" || String.eqb arg "-h").
  { destruct (Hrec rest {| stdio := stdio result; port := port result; help := true |}
                ltac:(cbn; lia)) as (-> & -> & ->).
    destruct (Hrec rest {| stdio := false; port := None; help := true |}
                ltac:(cbn; lia)) as (-> & -> & ->).
    cbn. rewrite orb_true_r. repeat split. now destruct (port _). }
  now apply Hrec; cbn; lia.
Qed.

End CliFacts.

(** X7.  A port in the result of [parseArgs] is an integer between 1 and
    65535; and after [--port] or [-p], the decimal numeral of such an integer
    sets the port, unless a later option sets it again. *)
Theorem parseArgs_port (args : list string) :
  (forall p, Cli.port (Cli.parseArgs args) = Some p -> 0 < p < 65536)
  /\ (forall (n : Z) (option : string),
        0 < n < 65536 -> option = "--port" \/ option = "-p" ->
        Cli.port (Cli.parseArgs (option :: Js.numberToString n :: args))
        = Some (Js.nullish (Cli.port (Cli.parseArgs args)) n)).
Proof.
  split.
  - intros p H. unfold Cli.parseArgs in H.
    apply CliFacts.parseArgsFrom_keeps in H as [H | H]; [discriminate H | exact H].
  - intros n option Hn Hoption.
    assert (Hstep : Cli.parseArgs (option :: Js.numberToString n :: args)
                    = Cli.parseArgsFrom args
                        {| Cli.stdio := false; Cli.port := Some n; Cli.help := false |}).
    { unfold Cli.parseArgs. cbn [Cli.parseArgsFrom].
      assert (Ho : String.eqb option "--stdio" || String.eqb option "-s" = false
                   /\ String.eqb option "--port" || String.eqb option "-p" = true)
        by (destruct Hoption as [-> | ->]; now split).
      destruct Ho as [-> ->].
      pose proof (NumeralFacts.parseInt_numberToString n EmptyString I) as Hparse.
      destruct (NumeralFacts.natToString_head (Z.abs n) EmptyString ltac:(lia))
        as (c & r & d & Heq & _).
      assert (Hne : String.eqb (Js.numberToString n) EmptyString = false).
      { unfold Js.numberToString. destruct (n <? 0) eqn:E; [reflexivity|].
        rewrite Z.abs_eq in Heq by lia.
        assert (Happ : forall s, s +:+ EmptyString = s)
          by (induction s as [|x s IHs]; cbn; congruence).
        rewrite Happ in Heq. now rewrite Heq. }
      rewrite Hne.
      assert (Happ : Js.numberToString n +:+ EmptyString = Js.numberToString n).
      { generalize (Js.numberToString n). induction s as [|x s IHs]; cbn; congruence. }
      rewrite Happ in Hparse. rewrite Hparse.
      destruct (Z.ltb_spec 0 n); [|lia]. destruct (Z.ltb_spec n 65536); [|lia].
      reflexivity. }
    rewrite Hstep.
    destruct (CliFacts.parseArgsFrom_frame args
                {| Cli.stdio := false; Cli.port := Some n; Cli.help := false |})
      as (_ & _ & ->).
    now destruct (Cli.port (Cli.parseArgs args)).
Qed.

(** The port 3000, and a port that is out of range. *)
Lemma parseArgs_port_example :
  Cli.port (Cli.parseArgs ["--stdio"; "-p"; "3000"]) = Some 3000
  /\ Cli.port (Cli.parseArgs ["--port"; "70000"]) = None.
Proof.
  split; [|reflexivity].
  assert (H : Cli.port (Cli.parseArgs ["--stdio"; "-p"; "3000"]) = Some 3000) by reflexivity.
  pose proof (proj1 (parseArgs_port ["--stdio"; "-p"; "3000"]) 3000 H) as _.
  exact (proj2 (parseArgs_port []) 3000 "-p" ltac:(lia) (or_intror eq_refl)).
Defined.

(** X8.  The argument that follows [--port] or [-p] is taken as the port,
    whatever it is: it is never read as an option, so the flags of the result
    are those of the arguments after it.  An argument that is no option is
    skipped. *)
Theorem parseArgs_port_takes_next (option next : string) (args : list string) :
  option = "--port" \/ option = "-p" ->
  Cli.stdio (Cli.parseArgs (option :: next :: args)) = Cli.stdio (Cli.parseArgs args)
  /\ Cli.help (Cli.parseArgs (option :: next :: args)) = Cli.help (Cli.parseArgs args)
  /\ Cli.parseArgs [option] = Cli.parseArgs []
  /\ (forall other : string,
        ~ In other ["--stdio"; "-s"; "--port"; "-p"; "--help"; "-h"] ->
        Cli.parseArgs (other :: args) = Cli.parseArgs args).
Proof.
  intros Hoption.
  assert (Ho : String.eqb option "--stdio" || String.eqb option "-s" = false
               /\ String.eqb option "--port" || String.eqb option "-p" = true)
    by (destruct Hoption as [-> | ->]; now split).
  destruct Ho as [Ho1 Ho2].
  assert (Hflags : forall r,
            Cli.stdio r = false -> Cli.help r = false ->
            Cli.stdio (Cli.parseArgsFrom args r) = Cli.stdio (Cli.parseArgs args)
            /\ Cli.help (Cli.parseArgsFrom args r) = Cli.help (Cli.parseArgs args)).
  { intros r Hs Hh. destruct (CliFacts.parseArgsFrom_frame args r) as (-> & -> & _).
    now rewrite Hs, Hh. }
  split; [|split; [|split]].
  - unfold Cli.parseArgs at 1. cbn [Cli.parseArgsFrom]. rewrite Ho1, Ho2.
    apply Hflags; destruct (String.eqb next EmptyString); try reflexivity;
      destruct (JsGlobal.parseInt next) as [n|]; try reflexivity;
      destruct ((0 <? n) && (n <? 65536)); reflexivity.
  - unfold Cli.parseArgs at 1. cbn [Cli.parseArgsFrom]. rewrite Ho1, Ho2.
    apply Hflags; destruct (String.eqb next EmptyString); try reflexivity;
      destruct (JsGlobal.parseInt next) as [n|]; try reflexivity;
      destruct ((0 <? n) && (n <? 65536)); reflexivity.
  - unfold Cli.parseArgs. cbn [Cli.parseArgsFrom]. now rewrite Ho1, Ho2.
  - intros other Hother. unfold Cli.parseArgs. cbn [Cli.parseArgsFrom].
    assert (Hno : forall x, In x ["--stdio"; "-s"; "--port"; "-p"; "--help"; "-h"] ->
                            String.eqb other x = false).
    { intros x Hx. apply String.eqb_neq. intros ->. contradiction. }
    rewrite !Hno by (cbn; tauto). reflexivity.
Qed.

(** The option of the STDIO transport, read as a port, selects nothing. *)
Lemma parseArgs_port_takes_next_example :
  Cli.parseArgs ["--port"; "--stdio"]
  = {| Cli.stdio := false; Cli.port := None; Cli.help := false |}
  /\ Cli.stdio (Cli.parseArgs ["--port"; "--stdio"; "--stdio"]) = true.
Proof.
  destruct (parseArgs_port_takes_next "--port" "--stdio" ["--stdio"] (or_introl eq_refl))
    as (Hstdio & _).
  split; [reflexivity|]. rewrite Hstdio. reflexivity.
Defined.
(* ===================================================================== *)
(** * The Enumerator *)
(* ===================================================================== *)

Lemma indexEntries_locations (entries : list XmlEntry) :
  map loc (indexEntries entries) = locations entries
  /\ Forall (fun e => loc e <> EmptyString /\ changefreq e = None /\ priority e = None)
       (indexEntries entries).
Proof.
  unfold locations. induction entries as [|entry rest [IH1 IH2]]; [now split|].
  cbn [indexEntries omap list_omap].
  destruct (x_loc entry) as [[|c l]|]; cbn [truthy]; [now split | | now split].
  cbn [map]. split; [now rewrite IH1|]. constructor; [|exact IH2]. now repeat split.
Qed.

Lemma urlEntries_locations (entries : list XmlEntry) :
  map loc (urlEntries entries) = locations entries
  /\ Forall (fun e => loc e <> EmptyString) (urlEntries entries).
Proof.
  unfold locations. induction entries as [|entry rest [IH1 IH2]]; [now split|].
  cbn [urlEntries omap list_omap].
  destruct (x_loc entry) as [[|c l]|]; cbn [truthy]; [now split | | now split].
  cbn [map]. split; [now rewrite IH1|]. constructor; [|exact IH2]. discriminate.
Qed.

(** X9.  Of a parsed document, [parseSitemapContent] lists the entries that
    have a location, in document order, and skips the others.  A sitemap
    index is listed when the document has one, whatever else it has: then
    [indexUrls] are the listed locations, and the entries carry neither
    change frequency nor priority.  Otherwise the URL set is listed, and a
    document with neither is an empty sitemap, not an error.  What the parser
    throws is thrown on. *)
Theorem parseSitemapContent_shape (w : World) (content : string) :
  match xmlParse w content with
  | Throw e => parseSitemapContent w content = Throw e
  | Ret doc =>
      exists parsed,
        parseSitemapContent w content = Ret parsed
        /\ Forall (fun e => loc e <> EmptyString) (urls parsed)
        /\ match sitemapindex_sitemap doc, urlset_url doc with
           | Some entries, _ =>
               isIndex parsed = true
               /\ map loc (urls parsed) = locations entries
               /\ indexUrls parsed = locations entries
               /\ Forall (fun e => changefreq e = None /\ priority e = None) (urls parsed)
           | None, Some entries =>
               isIndex parsed = false
               /\ map loc (urls parsed) = locations entries
               /\ indexUrls parsed = []
           | None, None => parsed = {| urls := []; isIndex := false; indexUrls := [] |}
           end
  end.
Proof.
  unfold parseSitemapContent. destruct (xmlParse w content) as [doc|e]; [|reflexivity].
  destruct (sitemapindex_sitemap doc) as [entries|].
  - destruct (indexEntries_locations entries) as [Hl Hf].
    eexists. split; [reflexivity|]. cbn [urls isIndex indexUrls]. split.
    + eapply Forall_impl; [exact Hf|]. now intros e (H & _).
    + repeat split; auto. eapply Forall_impl; [exact Hf|]. now intros e (_ & H).
  - destruct (urlset_url doc) as [entries|].
    + destruct (urlEntries_locations entries) as [Hl Hf].
      eexists. split; [reflexivity|]. cbn [urls isIndex indexUrls]. now repeat split.
    + eexists. split; [reflexivity|]. cbn [urls]. now split.
Qed.

Lemma slice_sublist {A} (l : list A) (start end_ : Z) : sublist (slice l start end_) l.
Proof.
  unfold slice. etrans; [apply sublist_take | apply sublist_drop].
Qed.

Lemma slice_length {A} (l : list A) (o p : Z) :
  0 <= p -> Z.of_nat (length (slice l o (o + p))) <= p.
Proof.
  intros Hp. unfold slice. cbv zeta. rewrite length_firstn.
  etrans; [apply inj_le, Nat.le_min_l|].
  destruct (Z.ltb_spec o 0); destruct (Z.ltb_spec (o + p) 0); lia.
Qed.

(** What a call returns when the document is there. *)
Lemma listPage_success (sitemapUrl : string) (p : Z) (o : OffsetValue)
    (parsed : ParsedSitemap) (data : ListSitemapUrlsData) (meta : ResponseMeta) :
  0 <= p ->
  listPage sitemapUrl p o parsed = Returned (Success data meta) ->
  lsu_sitemap_url data = sitemapUrl
  /\ source meta = Some sitemapUrl
  /\ is_index data = isIndex parsed
  /\ total_in_page data = Z.of_nat (length (lsu_urls data))
  /\ total_in_page data <= p
  /\ sublist (lsu_urls data) (urls parsed).
Proof.
  intros Hp H. destruct o as [o| |]; [| |discriminate H];
    unfold listPage, createSuccessResponse in H; injection H as <- <-;
    cbn [lsu_sitemap_url source is_index total_in_page lsu_urls arg_source].
  - repeat split; [now apply slice_length | apply slice_sublist].
  - repeat split; [cbn; lia | apply sublist_nil_l].
Qed.

(** The call answers with an envelope when the offset of its cursor is an
    integer or is absent. *)
Lemma listSitemapUrls_returns (w : World) (sitemapUrl : string) (limit : option Z)
    (cursor : option string) (st : St) :
  integerOffset cursor ->
  exists response st',
    listSitemapUrls w sitemapUrl limit cursor st = Some (Returned response, st').
Proof.
  intros Hcursor. unfold listSitemapUrls.
  destruct (String.eqb sitemapUrl EmptyString); [now do 2 eexists|].
  destruct (negb (isValidUrl w sitemapUrl)); [now do 2 eexists|].
  assert (Hproceed : forall o, o <> OffsetOther ->
    exists response st',
      bind (fetchSitemap w sitemapUrl)
        (fun fetched => match fetched with
                        | Throw error => ret (Returned (listFailure sitemapUrl error))
                        | Ret parsed => ret (listPage sitemapUrl (pageLimit limit) o parsed)
                        end) st
      = Some (Returned response, st')).
  { intros o Ho. rewrite (bind_run _ _ _ _ _ (fetchSitemap_run w sitemapUrl st)).
    destruct (readSitemap w sitemapUrl (fetch w sitemapUrl)) as [parsed|e];
      [|now do 2 eexists].
    destruct o as [o| |]; [now do 2 eexists | now do 2 eexists | contradiction]. }
  destruct cursor as [[|c0 c]|]; [now apply Hproceed | | now apply Hproceed].
  destruct (negb (Json.truthy (decodeCursor (String c0 c)))); [now do 2 eexists|].
  now apply Hproceed.
Qed.

(** X10.  A call of [listSitemapUrls] without cursor, or with a cursor
    whose decoded offset is an integer of any sign or is absent, answers with
    an envelope; when the envelope is a success, the call has fetched the
    sitemap and nothing else; its page is a part of the entries of the
    document, in their order; [total_in_page] is the length of the page and
    is at most the page size, which is at most 1000; and the URL and the
    source of the answer are the argument. *)
Theorem listSitemapUrls_page_bounds
    (w : World) (sitemapUrl : string) (limit : option Z) (cursor : option string) (st : St) :
  integerOffset cursor ->
  (exists response st',
     listSitemapUrls w sitemapUrl limit cursor st = Some (Returned response, st'))
  /\ forall (data : ListSitemapUrlsData) (meta : ResponseMeta) (st' : St),
       listSitemapUrls w sitemapUrl limit cursor st
       = Some (Returned (Success data meta), st') ->
       st' = logged st sitemapUrl
       /\ lsu_sitemap_url data = sitemapUrl
       /\ source meta = Some sitemapUrl
       /\ total_in_page data = Z.of_nat (length (lsu_urls data))
       /\ total_in_page data <= pageLimit limit <= 1000
       /\ exists parsed,
            readSitemap w sitemapUrl (fetch w sitemapUrl) = Ret parsed
            /\ sublist (lsu_urls data) (urls parsed)
            /\ is_index data = isIndex parsed.
Proof.
  intros Hcursor. split; [now apply listSitemapUrls_returns|].
  intros data meta st' H.
  pose proof (pageLimit_range limit) as Hp. unfold listSitemapUrls in H.
  destruct (String.eqb sitemapUrl EmptyString); [discriminate H|].
  destruct (negb (isValidUrl w sitemapUrl)); [discriminate H|].
  assert (Hproceed : forall o,
    bind (fetchSitemap w sitemapUrl)
      (fun fetched => match fetched with
                      | Throw error => ret (Returned (listFailure sitemapUrl error))
                      | Ret parsed => ret (listPage sitemapUrl (pageLimit limit) o parsed)
                      end) st
    = Some (Returned (Success data meta), st') ->
    st' = logged st sitemapUrl
    /\ lsu_sitemap_url data = sitemapUrl
    /\ source meta = Some sitemapUrl
    /\ total_in_page data = Z.of_nat (length (lsu_urls data))
    /\ total_in_page data <= pageLimit limit <= 1000
    /\ exists parsed,
         readSitemap w sitemapUrl (fetch w sitemapUrl) = Ret parsed
         /\ sublist (lsu_urls data) (urls parsed)
         /\ is_index data = isIndex parsed).
  { intros o Hrun.
    rewrite (bind_run _ _ _ _ _ (fetchSitemap_run w sitemapUrl st)) in Hrun.
    destruct (readSitemap w sitemapUrl (fetch w sitemapUrl)) as [parsed|e] eqn:Hread;
      cbv [ret] in Hrun; injection Hrun as Hpage <-.
    - destruct (listPage_success sitemapUrl (pageLimit limit) o parsed data meta
                  ltac:(lia) Hpage)
        as (H1 & H2 & H3 & H4 & H5 & H6).
      repeat split; auto; try lia. now exists parsed.
    - unfold listFailure, createErrorResponse in Hpage. destruct e as [name message|];
        repeat match type of Hpage with
               | context [if ?b then _ else _] => destruct b
               end; discriminate Hpage. }
  destruct cursor as [[|c0 c]|]; [now apply (Hproceed (OffsetInt 0)) | |
                                   now apply (Hproceed (OffsetInt 0))].
  destruct (negb (Json.truthy (decodeCursor (String c0 c)))); [discriminate H|].
  now apply (Hproceed (offsetOf (decodeCursor (String c0 c)))).
Qed.

(** The second page of two entries, of a sitemap of three. *)
Lemma listSitemapUrls_page_bounds_example :
  exists data meta,
    listSitemapUrls (Fixtures.bigSitemap 3) "https://example.com/sitemap.xml" (Some 2)
      (Some (encodeCursor {| offset := 2; sitemap_url := None |})) initial
    = Some (Returned (Success data meta), logged initial "https://example.com/sitemap.xml")
    /\ total_in_page data = 1
    /\ total_in_page data <= 2.
Proof.
  assert (Hrun : exists data meta st',
    listSitemapUrls (Fixtures.bigSitemap 3) "https://example.com/sitemap.xml" (Some 2)
      (Some (encodeCursor {| offset := 2; sitemap_url := None |})) initial
    = Some (Returned (Success data meta), st') /\ total_in_page data = 1).
  { do 3 eexists. split; [vm_compute; reflexivity | reflexivity]. }
  destruct Hrun as (data & meta & st' & Hrun & Htotal).
  assert (Hcursor : integerOffset (Some (encodeCursor {| offset := 2; sitemap_url := None |})))
    by (vm_compute; discriminate).
  destruct (proj2 (listSitemapUrls_page_bounds _ _ _ _ _ Hcursor) _ _ _ Hrun)
    as (Hst & _ & _ & _ & Hle & _).
  exists data, meta. rewrite <- Hst. repeat split; [exact Hrun | exact Htotal | exact (proj1 Hle)].
Defined.

(** X11.  A client that follows the cursors from the first page receives
    every entry of the document once, in order: the pages, put end to end,
    are the entries of the document, and no page is longer than the page
    size. *)
Theorem allPages_are_the_document
    (w : World) (sitemapUrl : string) (limit : option Z) (parsed : ParsedSitemap)
    (st : St) (fuel : nat) :
  sitemapUrl <> EmptyString ->
  isValidUrl w sitemapUrl = true ->
  readSitemap w sitemapUrl (fetch w sitemapUrl) = Ret parsed ->
  (length (urls parsed) < fuel)%nat ->
  exists pages,
    allPages w fuel sitemapUrl limit None st = Some pages
    /\ concat pages = urls parsed
    /\ Forall (fun page => Z.of_nat (length page) <= pageLimit limit) pages.
Proof.
  intros Hne Hvalid Hread Hfuel.
  pose proof (pageLimit_range limit) as Hp.
  assert (Hgen : forall fuel cursor o st,
    cursorAt cursor o -> 0 <= o ->
    (length (urls parsed) - Z.to_nat o < fuel)%nat ->
    exists pages,
      allPages w fuel sitemapUrl limit cursor st = Some pages
      /\ concat pages = skipn (Z.to_nat o) (urls parsed)
      /\ Forall (fun page => Z.of_nat (length page) <= pageLimit limit) pages).
  { clear fuel st Hfuel. induction fuel as [|fuel IH]; intros cursor o st Hc Ho Hf; [lia|].
    cbn [allPages].
    rewrite (listSitemapUrls_window w sitemapUrl limit cursor o parsed st Hne Hvalid Hread Hc Ho).
    cbv zeta. cbn [pagination next_cursor lsu_urls].
    assert (Hlen : Z.of_nat (length (firstn (Z.to_nat (pageLimit limit))
                                       (skipn (Z.to_nat o) (urls parsed))))
                   <= pageLimit limit) by (rewrite length_firstn; lia).
    destruct (Z.ltb_spec (o + pageLimit limit) (Z.of_nat (length (urls parsed))))
      as [Hmore | Hlast].
    - destruct (IH (Some (encodeCursor {| offset := o + pageLimit limit;
                                          sitemap_url := None |}))
                  (o + pageLimit limit) (logged st sitemapUrl)
                  (cursorAt_encodeCursor {| offset := o + pageLimit limit;
                                            sitemap_url := None |})
                  ltac:(lia) ltac:(lia)) as (pages & -> & Hcat & Hall).
      eexists. split; [reflexivity|]. split; [|now constructor].
      cbn [concat]. rewrite Hcat.
      replace (Z.to_nat (o + pageLimit limit))
        with (Z.to_nat (pageLimit limit) + Z.to_nat o)%nat by lia.
      rewrite <- skipn_skipn. apply firstn_skipn.
    - eexists. split; [reflexivity|]. split; [|now repeat constructor].
      cbn [concat]. rewrite app_nil_r. apply firstn_all2. rewrite length_skipn. lia. }
  destruct (Hgen fuel None 0 st ltac:(now left) ltac:(lia) ltac:(lia))
    as (pages & Hrun & Hcat & Hall).
  exists pages. now repeat split.
Qed.

(** Three entries by pages of two. *)
Lemma allPages_of_three :
  exists first second,
    allPages (Fixtures.bigSitemap 3) 4 "https://example.com/sitemap.xml" (Some 2) None initial
    = Some [first; second]
    /\ first ++ second = urlEntries (Fixtures.numbered 3)
    /\ length first = 2%nat.
Proof.
  destruct (allPages_are_the_document (Fixtures.bigSitemap 3)
              "https://example.com/sitemap.xml" (Some 2)
              {| urls := urlEntries (Fixtures.numbered 3); isIndex := false; indexUrls := [] |}
              initial 4 ltac:(discriminate) eq_refl eq_refl ltac:(cbn; lia))
    as (pages & Hrun & Hcat & _).
  assert (Hpages : exists first second,
            allPages (Fixtures.bigSitemap 3) 4 "https://example.com/sitemap.xml" (Some 2)
              None initial = Some [first; second] /\ length first = 2%nat).
  { do 2 eexists. split; [vm_compute; reflexivity | reflexivity]. }
  destruct Hpages as (first & second & Hrun' & Hlen).
  exists first, second. split; [exact Hrun'|]. split; [|exact Hlen].
  rewrite Hrun' in Hrun. injection Hrun as <-. cbn [concat] in Hcat.
  now rewrite app_nil_r in Hcat.
Defined.



Lemma includes_after_prefix (a b sub : string) (t : ascii) :
  Js.existsb_str (Ascii.eqb t) a = false ->
  Js.includes (a +:+ b) (String t sub) = Js.includes b (String t sub).
Proof.
  induction a as [|c a IH]; [reflexivity|]. cbn [Js.existsb_str]. intros H.
  apply orb_false_iff in H as [Hc Ha]. cbn [String.append Js.includes Js.startsWith].
  rewrite Hc. cbn [andb orb]. now apply IH.
Qed.

Lemma digitChar_not_t (d : Z) : 0 <= d < 10 -> Ascii.eqb "t" (Js.digitChar d) = false.
Proof.
  intros H.
  assert (Hd : d = 0 \/ d = 1 \/ d = 2 \/ d = 3 \/ d = 4 \/ d = 5 \/ d = 6 \/ d = 7
               \/ d = 8 \/ d = 9) by lia.
  repeat (destruct Hd as [-> | Hd]; [reflexivity|]). subst d. reflexivity.
Qed.

Lemma digitsAcc_no_t (f : nat) (n : Z) (acc : string) :
  Js.existsb_str (Ascii.eqb "t") acc = false ->
  Js.existsb_str (Ascii.eqb "t") (Js.digitsAcc f n acc) = false.
Proof.
  revert n acc. induction f as [|f IH]; intros n acc Hacc; cbn [Js.digitsAcc].
  - cbn [Js.existsb_str]. rewrite digitChar_not_t by (apply Z.mod_pos_bound; lia). exact Hacc.
  - assert (Hstep : Js.existsb_str (Ascii.eqb "t") (String (Js.digitChar (n mod 10)) acc) = false).
    { cbn [Js.existsb_str]. rewrite digitChar_not_t by (apply Z.mod_pos_bound; lia).
      exact Hacc. }
    destruct (n <? 10); [exact Hstep | now apply IH].
Qed.

Lemma numberToString_no_t (n : Z) :
  Js.existsb_str (Ascii.eqb "t") (Js.numberToString n) = false.
Proof.
  unfold Js.numberToString, Js.natToString.
  destruct (n <? 0); [cbn [Js.existsb_str]; cbn [Ascii.eqb Bool.eqb orb]|];
    now apply digitsAcc_no_t.
Qed.

(** X13.  When the sitemap answers with a status that is not a success,
    [listSitemapUrls] returns UPSTREAM_ERROR with the message made of HTTP,
    the status and the status text; unless the status text holds the word
    timeout in lower case, in which case the envelope is the one of a
    timeout. *)
Theorem listSitemapUrls_http_error
    (w : World) (sitemapUrl : string) (limit : option Z) (cursor : option string)
    (st : St) (response : HttpResponse) :
  sitemapUrl <> EmptyString ->
  isValidUrl w sitemapUrl = true ->
  cursorAccepted cursor ->
  fetch w sitemapUrl = Ret response ->
  resp_ok response = false ->
  listSitemapUrls w sitemapUrl limit cursor st
  = Some (Returned
            (if Js.includes (resp_statusText response) "timeout"
             then Failure TIMEOUT ("Request timed out while fetching sitemap: " +:+ sitemapUrl)
             else Failure UPSTREAM_ERROR
                    ("HTTP " +:+ Js.numberToString (resp_status response) +:+ ": "
                     +:+ resp_statusText response)),
          logged st sitemapUrl).
Proof.
  intros Hne Hvalid Hcursor Hfetch Hok. unfold listSitemapUrls.
  destruct (String.eqb_spec sitemapUrl EmptyString) as [? | _]; [contradiction|].
  rewrite Hvalid. cbn [negb].
  set (message := "HTTP " +:+ Js.numberToString (resp_status response) +:+ ": "
                  +:+ resp_statusText response).
  assert (Htimeout : Js.includes message "timeout"
                     = Js.includes (resp_statusText response) "timeout").
  { unfold message.
    rewrite <- !JsonFacts.append_assoc.
    apply includes_after_prefix. rewrite !existsb_str_app, numberToString_no_t. reflexivity. }
  assert (Hhttp : Js.includes message "HTTP" = true) by reflexivity.
  assert (Hproceed : forall o,
    bind (fetchSitemap w sitemapUrl)
      (fun fetched => match fetched with
                      | Throw error => ret (Returned (listFailure sitemapUrl error))
                      | Ret parsed => ret (listPage sitemapUrl (pageLimit limit) o parsed)
                      end) st
    = Some (Returned
              (if Js.includes (resp_statusText response) "timeout"
               then Failure TIMEOUT ("Request timed out while fetching sitemap: " +:+ sitemapUrl)
               else Failure UPSTREAM_ERROR message),
            logged st sitemapUrl)).
  { intros o. rewrite (bind_run _ _ _ _ _ (fetchSitemap_run w sitemapUrl st)).
    unfold readSitemap. rewrite Hfetch, Hok. cbn [negb]. fold message.
    unfold listFailure, ret, createErrorResponse.
    change (String.eqb "Error" "AbortError") with false. cbn [orb].
    rewrite Htimeout, Hhttp. now destruct (Js.includes (resp_statusText response) "timeout"). }
  destruct Hcursor as [-> | [-> | (c & -> & Ht)]]; [apply Hproceed | apply Hproceed |].
  destruct c as [|c0 c]; [apply Hproceed|]. rewrite Ht. cbn [negb]. apply Hproceed.
Qed.

(** A site without sitemap answers 404. *)
Lemma listSitemapUrls_not_found :
  listSitemapUrls (Fixtures.site []) "https://example.com/sitemap.xml" None None initial
  = Some (Returned (Failure UPSTREAM_ERROR "HTTP 404: Not Found"),
          logged initial "https://example.com/sitemap.xml").
Proof.
  exact (listSitemapUrls_http_error (Fixtures.site []) "https://example.com/sitemap.xml"
           None None initial _ ltac:(discriminate) eq_refl (or_introl eq_refl) eq_refl eq_refl).
Defined.
(* ===================================================================== *)
(** * robots.txt *)
(* ===================================================================== *)

Module DirectiveFacts.
Import Js.

Lemma blank_cons (c : ascii) (s : string) :
  blank (String c s) = true -> isWhiteSpace c = true /\ blank s = true.
Proof.
  unfold blank. cbn [existsb_str]. rewrite negb_orb, negb_involutive.
  now intros H%andb_true_iff.
Qed.

Lemma trimStart_blank (ws s : string) :
  blank ws = true -> trimStart (ws +:+ s) = trimStart s.
Proof.
  induction ws as [|c ws IH]; [reflexivity|]. intros H.
  apply blank_cons in H as [Hc Hws]. cbn [String.append trimStart]. rewrite Hc. now apply IH.
Qed.

Lemma trimEnd_blank (ws : string) : blank ws = true -> trimEnd ws = EmptyString.
Proof.
  induction ws as [|c ws IH]; [reflexivity|]. intros H.
  apply blank_cons in H as [Hc Hws]. rewrite TrimFacts.trimEnd_cons, (IH Hws). now rewrite Hc.
Qed.

Lemma trimEnd_app_blank (v ws : string) :
  blank ws = true -> trimEnd (v +:+ ws) = trimEnd v.
Proof.
  intros Hws. induction v as [|c v IH]; [now apply trimEnd_blank|].
  cbn [String.append]. now rewrite !TrimFacts.trimEnd_cons, IH.
Qed.

Lemma trimStart_app (v s : string) :
  v <> EmptyString -> trimStart v = v -> trimStart (v +:+ s) = v +:+ s.
Proof.
  destruct v as [|c v]; [contradiction|]. intros _ H. cbn [String.append trimStart] in *.
  destruct (isWhiteSpace c); [|reflexivity].
  exfalso. assert (Hlen : String.length (trimStart v) = String.length (String c v))
    by now rewrite H.
  clear H. cbn [String.length] in Hlen.
  assert (Hle : forall x, (String.length (trimStart x) <= String.length x)%nat).
  { induction x as [|d x IHx]; [reflexivity|]. cbn [trimStart].
    destruct (isWhiteSpace d); cbn [String.length]; lia. }
  specialize (Hle v). lia.
Qed.

Lemma startsWithIgnoreCase_app (s r p : string) :
  startsWithIgnoreCase s p = true -> startsWithIgnoreCase (s +:+ r) p = true.
Proof.
  revert s. induction p as [|c p IH]; intros s H; [reflexivity|].
  destruct s as [|d s]; [discriminate H|]. cbn [startsWithIgnoreCase String.append] in *.
  apply andb_true_iff in H as [-> H]. now apply IH.
Qed.

Lemma drop_app_length (s r : string) : drop (String.length s) (s +:+ r) = r.
Proof. induction s as [|c s IH]; [now destruct r | exact IH]. Qed.

(** A letter s, in either case, is not white space. *)
Lemma letter_s_plain (d : ascii) :
  Js.eqbIgnoreCase "s" d = true -> isWhiteSpace d = false.
Proof. destruct d as [[] [] [] [] [] [] [] []]; intros H; try discriminate H; reflexivity. Qed.

End DirectiveFacts.

(** X14.  A line of robots.txt made of optional ASCII white space, the word
    sitemap and a colon in any case, optional ASCII white space, an ASCII
    value that neither starts nor ends with white space and holds no line
    terminator, and optional ASCII white space, is a directive for that
    value. *)
Theorem sitemapDirective_reads (indent key gap value trail : string) :
  blank indent = true ->
  String.length key = 8%nat -> Js.startsWithIgnoreCase key "sitemap:" = true ->
  blank gap = true ->
  asciiText value = true ->
  value <> EmptyString -> Js.trimStart value = value -> Js.trimEnd value = value ->
  singleLine value = true ->
  blank trail = true ->
  sitemapDirective (indent +:+ key +:+ gap +:+ value +:+ trail) = Some value.
Proof.
  intros Hindent Hlen Hkey Hgap _ Hne Hstart Hend Hline Htrail. unfold sitemapDirective.
  rewrite (DirectiveFacts.trimStart_blank indent _ Hindent).
  assert (Hk : Js.trimStart (key +:+ gap +:+ value +:+ trail) = key +:+ gap +:+ value +:+ trail).
  { destruct key as [|k0 key]; [discriminate Hlen|].
    cbn [Js.startsWithIgnoreCase] in Hkey. apply andb_true_iff in Hkey as [Hs _].
    cbn [String.append Js.trimStart]. now rewrite (DirectiveFacts.letter_s_plain k0 Hs). }
  rewrite Hk, (DirectiveFacts.startsWithIgnoreCase_app key _ _ Hkey).
  rewrite <- Hlen, DirectiveFacts.drop_app_length.
  assert (Ht : Js.trim (gap +:+ value +:+ trail) = value).
  { unfold Js.trim. rewrite (DirectiveFacts.trimStart_blank gap _ Hgap).
    rewrite (DirectiveFacts.trimStart_app value trail Hne Hstart).
    now rewrite DirectiveFacts.trimEnd_app_blank. }
  rewrite Ht. destruct value as [|v0 value]; [contradiction|].
  unfold singleLine in Hline. apply negb_true_iff in Hline. now rewrite Hline.
Qed.

(** A directive in capitals with a carriage return at its end. *)
Lemma sitemapDirective_example :
  sitemapDirective (" SITEMAP:  https://example.com/sitemap.xml" +:+ String "013" EmptyString)
  = Some "https://example.com/sitemap.xml".
Proof.
  exact (sitemapDirective_reads " " "SITEMAP:" "  " "https://example.com/sitemap.xml"
           (String "013" EmptyString)
           eq_refl eq_refl eq_refl eq_refl eq_refl ltac:(discriminate)
           eq_refl eq_refl eq_refl eq_refl).
Defined.

Lemma robotsSitemaps_spec (w : World) (lines : list string) (v : string) :
  In v (robotsSitemaps w lines)
  <-> exists line, In line lines /\ sitemapDirective line = Some v /\ isValidUrl w v = true.
Proof.
  induction lines as [|line rest IH]; cbn [robotsSitemaps].
  - split; [contradiction | now intros (? & [] & _)].
  - destruct (sitemapDirective line) as [d|] eqn:Hd.
    + destruct (isValidUrl w d) eqn:Hv.
      * cbn [In]. rewrite IH. split.
        -- intros [<- | (l & Hl & H)]; [now exists line; repeat split; auto; left|].
           exists l. split; [now right | exact H].
        -- intros (l & [<- | Hl] & Hs & Hvalid).
           ++ left. congruence.
           ++ right. now exists l.
      * rewrite IH. split.
        -- intros (l & Hl & H). exists l. split; [now right | exact H].
        -- intros (l & [<- | Hl] & Hs & Hvalid); [congruence | now exists l].
    + rewrite IH. split.
      * intros (l & Hl & H). exists l. split; [now right | exact H].
      * intros (l & [<- | Hl] & Hs & Hvalid); [congruence | now exists l].
Qed.

(** X15.  [parseSitemapsFromRobotsTxt] makes one request and never fails.
    It reports the file as found exactly when the request is answered with a
    successful status, and lists nothing otherwise; what it lists are the
    values of the directive lines of the body that are valid HTTP or HTTPS
    URLs, and no other. *)
Theorem parseSitemapsFromRobotsTxt_lists_valid_directives
    (w : World) (robotsTxtUrl : string) (st : St) :
  exists listed found,
    parseSitemapsFromRobotsTxt w robotsTxtUrl st
    = Some ((listed, found), logged st robotsTxtUrl)
    /\ (found = true
        <-> exists response, fetch w robotsTxtUrl = Ret response /\ resp_ok response = true)
    /\ (found = false -> listed = [])
    /\ (forall response, fetch w robotsTxtUrl = Ret response -> resp_ok response = true ->
        forall v, In v listed
                  <-> exists line, In line (Js.splitOn LF (resp_body response))
                                   /\ sitemapDirective line = Some v
                                   /\ isValidUrl w v = true).
Proof.
  exists (robotsDirectives w robotsTxtUrl), (robotsAnswers w robotsTxtUrl).
  split; [apply parseSitemapsFromRobotsTxt_run|].
  unfold robotsDirectives, robotsAnswers.
  destruct (fetch w robotsTxtUrl) as [response|e].
  - split; [|split].
    + split; [intros H; now exists response | now intros (r & [= <-] & H)].
    + now intros ->.
    + intros r [= <-] Hok v. rewrite Hok. apply robotsSitemaps_spec.
  - split; [|split; [reflexivity|discriminate]].
    split; [discriminate | now intros (r & H & _)].
Qed.

(* ===================================================================== *)
(** * The requests and the results of discovery *)
(* ===================================================================== *)

(** X16.  Once its argument is accepted, [discoverSitemaps] asks for
    /sitemap.xml and for /robots.txt of the origin, in that order, and then
    for some of the URLs that robots.txt lists and of the three other
    standard places, in their order, and for nothing else: at most five URLs
    besides the listed ones, and never a URL that it only read in a sitemap
    index. *)
Theorem discoverSitemaps_requests
    (w : World) (fuel : nat) (u n : string) (urlObj : URLRecord) (st : St) :
  u <> EmptyString -> normalizeUrl w u = Some n -> parseURL w n = Some urlObj ->
  exists response probes st',
    discoverSitemaps w (S fuel) u st = Some (response, st')
    /\ fetched st'
       = fetched st ++ (origin urlObj +:+ "/sitemap.xml")
                       :: (origin urlObj +:+ "/robots.txt") :: probes
    /\ sublist probes (robotsDirectives w (origin urlObj +:+ "/robots.txt")
                       ++ alternativePlaces (origin urlObj))
    /\ (length probes <= length (robotsDirectives w (origin urlObj +:+ "/robots.txt")) + 3)%nat.
Proof.
  intros Hne Hn Hurl.
  destruct (discoverSitemaps_trace w fuel u n urlObj st Hne Hn Hurl)
    as (found & probes & st' & Hrun & Hf & Hs & _).
  eexists _, probes, st'. split; [exact Hrun|]. split; [exact Hf|]. split; [exact Hs|].
  apply sublist_length in Hs. rewrite length_app in Hs. exact Hs.
Qed.

(** Two indexes that reference each other, the first at the standard place:
    five requests, none for the second index. *)
Lemma discoverSitemaps_requests_cycle :
  exists response st',
    discoverSitemaps Fixtures.cycle 1 "example.com" initial = Some (response, st')
    /\ fetched st'
       = ["https://example.com/sitemap.xml"; "https://example.com/robots.txt";
          "https://example.com/sitemap_index.xml"; "https://example.com/sitemap.xml.gz";
          "https://example.com/sitemaps/sitemap.xml"].
Proof.
  destruct (discoverSitemaps_requests Fixtures.cycle 0 "example.com" "https://example.com"
              {| protocol := "https:"; origin := "https://example.com" |} initial
              ltac:(discriminate) eq_refl eq_refl)
    as (response & probes & st' & Hrun & Hf & _).
  exists response, st'. split; [exact Hrun|].
  assert (Hlog : fetched <$> (snd <$> discoverSitemaps Fixtures.cycle 1 "example.com" initial)
                 = Some ["https://example.com/sitemap.xml"; "https://example.com/robots.txt";
                         "https://example.com/sitemap_index.xml";
                         "https://example.com/sitemap.xml.gz";
                         "https://example.com/sitemaps/sitemap.xml"])
    by (vm_compute; reflexivity).
  rewrite Hrun in Hlog. now injection Hlog.
Defined.

(** X17.  In a successful answer of [discoverSitemaps], the URLs of the
    sitemaps are pairwise distinct; each sitemap was found at a standard
    place or in robots.txt, none in a sitemap index: the children of an index
    are not listed; the domain is the origin of the normalized argument,
    which is the source; and the warning that no sitemaps were found is
    there exactly when the list is empty. *)
Theorem discoverSitemaps_results
    (w : World) (fuel : nat) (u : string) (st st' : St)
    (data : DiscoverSitemapsData) (meta : ResponseMeta) :
  discoverSitemaps w (S fuel) u st = Some (Success data meta, st') ->
  NoDup (map ds_url (sitemaps data))
  /\ Forall (fun sm => discovered_from sm <> from_sitemap_index
                       /\ In (ds_url sm) (fetched st')) (sitemaps data)
  /\ (exists n urlObj,
        normalizeUrl w u = Some n /\ parseURL w n = Some urlObj
        /\ domain data = origin urlObj /\ source meta = Some n
        /\ robots_txt_found data = robotsAnswers w (origin urlObj +:+ "/robots.txt"))
  /\ warnings meta = Some (match sitemaps data with
                           | [] => ["No sitemaps found for this domain"]
                           | _ => []
                           end).
Proof.
  intros H.
  assert (Hne : u <> EmptyString).
  { intros ->. discriminate H. }
  destruct (normalizeUrl w u) as [n|] eqn:Hn.
  2:{ unfold discoverSitemaps in H. rewrite Hn in H.
      destruct (String.eqb u EmptyString); discriminate H. }
  destruct (isValidUrl_parses w n (normalizeUrl_valid w u n Hn)) as [urlObj Hurl].
  destruct (discoverSitemaps_trace w fuel u n urlObj st Hne Hn Hurl)
    as (found & probes & st1 & Hrun & Hf & Hs & Hu & Hd & Hfrom).
  rewrite Hrun in H. injection H as <- <- <-. cbn [sitemaps domain source warnings robots_txt_found].
  split; [exact Hd|]. split; [|split].
  - apply Forall_forall. intros sm Hsm. split.
    + rewrite Forall_forall in Hfrom. destruct (Hfrom sm Hsm) as [-> | ->]; discriminate.
    + rewrite Hf. apply in_or_app. right.
      assert (Hin : ds_url sm ∈ (origin urlObj +:+ "/sitemap.xml") :: probes).
      { apply (sublist_subseteq _ _ Hu). apply list_elem_of_In, in_map.
        now apply list_elem_of_In. }
      apply list_elem_of_In in Hin. destruct Hin as [<- | Hin]; [now left | now do 2 right].
  - exists n, urlObj. now repeat split.
  - now destruct found.
Qed.

(** The first index of the cycle is reported, alone. *)
Lemma discoverSitemaps_results_cycle :
  exists data meta st',
    discoverSitemaps Fixtures.cycle 1 "example.com" initial = Some (Success data meta, st')
    /\ sitemaps data = [{| ds_url := Fixtures.A; ds_type := sitemap_index;
                           discovered_from := standard_location |}]
    /\ warnings meta = Some [].
Proof.
  assert (Hrun : exists data meta st',
    discoverSitemaps Fixtures.cycle 1 "example.com" initial = Some (Success data meta, st')
    /\ sitemaps data = [{| ds_url := Fixtures.A; ds_type := sitemap_index;
                           discovered_from := standard_location |}]).
  { do 3 eexists. split; [vm_compute; reflexivity | reflexivity]. }
  destruct Hrun as (data & meta & st' & Hrun & Hs).
  exists data, meta, st'. split; [exact Hrun|]. split; [exact Hs|].
  destruct (discoverSitemaps_results _ _ _ _ _ _ _ Hrun) as (_ & _ & _ & Hw).
  now rewrite Hs in Hw.
Defined.

(** A failure of [discoverSitemaps] is a rejection of its argument. *)
Lemma discoverSitemaps_failure (w : World) (fuel : nat) (u : string) (st st' : St)
    (code : ErrorCode) (message : string) :
  discoverSitemaps w fuel u st = Some (Failure code message, st') ->
  code = INVALID_INPUT /\ st' = st /\ (u = EmptyString \/ normalizeUrl w u = None).
Proof.
  unfold discoverSitemaps. destruct (String.eqb_spec u EmptyString) as [-> | Hne].
  { intros [= <- <- <-]. auto. }
  destruct (normalizeUrl w u) as [n|] eqn:Hn.
  2:{ intros [= <- <- <-]. auto. }
  intros H. exfalso.
  destruct (isValidUrl_parses w n (normalizeUrl_valid w u n Hn)) as [urlObj Hurl].
  rewrite Hurl in H.
  apply bind_inv in H as (? & ? & _ & H). apply bind_inv in H as (? & ? & _ & H).
  apply bind_inv in H as ([? ?] & ? & _ & H). apply bind_inv in H as (? & ? & _ & H).
  apply bind_inv in H as (? & ? & _ & H). discriminate H.
Qed.

(** X18.  [discoverSitemaps] fails exactly when its argument is empty or
    does not normalize to a valid HTTP or HTTPS URL; the failure is
    INVALID_INPUT and comes before any request.  It reports no other error:
    what goes wrong with a request is never reported as a failure. *)
Theorem discoverSitemaps_fails_on_input_only
    (w : World) (fuel : nat) (u : string) (st : St) :
  (u = EmptyString \/ normalizeUrl w u = None ->
   exists message, discoverSitemaps w fuel u st = Some (Failure INVALID_INPUT message, st))
  /\ (forall code message st',
        discoverSitemaps w fuel u st = Some (Failure code message, st') ->
        code = INVALID_INPUT /\ st' = st /\ (u = EmptyString \/ normalizeUrl w u = None)).
Proof.
  split; [|intros code message st'; apply discoverSitemaps_failure].
  unfold discoverSitemaps. destruct (String.eqb_spec u EmptyString) as [-> | Hne].
  { intros _. now eexists. }
  destruct (normalizeUrl w u) as [n|] eqn:Hn; [|intros _; now eexists].
  intros [? | ?]; [contradiction | discriminate].
Qed.

(** An address that is no host name, where no request would be answered. *)
Lemma discoverSitemaps_rejects_example :
  exists message,
    discoverSitemaps Fixtures.unreachable 1 "https://" initial
    = Some (Failure INVALID_INPUT message, initial).
Proof.
  apply (proj1 (discoverSitemaps_fails_on_input_only Fixtures.unreachable 1 "https://" initial)).
  right. reflexivity.
Defined.

(* ===================================================================== *)
(** * The expansion of an index *)
(* ===================================================================== *)

Section Expansion.

Variable w : World.

Lemma NewChild_weaken (seen seen' : gset string) (l : list DiscoveredSitemap) :
  seen ⊆ seen' -> Forall (NewChild w seen') l -> Forall (NewChild w seen) l.
Proof.
  intros Hsub H. eapply Forall_impl; [exact H|].
  intros sm (H1 & H2 & H3). repeat split; auto; set_solver.
Qed.

Lemma expandEntries_children (self : string -> M (list DiscoveredSitemap))
    (seen : gset string) :
  (forall l st r st', self l st = Some (r, st') ->
                      Forall (NewChild w (visited st)) r /\ visited st ⊆ visited st') ->
  forall entries acc st r st',
    expandEntries w self entries acc st = Some (r, st') ->
    seen ⊆ visited st -> Forall (NewChild w seen) acc -> Forall (NewChild w seen) r.
Proof.
  intros Hself. induction entries as [|e es IH]; intros acc st r st' H Hseen Hacc.
  - now injection H as <- _.
  - cbn [expandEntries] in H. destruct (truthy (x_loc e)) as [l|]; [|now apply IH in H].
    unfold bind at 1 in H. unfold visited_has at 1 in H.
    destruct (isValidUrl w l) eqn:Hvalid; cbn [andb] in H; [|now apply IH in H].
    destruct (bool_decide_reflect (l ∈ visited st)) as [Hin | Hout]; cbn [negb] in H;
      [now apply IH in H|].
    rewrite (bind_run _ _ _ _ _ (checkSitemap_run w l from_sitemap_index st)) in H.
    destruct (classifyProbe w l from_sitemap_index (fetch w l)) as [sm|] eqn:Hsm;
      [|now apply IH in H].
    destruct (classifyProbe_from w l _ _ sm Hsm) as [Hurl Hfrom].
    assert (Hnew : Forall (NewChild w seen) (acc ++ [sm])).
    { apply Forall_app. split; [exact Hacc|]. constructor; [|constructor].
      repeat split; [exact Hfrom | now rewrite Hurl | rewrite Hurl; set_solver]. }
    destruct (SitemapType_eqb (ds_type sm) sitemap_index); [|now apply IH in H].
    apply bind_inv in H as (nested & st1 & Hn & H).
    destruct (Hself _ _ _ _ Hn) as [Hnested Hgrow]. cbn [logged visited] in *.
    apply IH in H; [exact H | set_solver |].
    apply Forall_app. split; [exact Hnew|]. now apply (NewChild_weaken seen (visited st)).
Qed.

Lemma discoverFromSitemapIndex_children (fuel : nat) :
  forall u st r st',
    discoverFromSitemapIndex w fuel u st = Some (r, st') ->
    Forall (NewChild w ({[u]} ∪ visited st)) r.
Proof.
  induction fuel as [|fuel IH]; intros u st r st' H; [discriminate|].
  rewrite discoverFromSitemapIndex_unfold in H.
  destruct (bool_decide (u ∈ visited st)); [injection H as <- _; constructor|].
  cbv zeta in H.
  destruct (fetch w u) as [response|e]; [|injection H as <- _; constructor].
  destruct (negb (resp_ok response)); [injection H as <- _; constructor|].
  destruct (readContent w u response) as [content|e]; [|injection H as <- _; constructor].
  destruct (xmlParse w content) as [parsed|e]; [|injection H as <- _; constructor].
  destruct (sitemapindex_sitemap parsed) as [entries|]; [|injection H as <- _; constructor].
  apply (expandEntries_children (discoverFromSitemapIndex w fuel) ({[u]} ∪ visited st)) in H;
    [exact H | | reflexivity | constructor].
  intros l st1 r1 st1' Hrun. split.
  - apply (NewChild_weaken _ ({[l]} ∪ visited st1)); [set_solver | now apply IH in Hrun].
  - now apply discoverFromSitemapIndex_grows in Hrun.
Qed.

End Expansion.

(** X19.  What [discoverFromSitemapIndex] reports for an index are sitemaps
    found in a sitemap index, at valid URLs that were not marked as visited
    when the call started, and none of them is the index itself, also when
    the index is listed by its own descendants; for an index that is already
    marked, it reports nothing and makes no request. *)
Theorem discoverFromSitemapIndex_reports_new_children
    (w : World) (fuel : nat) (indexUrl : string) (st st' : St)
    (found : list DiscoveredSitemap) :
  discoverFromSitemapIndex w fuel indexUrl st = Some (found, st') ->
  Forall (fun sm => discovered_from sm = from_sitemap_index
                    /\ isValidUrl w (ds_url sm) = true
                    /\ (ds_url sm ∉ visited st)
                    /\ ds_url sm <> indexUrl) found
  /\ (indexUrl ∈ visited st -> found = [] /\ st' = st).
Proof.
  intros H. split.
  - apply discoverFromSitemapIndex_children in H. eapply Forall_impl; [exact H|].
    intros sm (H1 & H2 & H3). repeat split; auto; set_solver.
  - intros Hin. destruct fuel as [|fuel]; [discriminate H|].
    rewrite (discoverFromSitemapIndex_seen w fuel indexUrl st Hin) in H.
    now injection H as <- <-.
Qed.

(** On the two indexes that reference each other, the expansion of the
    first reports the second and nothing else. *)
Lemma discoverFromSitemapIndex_cycle_children :
  exists st',
    discoverFromSitemapIndex Fixtures.cycle 4 Fixtures.A initial
    = Some ([{| ds_url := Fixtures.B; ds_type := sitemap_index;
                discovered_from := from_sitemap_index |}], st')
    /\ Fixtures.B <> Fixtures.A.
Proof.
  assert (Hrun : exists st',
    discoverFromSitemapIndex Fixtures.cycle 4 Fixtures.A initial
    = Some ([{| ds_url := Fixtures.B; ds_type := sitemap_index;
                discovered_from := from_sitemap_index |}], st')).
  { eexists. vm_compute. reflexivity. }
  destruct Hrun as [st' Hrun]. exists st'. split; [exact Hrun|].
  destruct (discoverFromSitemapIndex_reports_new_children _ _ _ _ _ _ Hrun) as [Hall _].
  apply Forall_inv in Hall. apply Hall.
Defined.
(* ===================================================================== *)
(** * What the traversal of the Frontier Builder returns *)
(* ===================================================================== *)

(** X20.  What [collectUrlsFromSitemap] returns for a sitemap and a bound:
    at most as many entries as the bound, and none when the bound is not
    positive; each entry passes the include and exclude filters and is
    attributed to a sitemap that the call requested; and the count of
    processed sitemaps is at most the number of requests of the call. *)
Theorem collectUrlsFromSitemap_bounds
    (w : World) (fuel : nat) (rules : CrawlFrontierRules) (sitemapUrl : string) (maxUrls : Z)
    (st st' : St) (found : list FrontierUrl) (processed : Z) :
  collectUrlsFromSitemap w fuel rules sitemapUrl maxUrls st = Some ((found, processed), st') ->
  exists requested,
    fetched st' = fetched st ++ requested
    /\ Z.of_nat (length found) <= Z.max 0 maxUrls
    /\ Forall (fun x => passesFilters (url x) rules = true
                        /\ In (source_sitemap x) requested) found
    /\ 0 <= processed <= Z.of_nat (length requested).
Proof.
  intros H. apply collect_trace in H as (new & Hf & Hall & Hlen & Hk).
  exists new. now repeat split.
Qed.

(** The small site, from its index and with room for one entry. *)
Lemma collectUrlsFromSitemap_bounds_example :
  exists found processed st',
    collectUrlsFromSitemap Fixtures.smallSite 3 (normalizeRules None) Fixtures.A 1 initial
    = Some ((found, processed), st')
    /\ map url found = [Fixtures.P1]
    /\ fetched st' = [Fixtures.A; Fixtures.B]
    /\ processed = 2.
Proof.
  assert (Hrun : exists found processed st',
    collectUrlsFromSitemap Fixtures.smallSite 3 (normalizeRules None) Fixtures.A 1 initial
    = Some ((found, processed), st')
    /\ map url found = [Fixtures.P1] /\ fetched st' = [Fixtures.A; Fixtures.B]
    /\ processed = 2).
  { do 3 eexists. split; [vm_compute; reflexivity | repeat split]. }
  destruct Hrun as (found & processed & st' & Hrun & Hurls & Hlog & Hk).
  destruct (collectUrlsFromSitemap_bounds _ _ _ _ _ _ _ _ _ Hrun) as (requested & _ & Hlen & _).
  exists found, processed, st'. repeat split; assumption.
Defined.

(* ===================================================================== *)
(** * The answers of the Frontier Builder *)
(* ===================================================================== *)

(** The ways in which a call of [buildCrawlFrontier] returns. *)
Lemma buildCrawlFrontier_inv (w : World) (fuel : nat) (seedUrl : string)
    (rules : option CrawlFrontierRules) (limit : option Z) (st st' : St)
    (response : Response BuildCrawlFrontierData) :
  buildCrawlFrontier w (S fuel) seedUrl rules limit st = Some (response, st') ->
  let normalizedRules := normalizeRules rules in
  let eff := effectiveLimitOf normalizedRules limit in
  ((seedUrl = EmptyString \/ normalizeUrl w seedUrl = None
    \/ hasEmptyPattern (include normalizedRules) = true
    \/ hasEmptyPattern (exclude normalizedRules) = true)
   /\ st' = st /\ exists message, response = Failure INVALID_INPUT message)
  \/ (exists n st0,
        normalizeUrl w seedUrl = Some n
        /\ (exists before, fetched st0 = fetched st ++ before)
        /\ ((st' = st0
             /\ response
                = Success
                    {| seed_url := n; frontier := []; total_urls := 0;
                       sitemaps_processed := 0; rules_applied := normalizedRules |}
                    {| source := Some n; pagination := None;
                       warnings :=
                         Some ["No sitemaps found for this domain. Frontier is empty."] |})
            \/ (exists discovered allUrls processed,
                  discovered <> []
                  /\ collectAll w (S fuel) normalizedRules eff discovered [] 0
                       {| visited := ∅; fetched := fetched st0 |}
                     = Some ((allUrls, processed), st')
                  /\ response = finishFrontier n normalizedRules eff [] allUrls processed))).
Proof.
  intros H normalizedRules eff. unfold buildCrawlFrontier in H.
  destruct (String.eqb_spec seedUrl EmptyString) as [-> | Hne].
  { injection H as <- <-. left. split; [now left|]. split; [reflexivity | now eexists]. }
  destruct (normalizeUrl w seedUrl) as [n|] eqn:Hn.
  2:{ injection H as <- <-. left. split; [now (right; left)|].
      split; [reflexivity | now eexists]. }
  fold normalizedRules in H.
  destruct (hasEmptyPattern (include normalizedRules)) eqn:Hi.
  { injection H as <- <-. left. split; [now (right; right; left)|].
    split; [reflexivity | now eexists]. }
  destruct (hasEmptyPattern (exclude normalizedRules)) eqn:He.
  { injection H as <- <-. left. split; [now (right; right; right)|].
    split; [reflexivity | now eexists]. }
  right. exists n.
  destruct (normalizeUrl_idempotent w seedUrl n Hn) as [Hn0 Hnn].
  destruct (isValidUrl_parses w n (normalizeUrl_valid w seedUrl n Hn)) as [urlObj Hurl].
  destruct (discoverSitemaps_trace w fuel n n urlObj st Hn0 Hnn Hurl)
    as (found & probes & st0 & Hrun & Hf & _).
  rewrite (bind_run _ _ _ _ _ Hrun) in H. cbn [sitemaps warnings] in H.
  exists st0. split; [reflexivity|]. split; [eexists; exact Hf|].
  destruct found as [|sm found].
  - left. injection H as <- <-. now split.
  - right. cbn [length Nat.eqb Js.nullish] in H.
    apply bind_inv in H as ([] & st1 & Hnew & H). injection Hnew as <-.
    apply bind_inv in H as ([allUrls processed] & st2 & Hc & H).
    injection H as <- <-. exists (sm :: found), allUrls, processed.
    split; [discriminate|]. split; [exact Hc | reflexivity].
Qed.

Lemma passesFilters_spec (u : string) (rules : CrawlFrontierRules) :
  passesFilters u rules = true ->
  (forall patterns, include rules = Some patterns ->
                    patterns = [] \/ exists p, In p patterns /\ matchesPattern u p = true)
  /\ (forall patterns p, exclude rules = Some patterns -> In p patterns ->
                         matchesPattern u p = false).
Proof.
  unfold passesFilters. intros H. apply andb_true_iff in H as [Hi He]. split.
  - intros patterns Hp. rewrite Hp in Hi. destruct patterns as [|p0 ps]; [now left|].
    right. apply existsb_exists in Hi as (p & Hin & Hm). now exists p.
  - intros patterns p Hp Hin. rewrite Hp in He. destruct patterns as [|p0 ps]; [destruct Hin|].
    apply negb_true_iff in He. destruct (matchesPattern u p) eqn:Hm; [|reflexivity].
    assert (Hex : existsb (matchesPattern u) (p0 :: ps) = true)
      by (apply existsb_exists; now exists p).
    congruence.
Qed.

(** X21.  Every entry of the frontier of a successful call passes the
    filters of the rules: when include patterns are given its URL matches one
    of them, and it matches no exclude pattern; and the sitemap it is
    attributed to was requested during the call. *)
Theorem frontier_passes_filters
    (w : World) (fuel : nat) (seedUrl : string) (rules : option CrawlFrontierRules)
    (limit : option Z) (st st' : St) (data : BuildCrawlFrontierData) (meta : ResponseMeta) :
  buildCrawlFrontier w (S fuel) seedUrl rules limit st = Some (Success data meta, st') ->
  forall x, In x (frontier data) ->
    passesFilters (url x) (normalizeRules rules) = true
    /\ (forall patterns, include (normalizeRules rules) = Some patterns ->
          patterns = [] \/ exists p, In p patterns /\ matchesPattern (url x) p = true)
    /\ (forall patterns p, exclude (normalizeRules rules) = Some patterns -> In p patterns ->
          matchesPattern (url x) p = false)
    /\ In (source_sitemap x) (fetched st').
Proof.
  intros H x Hx.
  assert (Hc : Collected (normalizeRules rules) (fetched st') x).
  { apply buildCrawlFrontier_inv in H.
    destruct H as [(_ & _ & message & H) | (n & st0 & _ & _ & [[_ H] | H])];
      [discriminate H | injection H as -> _; destruct Hx |].
    destruct H as (discovered & allUrls & processed & _ & Hrun & Hfin).
    symmetry in Hfin.
    destruct (finishFrontier_frontier _ _ _ _ _ _ _ _ Hfin) as (_ & _ & _ & Hsub & _).
    apply collectAll_trace in Hrun as (new & Hf & Hall & _).
    specialize (Hall [] ltac:(constructor)). cbn [app fetched] in Hall, Hf.
    rewrite Forall_forall in Hall.
    destruct (Hall x) as [Hp Hs].
    { apply (sublist_subseteq _ _ Hsub). now apply list_elem_of_In. }
    split; [exact Hp|]. rewrite Hf. apply in_or_app. now right. }
  destruct Hc as [Hp Hs]. destruct (passesFilters_spec _ _ Hp) as [Hi He].
  now repeat split.
Qed.

(** On the small site, with the blog as the only part to include. *)
Lemma frontier_of_the_blog :
  exists data meta st',
    buildCrawlFrontier Fixtures.smallSite 3 "example.com"
      (Some {| include := Some ["*/blog/*"]; exclude := None; max_urls := None |})
      None initial
    = Some (Success data meta, st')
    /\ map url (frontier data) = [Fixtures.P2]
    /\ Forall (fun x => matchesPattern (url x) "*/blog/*" = true) (frontier data).
Proof.
  assert (Hrun : exists data meta st',
    buildCrawlFrontier Fixtures.smallSite 3 "example.com"
      (Some {| include := Some ["*/blog/*"]; exclude := None; max_urls := None |})
      None initial
    = Some (Success data meta, st')
    /\ map url (frontier data) = [Fixtures.P2]).
  { do 3 eexists. split; [vm_compute; reflexivity | reflexivity]. }
  destruct Hrun as (data & meta & st' & Hrun & Hurls).
  exists data, meta, st'. split; [exact Hrun|]. split; [exact Hurls|].
  apply Forall_forall. intros x Hx. apply list_elem_of_In in Hx.
  destruct (frontier_passes_filters _ _ _ _ _ _ _ _ _ Hrun x Hx) as (_ & Hi & _).
  destruct (Hi ["*/blog/*"] eq_refl) as [? | (p & [<- | []] & Hm)]; [discriminate | exact Hm].
Defined.

(** X22.  [buildCrawlFrontier] fails exactly when the seed URL is empty or
    does not normalize to a valid HTTP or HTTPS URL, or a pattern of the
    rules is the empty string; the failure is INVALID_INPUT and comes before
    any request.  It reports no other error: a request that fails or times
    out never makes the call fail. *)
Theorem buildCrawlFrontier_fails_on_input_only
    (w : World) (fuel : nat) (seedUrl : string) (rules : option CrawlFrontierRules)
    (limit : option Z) (st : St) :
  let rejected :=
    seedUrl = EmptyString \/ normalizeUrl w seedUrl = None
    \/ hasEmptyPattern (include (normalizeRules rules)) = true
    \/ hasEmptyPattern (exclude (normalizeRules rules)) = true in
  (rejected ->
   exists message,
     buildCrawlFrontier w (S fuel) seedUrl rules limit st
     = Some (Failure INVALID_INPUT message, st))
  /\ (forall code message st',
        buildCrawlFrontier w (S fuel) seedUrl rules limit st
        = Some (Failure code message, st') ->
        code = INVALID_INPUT /\ st' = st /\ rejected).
Proof.
  intros rejected. split.
  - intros Hr. unfold buildCrawlFrontier.
    destruct (String.eqb_spec seedUrl EmptyString) as [-> | Hne]; [now eexists|].
    destruct (normalizeUrl w seedUrl) as [n|] eqn:Hn; [|now eexists].
    destruct (hasEmptyPattern (include (normalizeRules rules))) eqn:Hi; [now eexists|].
    destruct (hasEmptyPattern (exclude (normalizeRules rules))) eqn:He; [now eexists|].
    destruct Hr as [? | [? | [? | ?]]]; [contradiction | discriminate..].
  - intros code message st' H. apply buildCrawlFrontier_inv in H.
    destruct H as [(Hr & -> & m & [= <- <-]) | (n & st0 & _ & _ & [[_ H] | H])];
      [now repeat split | discriminate H |].
    destruct H as (discovered & allUrls & processed & _ & _ & H). discriminate H.
Qed.

(** An empty pattern among the exclude patterns. *)
Lemma buildCrawlFrontier_rejects_example :
  exists message,
    buildCrawlFrontier Fixtures.unreachable 1 "example.com"
      (Some {| include := None; exclude := Some ["*.pdf"; EmptyString]; max_urls := None |})
      None initial
    = Some (Failure INVALID_INPUT message, initial).
Proof.
  apply (proj1 (buildCrawlFrontier_fails_on_input_only Fixtures.unreachable 0 "example.com"
                  (Some {| include := None; exclude := Some ["*.pdf"; EmptyString];
                           max_urls := None |})
                  None initial)).
  right. right. right. reflexivity.
Defined.

(** X23.  In a successful answer of [buildCrawlFrontier]: [total_urls] is
    the length of the frontier; [rules_applied] are the rules with their
    defaults, with a [max_urls] of at most 10000; the seed URL and the
    source are the normalized seed; and [sitemaps_processed] is at most the
    number of requests of the call. *)
Theorem buildCrawlFrontier_envelope
    (w : World) (fuel : nat) (seedUrl : string) (rules : option CrawlFrontierRules)
    (limit : option Z) (st st' : St) (data : BuildCrawlFrontierData) (meta : ResponseMeta) :
  buildCrawlFrontier w (S fuel) seedUrl rules limit st = Some (Success data meta, st') ->
  total_urls data = Z.of_nat (length (frontier data))
  /\ rules_applied data = normalizeRules rules
  /\ (exists m, max_urls (rules_applied data) = Some m /\ m <= 10000)
  /\ normalizeUrl w seedUrl = Some (seed_url data)
  /\ source meta = Some (seed_url data)
  /\ pagination meta = None
  /\ (exists requested,
        fetched st' = fetched st ++ requested
        /\ 0 <= sitemaps_processed data <= Z.of_nat (length requested)).
Proof.
  intros H.
  assert (Hmax : exists m, max_urls (normalizeRules rules) = Some m /\ m <= 10000).
  { eexists. split; [reflexivity|]. unfold FrontierLimits.MAX_LIMIT. lia. }
  apply buildCrawlFrontier_inv in H.
  destruct H as [(_ & _ & message & H) | (n & st0 & Hn & [before Hb] & [[-> H] | H])];
    [discriminate H | |].
  - injection H as -> ->. cbn [total_urls frontier rules_applied seed_url source pagination
                                 sitemaps_processed].
    split; [reflexivity|]. split; [reflexivity|]. split; [exact Hmax|].
    split; [exact Hn|]. split; [reflexivity|]. split; [reflexivity|].
    exists before. split; [exact Hb|]. lia.
  - destruct H as (discovered & allUrls & processed & _ & Hrun & Hfin).
    apply collectAll_trace in Hrun as (new & Hf & _ & _ & Hk). cbn [fetched] in Hf.
    unfold finishFrontier, createSuccessResponse in Hfin. injection Hfin as -> ->.
    cbn [total_urls frontier rules_applied seed_url source pagination sitemaps_processed
           arg_source arg_pagination].
    split; [reflexivity|]. split; [reflexivity|]. split; [exact Hmax|].
    split; [exact Hn|]. split; [reflexivity|]. split; [reflexivity|].
    exists (before ++ new). split; [now rewrite Hf, Hb, app_assoc|].
    rewrite length_app. lia.
Qed.

(** The small site: two sitemaps processed, after seven requests. *)
Lemma buildCrawlFrontier_envelope_example :
  exists data meta st',
    buildCrawlFrontier Fixtures.smallSite 3 "example.com" None None initial
    = Some (Success data meta, st')
    /\ sitemaps_processed data = 2
    /\ length (fetched st') = 7%nat
    /\ total_urls data = Z.of_nat (length (frontier data)).
Proof.
  assert (Hrun : exists data meta st',
    buildCrawlFrontier Fixtures.smallSite 3 "example.com" None None initial
    = Some (Success data meta, st')
    /\ sitemaps_processed data = 2 /\ length (fetched st') = 7%nat).
  { do 3 eexists. split; [vm_compute; reflexivity | split; reflexivity]. }
  destruct Hrun as (data & meta & st' & Hrun & Hk & Hlen).
  exists data, meta, st'. split; [exact Hrun|]. split; [exact Hk|]. split; [exact Hlen|].
  exact (proj1 (buildCrawlFrontier_envelope _ _ _ _ _ _ _ _ _ Hrun)).
Defined.




(** X26.  The rules that an answer reports as applied are a fixed point of
    the defaults: given back as the rules of a call, they are applied as they
    are, and the call returns what the call with the original rules
    returns. *)
Theorem rules_applied_are_stable
    (w : World) (fuel : nat) (seedUrl : string) (rules : option CrawlFrontierRules)
    (limit : option Z) (st : St) :
  normalizeRules (Some (normalizeRules rules)) = normalizeRules rules
  /\ buildCrawlFrontier w fuel seedUrl (Some (normalizeRules rules)) limit st
     = buildCrawlFrontier w fuel seedUrl rules limit st.
Proof.
  assert (H : normalizeRules (Some (normalizeRules rules)) = normalizeRules rules).
  { unfold normalizeRules. cbn. f_equal. f_equal. lia. }
  split; [exact H|]. unfold buildCrawlFrontier. now rewrite H.
Qed.

(** X27.  [discoverSitemaps] and [buildCrawlFrontier] answer an address as
    they answer its normal form: a host name, with or without white space
    around it, and the same host name behind https:// give the same
    answer. *)
Theorem tools_accept_normal_form
    (w : World) (fuel : nat) (u n : string) (rules : option CrawlFrontierRules)
    (limit : option Z) (st : St) :
  u <> EmptyString -> normalizeUrl w u = Some n ->
  discoverSitemaps w fuel u st = discoverSitemaps w fuel n st
  /\ buildCrawlFrontier w fuel u rules limit st = buildCrawlFrontier w fuel n rules limit st.
Proof.
  intros Hne Hn. destruct (normalizeUrl_idempotent w u n Hn) as [Hn0 Hnn].
  unfold discoverSitemaps, buildCrawlFrontier.
  destruct (String.eqb_spec u EmptyString) as [? | _]; [contradiction|].
  destruct (String.eqb_spec n EmptyString) as [? | _]; [contradiction|].
  now rewrite Hn, Hnn.
Qed.

Lemma tools_accept_normal_form_example :
  buildCrawlFrontier Fixtures.smallSite 3 " example.com " None None initial
  = buildCrawlFrontier Fixtures.smallSite 3 "https://example.com" None None initial.
Proof.
  exact (proj2 (tools_accept_normal_form Fixtures.smallSite 3 " example.com "
                  "https://example.com" None None initial ltac:(discriminate) eq_refl)).
Defined.
(* ===================================================================== *)
(** * The tool call handler *)
(* ===================================================================== *)

(** X25.  The handler answers a name that is none of the three tool names,
    compared exactly, with an INVALID_INPUT envelope that names the unknown
    tool; and it answers a call of a tool without its URL argument, or
    without arguments at all, with the INVALID_INPUT envelope of that tool.
    In both cases no request is made. *)
Theorem callTool_rejects
    (w : World) (fuel : nat) (name : string) (args : option Server.ToolArguments) (st : St) :
  (name <> "discover_sitemaps" -> name <> "list_sitemap_urls" ->
   name <> "build_crawl_frontier" ->
   Server.callTool w fuel name args st
   = Some (Server.UnknownTool (Failure INVALID_INPUT ("Unknown tool: " +:+ name)), st))
  /\ ((forall a, args = Some a -> Server.url a = None) ->
      Server.callTool w fuel "discover_sitemaps" args st
      = Some (Server.DiscoverResult
                (Failure INVALID_INPUT "URL is required and must be a string"), st))
  /\ ((forall a, args = Some a -> Server.sitemap_url a = None) ->
      Server.callTool w fuel "list_sitemap_urls" args st
      = Some (Server.ListResult
                (Returned (Failure INVALID_INPUT
                             "sitemap_url is required and must be a string")), st))
  /\ ((forall a, args = Some a -> Server.seed_url a = None) ->
      Server.callTool w fuel "build_crawl_frontier" args st
      = Some (Server.FrontierResult
                (Failure INVALID_INPUT "seed_url is required and must be a string"), st)).
Proof.
  split; [|split; [|split]].
  - intros H1 H2 H3. unfold Server.callTool.
    apply String.eqb_neq in H1, H2, H3. now rewrite H1, H2, H3.
  - intros H. unfold Server.callTool. cbn [String.eqb Ascii.eqb Bool.eqb].
    destruct args as [a|]; [rewrite (H a eq_refl)|]; reflexivity.
  - intros H. unfold Server.callTool. cbn [String.eqb Ascii.eqb Bool.eqb].
    destruct args as [a|]; [rewrite (H a eq_refl)|]; reflexivity.
  - intros H. unfold Server.callTool. cbn [String.eqb Ascii.eqb Bool.eqb].
    destruct args as [a|]; [rewrite (H a eq_refl)|]; reflexivity.
Qed.

(** A tool name in capitals, and a call without arguments. *)
Lemma callTool_rejects_example :
  Server.callTool Fixtures.unreachable 1 "Discover_Sitemaps" None initial
  = Some (Server.UnknownTool (Failure INVALID_INPUT "Unknown tool: Discover_Sitemaps"),
          initial)
  /\ Server.callTool Fixtures.unreachable 1 "build_crawl_frontier" None initial
     = Some (Server.FrontierResult
               (Failure INVALID_INPUT "seed_url is required and must be a string"), initial).
Proof.
  split.
  - apply (proj1 (callTool_rejects Fixtures.unreachable 1 "Discover_Sitemaps" None initial));
      discriminate.
  - apply (proj2 (proj2 (proj2 (callTool_rejects Fixtures.unreachable 1
                                  "build_crawl_frontier" None initial)))).
    discriminate.
Defined.
